(** * sdeint: integrators for Ito and Stratonovich equations

    A shallow embedding of [sdeint/integrate.py]: the argument validation
    [_check_args] and the time-stepping integrators built on it, followed by
    the properties of the specification that were checked against them and by
    further properties of the code.

    Modelling conventions.
    - Array entries are values of an abstract scalar type [R] with the
      arithmetic the source uses ([Scalar]); binary64 floats are the instance
      used for concrete runs.  A 1-D array is a [list R], a 2-D array the list
      of its rows, a 3-D array the list of its 2-D slices.
    - Exceptions are values of [exn]; a computation is a function from the
      number of recurrence steps already begun to that number afterwards and
      either a value or the exception raised ([M]).
    - The integer arithmetic is that of Python 3: [a / b] on integers is
      true division and [int] truncates toward zero, so [int((n-1)/k)] is
      [Z.quot (n-1) k] (exact for every index an array can have).
    - An operation between arrays of unequal length, which numpy broadcasts
      or rejects, is outside the model (the shorter length wins).
    - A result buffer has the element type of the initial state and numpy
      converts what is stored in it to that type (an integer buffer
      truncates, a real buffer drops imaginary parts); the model stores a
      row as it is.  The two agree when the state has the element type of
      the values of [R] ([native]: [float64] for binary64 floats,
      [complex128] for pairs of them), and the properties about stored
      values are stated for such states.
    - A user function is a total function of [(y, t)] on [value]s, with a
      name; where an integrator expects an array of some rank, a result of
      any other kind is read as the empty array.
    - The Wiener module ([deltaW] and the repeated-integral routines) and
      scipy's [fsolve] are not part of the integrators; they are taken as
      parameters. *)

From Stdlib Require Import ZArith Lia PrimFloat.
From stdpp Require Import base option list strings pretty.

Set Warnings "-inexact-float".
Open Scope Z_scope.

(** ** Scalars *)

Declare Scope num_scope.
Delimit Scope num_scope with num.

(** Element types of arrays. *)
Inductive dtype : Type :=
| bool_ | int32 | int64 | float32 | float64 | complex64 | complex128.

#[global] Instance dtype_eq_dec : EqDecision dtype.
Proof. solve_decision. Defined.

Class Scalar (R : Type) : Type := {
  native : dtype;                 (* the element type of arrays of these values *)
  r0 : R;
  r1 : R;
  rhalf : R;                      (* the literal 0.5 *)
  radd : R -> R -> R;
  rsub : R -> R -> R;
  rmul : R -> R -> R;
  rdiv : R -> R -> R;
  rsqrt : R -> R;                 (* np.sqrt *)
  rsqabs : R -> R;                (* |x|^2, the summand of la.norm *)
  rof_nat : nat -> R;             (* an int used in float arithmetic *)
  rlt : R -> R -> bool;           (* < as used by min and max *)
  risclose : R -> R -> bool       (* np.isclose with its default tolerances *)
}.

Infix "+" := radd : num_scope.
Infix "-" := rsub : num_scope.
Infix "*" := rmul : num_scope.
Infix "/" := rdiv : num_scope.

(** Scalars that can also hold complex values, as [der] needs. *)
Class ComplexScalar (R : Type) `{SR : Scalar R} : Type := {
  imag_unit : R;                  (* 1j *)
  imag : R -> R                   (* .imag *)
}.

(** ** Exceptions and the computation monad *)

Inductive exn : Type :=
| SDEValueError (msg : string)
| NotImplementedError (msg : string)
| RuntimeError (reason : string)   (* the solver's reason, the last part of the text *)
| TypeError
| ValueError
| IndexError
| AttributeError
| ZeroDivisionError
| AssertionError.

Inductive result (A : Type) : Type :=
| Ok (a : A)
| Raise (e : exn).
Arguments Ok {A} a.
Arguments Raise {A} e.

(** The state is the number of iterations of a time-stepping loop begun so
    far. *)
Definition M (A : Type) : Type := nat -> nat * result A.

Definition ret {A} (a : A) : M A := fun s => (s, Ok a).

Definition bind {A B} (k : A -> M B) (m : M A) : M B :=
  fun s => match m s with
           | (s', Ok a) => k a s'
           | (s', Raise e) => (s', Raise e)
           end.

Definition raise {A} (e : exn) : M A := fun s => (s, Raise e).

Definition tick : M unit := fun s => (S s, Ok tt).

#[global] Instance M_ret : MRet M := @ret.
#[global] Instance M_bind : MBind M := @bind.

(** [for n in ns: s = body(n, s)] *)
Fixpoint for_each {S : Type} (ns : list nat) (body : nat -> S -> M S) (s : S) : M S :=
  match ns with
  | [] => mret s
  | n :: ns' => s' ← body n s; for_each ns' body s'
  end.

(** [range(0, n)] *)
Definition range (n : nat) : list nat := seq 0 n.

(** [a[i] = x] on the first axis, with Python's negative indices. *)
Definition setitem {A} (a : list A) (i : Z) (x : A) : M (list A) :=
  let len := Z.of_nat (length a) in
  if (0 <=? i) && (i <? len) then mret (<[Z.to_nat i := x]> a)
  else if (- len <=? i) && (i <? 0) then mret (<[Z.to_nat (len + i) := x]> a)
  else raise IndexError.

(** ** Arrays *)

Abbreviation vec R := (list R) (only parsing).
Abbreviation mat R := (list (list R)) (only parsing).
Abbreviation ten R := (list (list (list R))) (only parsing).

Section Arrays.
Context {R : Type} `{SR : Scalar R}.

Definition vadd (u v : vec R) : vec R := zip_with radd u v.
Definition vsub (u v : vec R) : vec R := zip_with rsub u v.
(** [v * s], [s * v] and [v / s] for an array [v] and a scalar [s] *)
Definition vmuls (v : vec R) (s : R) : vec R := map (fun x => (x * s)%num) v.
Definition smulv (s : R) (v : vec R) : vec R := map (fun x => (s * x)%num) v.
Definition vdivs (v : vec R) (s : R) : vec R := map (fun x => (x / s)%num) v.

Definition madd (A B : mat R) : mat R := zip_with vadd A B.
Definition msub (A B : mat R) : mat R := zip_with vsub A B.
Definition mmuls (A : mat R) (s : R) : mat R := map (fun r => vmuls r s) A.
Definition mdivs (A : mat R) (s : R) : mat R := map (fun r => vdivs r s) A.

Definition vsum (v : vec R) : R := foldl radd r0 v.
(** [u.dot(v)] of two 1-D arrays *)
Definition vdot (u v : vec R) : R := vsum (zip_with rmul u v).
(** [A.dot(v)] of a 2-D and a 1-D array *)
Definition mdotv (A : mat R) (v : vec R) : vec R := map (fun r => vdot r v) A.

Definition ncols (A : mat R) : nat := length (hd [] A).
(** [A[:,k]] *)
Definition col (k : nat) (A : mat R) : vec R := map (fun r => nth k r r0) A.
(** [A.dot(B)] of two 2-D arrays *)
Definition mdotm (A B : mat R) : mat R :=
  map (fun r => map (fun k => vdot r (col k B)) (range (ncols B))) A.

(** [la.norm(v)] of a 1-D array: the square root of the sum of |x|^2 *)
Definition norm (v : vec R) : R := rsqrt (vsum (map rsqabs v)).

(** [np.zeros((n,))] and [np.zeros((n, d))] *)
Definition zeros1 (n : nat) : vec R := replicate n r0.
Definition zeros2 (n d : nat) : mat R := replicate n (zeros1 d).

(** [np.diff(t)] *)
Fixpoint diff (t : vec R) : vec R :=
  match t with
  | a :: (b :: _) as t' => (b - a)%num :: diff t'
  | _ => []
  end.

(** Python's [min] and [max] of a sequence with first element [x]: the
    running extremum is replaced by an item strictly smaller (larger). *)
Definition py_min (x : R) (l : vec R) : R :=
  foldl (fun cur item => if rlt item cur then item else cur) x l.
Definition py_max (x : R) (l : vec R) : R :=
  foldl (fun cur item => if rlt cur item then item else cur) x l.

(** [a.shape == (r, c)] and [a.shape == (r, c, c')] *)
Definition has_shape2 (r c : nat) (A : mat R) : bool :=
  (length A =? r)%nat && forallb (fun row => (length row =? c)%nat) A.
Definition has_shape3 (r c c' : nat) (T : ten R) : bool :=
  (length T =? r)%nat && forallb (has_shape2 c c') T.

(** [v[ports]] and [A[:,ports]] for a list of indices *)
Definition take_idx (ports : list nat) (v : vec R) : M (vec R) :=
  if forallb (fun p => (p <? length v)%nat) ports
  then mret (map (fun p => nth p v r0) ports)
  else raise IndexError.
Definition take_cols (ports : list nat) (A : mat R) : M (mat R) :=
  if forallb (fun p => (p <? ncols A)%nat) ports
  then mret (map (fun r => map (fun p => nth p r r0) ports) A)
  else raise IndexError.
End Arrays.

(** ** Python values at the interface *)

(** The numeric types a scalar initial state can have. *)
Inductive pytype : Type :=
| py_bool | py_int | py_float | py_complex
| np_int32 | np_int64 | np_float32 | np_float64 | np_complex64 | np_complex128.

(** [isinstance(x, numbers.Integral)] for [x] of the given type *)
Definition is_Integral (ty : pytype) : bool :=
  match ty with
  | py_bool | py_int | np_int32 | np_int64 => true
  | _ => false
  end.

(** [np.dtype(ty)]: the element type numpy uses for values of a type *)
Definition dtype_of_pytype (ty : pytype) : dtype :=
  match ty with
  | py_bool => bool_
  | py_int => int64
  | py_float => float64
  | py_complex => complex128
  | np_int32 => int32
  | np_int64 => int64
  | np_float32 => float32
  | np_float64 => float64
  | np_complex64 => complex64
  | np_complex128 => complex128
  end.

Definition is_complex_dtype (dt : dtype) : bool :=
  match dt with
  | complex64 | complex128 => true
  | _ => false
  end.

(** What a user function receives and returns: a plain number, an array of
    rank 1, 2 or 3, or some other object.  A plain number is a Python
    [float], [int] or [complex]; an entry [y[0]] of an array is handed to a
    function as a plain number too. *)
Inductive value (R : Type) : Type :=
| Num (x : R)
| Arr1 (v : vec R)
| Arr2 (A : mat R)
| Arr3 (T : ten R)
| Obj.
Arguments Num {R} x.
Arguments Arr1 {R} v.
Arguments Arr2 {R} A.
Arguments Arr3 {R} T.
Arguments Obj {R}.

(** A callable of two arguments [(y, t)] with its [__name__]. *)
Record pyfun (R : Type) : Type := PyFun {
  fn_name : string;
  fn_call : value R -> R -> value R
}.
Arguments PyFun {R} fn_name fn_call.
Arguments fn_name {R} p.
Arguments fn_call {R} p y t.

(** The initial state: a plain number of some type, or an array. *)
Inductive y0_arg (R : Type) : Type :=
| Y0Num (ty : pytype) (x : R)
| Y0Arr (dt : dtype) (v : vec R).
Arguments Y0Num {R} ty x.
Arguments Y0Arr {R} dt v.

(** The diffusion: one callable, or a sequence whose entries are callables
    ([Some g]) or not ([None]). *)
Inductive G_arg (R : Type) : Type :=
| GCallable (g : pyfun R)
| GSeq (gs : list (option (pyfun R))).
Arguments GCallable {R} g.
Arguments GSeq {R} gs.

(** The Milstein correction tensor, when one is given (an argument [H] that
    may be absent is an [option (H_arg R)], with [None] for Python's
    [None]): a callable or not. *)
Inductive H_arg (R : Type) : Type :=
| HCallable (h : pyfun R)
| HNotCallable.
Arguments HCallable {R} h.
Arguments HNotCallable {R}.

Section Values.
Context {R : Type} `{SR : Scalar R}.

(** [isinstance(v, numbers.Number)] *)
Definition is_Number (v : value R) : bool :=
  match v with Num _ => true | _ => false end.

(** [v.shape]: a plain number has no such attribute, nor has an object that
    is no array.  ([np.shape] of either is [()], which is the shape of no
    column.) *)
Definition shape (v : value R) : option (list nat) :=
  match v with
  | Num _ => None
  | Arr1 v => Some [length v]
  | Arr2 A => Some [length A; ncols A]
  | Arr3 T => Some [length T; length (hd [] T); ncols (hd [] T)]
  | Obj => None
  end.

(** [len(v)] *)
Definition py_len (v : value R) : M nat :=
  match v with
  | Arr1 v => mret (length v)
  | Arr2 A => mret (length A)
  | Arr3 T => mret (length T)
  | Num _ | Obj => raise TypeError
  end.

(** [v[0]] *)
Definition index0 (v : value R) : value R :=
  match v with
  | Arr1 (x :: _) => Num x
  | Arr2 (r :: _) => Arr1 r
  | Arr3 (A :: _) => Arr2 A
  | _ => Obj
  end.

(** [np.array([v])] *)
Definition array_of_one (v : value R) : value R :=
  match v with
  | Num x => Arr1 [x]
  | Arr1 v => Arr2 [v]
  | Arr2 A => Arr3 [A]
  | _ => Obj
  end.

(** The arrays an integrator computes with; a function that returns
    anything but an array of the expected rank contributes nothing. *)
Definition as_vec (v : value R) : vec R :=
  match v with Arr1 v => v | _ => [] end.
Definition as_mat (v : value R) : mat R :=
  match v with Arr2 A => A | _ => [] end.
Definition as_ten (v : value R) : ten R :=
  match v with Arr3 T => T | _ => [] end.

(** [f(y, t)] for a 1-D array [y] *)
Definition call_vec (f : pyfun R) (y : vec R) (t : R) : vec R :=
  as_vec (fn_call f (Arr1 y) t).
Definition call_mat (g : pyfun R) (y : vec R) (t : R) : mat R :=
  as_mat (fn_call g (Arr1 y) t).
Definition call_ten (h : pyfun R) (y : vec R) (t : R) : ten R :=
  as_ten (fn_call h (Arr1 y) t).

(** [G(y, t)]: only a single callable can be called. *)
Definition call_G (G : G_arg R) (y : vec R) (t : R) : M (mat R) :=
  match G with
  | GCallable g => mret (call_mat g y t)
  | GSeq _ => raise TypeError
  end.

(** [G[k](y, t)]: only a sequence can be indexed. *)
Definition call_Gk (G : G_arg R) (k : nat) (y : vec R) (t : R) : M (vec R) :=
  match G with
  | GCallable _ => raise TypeError
  | GSeq gs =>
      match gs !! k with
      | Some (Some g) => mret (call_vec g y t)
      | Some None => raise TypeError
      | None => raise IndexError
      end
  end.
End Values.

(** ** Validation common to all algorithms: [_check_args] *)

(** A 1-D array together with its element type. *)
Record array1 (R : Type) : Type := Array1 {
  arr_dtype : dtype;
  arr_data : vec R
}.
Arguments Array1 {R} arr_dtype arr_data.
Arguments arr_dtype {R} a.
Arguments arr_data {R} a.

Section CheckArgs.
Context {R : Type} `{SR : Scalar R}.

Definition msg_spacing : string :=
  "Currently time steps must be equally spaced.".
Definition msg_f_shape : string :=
  "y0 and f have incompatible shapes.".
Definition msg_G (d : nat) : string :=
  "y0 has length " +:+ pretty d +:+ ". So G must either be a single function
              returning a matrix of shape (" +:+ pretty d +:+ ", m), or else a list of m separate
              functions each returning a column of G, with shape (" +:+ pretty d +:+ ",)".
Definition msg_dW (m : nat) : string :=
  "From function G, it seems m==" +:+ pretty m +:+ ". If present, the optional
              parameter dW must be an array of shape (len(tspan)-1, m) giving
              m independent Wiener increments for each time interval.".
Definition msg_IJ (m : nat) : string :=
  "From function G, it seems m==" +:+ pretty m +:+ ". If present, the optional
              parameter I or J must be an array of shape (len(tspan)-1, m, m)
              giving an m x m matrix of repeated integral values for each
              time interval.".
Definition msg_H_first (d : nat) : string :=
  "y0 has length " +:+ pretty d +:+ ", but this does not match
                    the first dimension of H(y0, tspan[0]).".
Definition msg_H_last (a b : nat) : string :=
  "The last two dimensions of H should
                    match, but they are " +:+ pretty a +:+ ", " +:+ pretty b.
Definition msg_H_m (d : nat) : string :=
  "The last two dimensions of H match,
                    but are not equal to m==" +:+ pretty d +:+ ", the second dimension of G".
Definition msg_H_callable : string :=
  "Currently H must be callable if used.".

Definition make_vector_fn (fn : pyfun R) : pyfun R :=
  {| fn_name := fn_name fn;
     fn_call := fun y t => array_of_one (fn_call fn (index0 y) t) |}.

Definition make_matrix_fn (fn : pyfun R) : pyfun R :=
  {| fn_name := fn_name fn;
     fn_call := fun y t => array_of_one (array_of_one (fn_call fn (index0 y) t)) |}.

(** The element type chosen for a scalar initial state. *)
Definition scalar_numtype (ty : pytype) : dtype :=
  if is_Integral ty then float64 else dtype_of_pytype ty.

(** The first check: the time steps are equally spaced. *)
Definition check_spacing (tspan : vec R) : M unit :=
  match diff tspan with
  | [] => raise ValueError            (* min() of an empty sequence *)
  | x :: l =>
      if negb (risclose (py_min x l) (py_max x l))
      then raise (SDEValueError msg_spacing)
      else mret tt
  end.

(** Scalar equations are converted to a 1-D vector system. *)
Definition promote_scalar (f : pyfun R) (G : G_arg R) (y0 : y0_arg R) (t0 : R)
  : M (pyfun R * G_arg R * array1 R) :=
  match y0 with
  | Y0Num ty y0_orig =>
      let numtype := scalar_numtype ty in
      let y0 := Array1 numtype [y0_orig] in
      let f := if is_Number (fn_call f (Num y0_orig) t0)
               then make_vector_fn f else f in
      match G with
      | GCallable g =>
          let G := if is_Number (fn_call g (Num y0_orig) t0)
                   then GCallable (make_matrix_fn g) else G in
          mret (f, G, y0)
      | GSeq _ => raise TypeError     (* a list is called as G(y0_orig, t0) *)
      end
  | Y0Arr dt v => mret (f, G, Array1 dt v)
  end.

(** [v.shape[i]] *)
Definition shape_at (v : value R) (i : nat) : M nat :=
  match shape v with
  | None => raise AttributeError
  | Some sh =>
      match sh !! i with
      | Some n => mret n
      | None => raise IndexError
      end
  end.

(** The loop over the column functions [g_k]. *)
Fixpoint check_columns (d : nat) (y0 : vec R) (t0 : R)
    (gs : list (option (pyfun R))) : M unit :=
  match gs with
  | [] => mret tt
  | None :: _ => raise (SDEValueError (msg_G d))
  | Some g :: gs' =>
      if bool_decide (shape (fn_call g (Arr1 y0) t0) = Some [d])
      then check_columns d y0 t0 gs'
      else raise (SDEValueError (msg_G d))
  end.

(** Validates [G] and finds the number [m] of Wiener processes. *)
Definition check_G (d : nat) (G : G_arg R) (y0 : vec R) (t0 : R) : M nat :=
  match G with
  | GCallable g =>
      (* then G must be a function returning a d x m matrix *)
      let Gtest := fn_call g (Arr1 y0) t0 in
      match shape Gtest with
      | None => raise AttributeError
      | Some [r; c] =>
          if negb (r =? d)%nat then raise (SDEValueError (msg_G d))
          else mret c
      | Some _ => raise (SDEValueError (msg_G d))
      end
  | GSeq gs =>
      (* G should be a list of m functions g_i giving columns of G *)
      check_columns d y0 t0 gs;; mret (length gs)
  end.

Definition check_dW (N m : nat) (dW : option (value R)) : M unit :=
  match dW with
  | Some a =>
      if bool_decide (shape a = Some [(N - 1)%nat; m]) then mret tt
      else raise (SDEValueError (msg_dW m))
  | None => mret tt
  end.

Definition check_IJ (N m : nat) (IJ : option (value R)) : M unit :=
  match IJ with
  | Some a =>
      if bool_decide (shape a = Some [(N - 1)%nat; m; m]) then mret tt
      else raise (SDEValueError (msg_IJ m))
  | None => mret tt
  end.

Definition check_H (d m : nat) (H : option (H_arg R)) (y0 : vec R) (t0 : R)
  : M unit :=
  match H with
  | Some (HCallable h) =>
      (* then H must be a function returning a d x m x m tensor *)
      let Htest := fn_call h (Arr1 y0) t0 in
      s0 ← shape_at Htest 0;
      if negb (s0 =? d)%nat then raise (SDEValueError (msg_H_first d)) else
      s1 ← shape_at Htest 1;
      s2 ← shape_at Htest 2;
      if negb (s1 =? s2)%nat then raise (SDEValueError (msg_H_last s1 s2)) else
      if negb (s1 =? m)%nat then raise (SDEValueError (msg_H_m d)) else
      mret tt
  | Some HNotCallable => raise (NotImplementedError msg_H_callable)
  | None => mret tt
  end.

Definition _check_args (f : pyfun R) (G : G_arg R) (y0 : y0_arg R)
    (tspan : vec R) (dW IJ : option (value R)) (H : option (H_arg R))
  : M (nat * nat * pyfun R * G_arg R * array1 R * vec R
       * option (value R) * option (value R)) :=
  check_spacing tspan;;
  let t0 := nth 0 tspan r0 in
  '(f, G, y0) ← promote_scalar f G y0 t0;
  (* determine dimension d of the system *)
  let d := length (arr_data y0) in
  lf ← py_len (fn_call f (Arr1 (arr_data y0)) t0);
  if negb (lf =? d)%nat then raise (SDEValueError msg_f_shape) else
  m ← check_G d G (arr_data y0) t0;
  check_dW (length tspan) m dW;;
  check_IJ (length tspan) m IJ;;
  check_H d m H (arr_data y0) t0;;
  mret (d, m, f, G, y0, tspan, dW, IJ).
End CheckArgs.

(** ** The integrators *)

(** What an integrator returns: the dictionary with the key ["trajectory"]
    and, for some integrators, the key ["norms"]. *)
Record output (R : Type) : Type := Output {
  trajectory : mat R;
  norms : option (vec R)
}.
Arguments Output {R} trajectory norms.
Arguments trajectory {R} o.
Arguments norms {R} o.

(** [int((n-1)/downsample)+1], the row a retained step is written to *)
Definition record_index (n downsample : nat) : Z :=
  Z.quot (Z.of_nat n - 1) (Z.of_nat downsample) + 1.

(** [N_record = int((N-1)/downsample)+1] *)
Definition n_record (N downsample : nat) : M nat :=
  if (downsample =? 0)%nat then raise ZeroDivisionError
  else mret (Z.to_nat (Z.quot (Z.of_nat N - 1) (Z.of_nat downsample) + 1)).

(** [n % downsample == 0] *)
Definition retained (n downsample : nat) : bool :=
  (n mod downsample =? 0)%nat.

Section Integrators.
Context {R : Type} `{SR : Scalar R}.

(** [deltaW(N, m, h)] of the Wiener module: the increments it generates. *)
Variable deltaW : nat -> nat -> R -> mat R.

(** [h = (tspan[N-1] - tspan[0])/(N - 1)] *)
Definition step_size (tspan : vec R) : R :=
  let N := length tspan in
  ((nth (N - 1) tspan r0 - nth 0 tspan r0) / rof_nat (N - 1))%num.

(** The increments used: the caller's, or pre-generated ones. *)
Definition get_dW (dW : option (value R)) (N m : nat) (h : R) : mat R :=
  match dW with
  | None => deltaW (N - 1) m h
  | Some a => as_mat a
  end.

(** [y /= la.norm(y)] when [normalized] *)
Definition normalize_if (normalized : bool) (y : vec R) : vec R :=
  if normalized then vdivs y (norm y) else y.

(** [type(y0[0])], the element type of the result buffers: an empty state
    has no first entry. *)
Definition first_entry_type (y0 : array1 R) : M dtype :=
  match arr_data y0 with
  | [] => raise IndexError
  | _ :: _ => mret (arr_dtype y0)
  end.

(** [if n % downsample == 0: a[int((n-1)/downsample)+1] = x] *)
Definition record {A} (n downsample : nat) (a : list A) (x : A) : M (list A) :=
  if retained n downsample then setitem a (record_index n downsample) x
  else mret a.

(** *** Euler-Maruyama *)

Definition itoEuler_body (f : pyfun R) (G : G_arg R) (tspan : vec R)
    (dW : mat R) (h : R) (normalized : bool) (downsample : nat)
    (n : nat) (st : mat R * vec R) : M (mat R * vec R) :=
  let '(y, y_next) := st in
  tick;;
  let tn := nth n tspan r0 in
  let yn := y_next in
  let dWn := nth n dW [] in
  Gn ← call_G G yn tn;
  let y_next := vadd (vadd yn (vmuls (call_vec f yn tn) h)) (mdotv Gn dWn) in
  let y_next := normalize_if normalized y_next in
  y ← record n downsample y y_next;
  mret (y, y_next).

Definition itoEuler (f : pyfun R) (G : G_arg R) (y0 : y0_arg R) (tspan : vec R)
    (dW : option (value R)) (normalized : bool) (downsample : nat)
  : M (output R) :=
  '(d, m, f, G, y0, tspan, dW, _) ← _check_args f G y0 tspan dW None None;
  let N := length tspan in
  N_record ← n_record N downsample;
  let h := step_size tspan in
  (* allocate space for result *)
  first_entry_type y0;;
  let y := zeros2 N_record d in
  let dW := get_dW dW N m h in
  y ← setitem y 0 (arr_data y0);
  let y_next := nth 0 y [] in
  '(y, _) ← for_each (range (N - 1))
              (itoEuler_body f G tspan dW h normalized downsample) (y, y_next);
  mret (Output y None).

(** *** Implicit Euler-Maruyama *)

Definition implicit_step (f : pyfun R) (G : G_arg R) (h : R)
    (normalized : bool) (downsample : nat) (implicit_type : string)
    (n : nat) (norms : vec R)
    (yn y_next : vec R) (tn : R) (dWn : vec R) : M (vec R * vec R) :=
  y_next ←
    (if bool_decide (implicit_type = "implicit") then
       Gv ← call_G G y_next tn;
       mret (vadd (vadd yn (vmuls (call_vec f y_next tn) h)) (mdotv Gv dWn))
     else if bool_decide (implicit_type = "semi_implicit_drift") then
       Gv ← call_G G yn tn;
       mret (vadd (vadd yn (vmuls (call_vec f y_next tn) h)) (mdotv Gv dWn))
     else
       Gv ← call_G G y_next tn;
       mret (vadd (vadd yn (vmuls (call_vec f yn tn) h)) (mdotv Gv dWn)));
  let norm_next := norm y_next in
  norms ← record n downsample norms norm_next;
  let y_next := if normalized then vdivs y_next norm_next else y_next in
  mret (norms, y_next).

Definition itoImplicitEuler_body (f : pyfun R) (G : G_arg R) (tspan : vec R)
    (dW : mat R) (h : R) (normalized : bool) (downsample : nat)
    (implicit_type : string)
    (n : nat) (st : mat R * vec R * vec R) : M (mat R * vec R * vec R) :=
  let '(y, norms, y_next) := st in
  tick;;
  let tn := nth n tspan r0 in
  let yn := y_next in
  let dWn := nth n dW [] in
  (* initial approximation using explicit step *)
  '(norms, y_next) ← implicit_step f G h normalized downsample implicit_type
                       n norms yn yn tn dWn;
  (* updated approximation using implicit step *)
  '(norms, y_next) ← for_each (range 2)
      (fun _ '(norms, y_next) =>
         implicit_step f G h normalized downsample implicit_type
           n norms yn y_next tn dWn)
      (norms, y_next);
  y ← record n downsample y y_next;
  mret (y, norms, y_next).

Definition implicit_types : list string :=
  ["implicit"; "semi_implicit_drift"; "semi_implicit_diffusion"].

Definition itoImplicitEuler (f : pyfun R) (G : G_arg R) (y0 : y0_arg R)
    (tspan : vec R) (dW : option (value R)) (normalized : bool)
    (downsample : nat) (implicit_type : string) : M (output R) :=
  '(d, m, f, G, y0, tspan, dW, _) ← _check_args f G y0 tspan dW None None;
  (if bool_decide (implicit_type ∈ implicit_types) then mret tt
   else raise AssertionError);;
  let N := length tspan in
  N_record ← n_record N downsample;
  let h := step_size tspan in
  (* allocate space for result *)
  first_entry_type y0;;
  let y := zeros2 N_record d in
  let norms := zeros1 N_record in
  let dW := get_dW dW N m h in
  y ← setitem y 0 (arr_data y0);
  let y_next := nth 0 y [] in
  '(y, norms, _) ← for_each (range (N - 1))
      (itoImplicitEuler_body f G tspan dW h normalized downsample implicit_type)
      (y, norms, y_next);
  mret (Output y (Some norms)).

(** *** Quasi-implicit Euler-Maruyama over selected ports *)

(** [[i for i in range(m) if i not in implicit_ports]]: the membership test
    is evaluated for each [i], and fails on [None]. *)
Fixpoint ports_not_in (idxs : list nat) (implicit_ports : option (list nat))
  : M (list nat) :=
  match idxs with
  | [] => mret []
  | i :: idxs' =>
      match implicit_ports with
      | None => raise TypeError
      | Some ps =>
          rest ← ports_not_in idxs' implicit_ports;
          mret (if bool_decide (i ∈ ps) then rest else i :: rest)
      end
  end.

Definition itoQuasiImplicitEuler_body (f : pyfun R) (G : G_arg R)
    (tspan : vec R) (dW : mat R) (h : R) (normalized : bool)
    (downsample : nat) (explicit_ports implicit_ports : list nat)
    (n : nat) (st : mat R * vec R * vec R) : M (mat R * vec R * vec R) :=
  let '(y, norms, y_next) := st in
  tick;;
  let tn := nth n tspan r0 in
  let yn := y_next in
  let dWn := nth n dW [] in
  let fn := call_vec f yn tn in
  Gn ← call_G G yn tn;
  Ge ← take_cols explicit_ports Gn;
  Gi ← take_cols implicit_ports Gn;
  dWn_explicit ← take_idx explicit_ports dWn;
  dWn_implicit ← take_idx implicit_ports dWn;
  let GedWn := mdotv Ge dWn_explicit in
  let GidWn := mdotv Gi dWn_implicit in
  (* explicit approximation neglecting all noise *)
  let y_explicit_noise := vadd (vadd yn (vmuls fn h)) GedWn in
  (* initial approximation using explicit step *)
  let y_tilde := vadd y_explicit_noise GidWn in
  let y_tilde := normalize_if normalized y_tilde in
  (* updated approximation using implicit step on selected noise terms *)
  Gt ← call_G G y_tilde (tn + h)%num;
  Gti ← take_cols implicit_ports Gt;
  let y_next := vadd y_explicit_noise (mdotv Gti dWn_implicit) in
  let norm_next := norm y_next in
  norms ← record n downsample norms norm_next;
  let y_next := if normalized then vdivs y_next norm_next else y_next in
  y ← record n downsample y y_next;
  mret (y, norms, y_next).

Definition itoQuasiImplicitEuler (f : pyfun R) (G : G_arg R) (y0 : y0_arg R)
    (tspan : vec R) (dW : option (value R)) (normalized : bool)
    (downsample : nat) (implicit_ports : option (list nat)) : M (output R) :=
  '(d, m, f, G, y0, tspan, dW, _) ← _check_args f G y0 tspan dW None None;
  explicit_ports ← ports_not_in (range m) implicit_ports;
  let implicit_ports := match implicit_ports with
                        | None => []
                        | Some ps => ps
                        end in
  let N := length tspan in
  N_record ← n_record N downsample;
  let h := step_size tspan in
  (* allocate space for result *)
  first_entry_type y0;;
  let y := zeros2 N_record d in
  let norms := zeros1 N_record in
  let dW := get_dW dW N m h in
  y ← setitem y 0 (arr_data y0);
  let y_next := nth 0 y [] in
  '(y, norms, _) ← for_each (range (N - 1))
      (itoQuasiImplicitEuler_body f G tspan dW h normalized downsample
         explicit_ports implicit_ports)
      (y, norms, y_next);
  mret (Output y (Some norms)).

(** *** Milstein *)

(** [H(y, t)]: only a callable can be called, [None] cannot. *)
Definition call_H (H : option (H_arg R)) (y : vec R) (t : R) : M (ten R) :=
  match H with
  | Some (HCallable h) => mret (call_ten h y t)
  | Some HNotCallable | None => raise TypeError
  end.

(** The repeated integrals used: the caller's, or pre-generated ones by
    [Imethod(dW, h)], which returns the pair [(dW, I)]. *)
Definition get_IJ (IJ : option (value R)) (IJmethod : mat R -> R -> mat R * ten R)
    (dW : mat R) (h : R) : ten R :=
  match IJ with
  | None => snd (IJmethod dW h)
  | Some a => as_ten a
  end.

Definition itoMilstein_body (f : pyfun R) (G : G_arg R) (H : option (H_arg R))
    (tspan : vec R) (dW : mat R) (I : ten R) (h : R) (normalized : bool)
    (downsample : nat)
    (n : nat) (st : mat R * vec R) : M (mat R * vec R) :=
  let '(y, y_next) := st in
  tick;;
  let tn := nth n tspan r0 in
  let yn := y_next in
  let dWn := nth n dW [] in
  let Iij := nth n I [] in
  let fn := call_vec f yn tn in
  Gn ← call_G G yn tn;
  Hn ← call_H H yn tn;
  (* Hn.reshape(d, m**2) and Iij.ravel() *)
  let y_next := vadd (vadd (vadd yn (vmuls fn h)) (mdotv Gn dWn))
                     (mdotv (map (fun Hi => concat Hi) Hn) (concat Iij)) in
  let y_next := normalize_if normalized y_next in
  y ← record n downsample y y_next;
  mret (y, y_next).

Definition itoMilstein (f : pyfun R) (G : G_arg R) (H : option (H_arg R))
    (y0 : y0_arg R) (tspan : vec R) (Imethod : mat R -> R -> mat R * ten R)
    (dW I : option (value R)) (normalized : bool) (downsample : nat)
  : M (output R) :=
  '(d, m, f, G, y0, tspan, dW, I) ← _check_args f G y0 tspan dW I H;
  let N := length tspan in
  N_record ← n_record N downsample;
  let h := step_size tspan in
  (* allocate space for result *)
  first_entry_type y0;;
  let y := zeros2 N_record d in
  let dW := get_dW dW N m h in
  let I := get_IJ I Imethod dW h in
  y ← setitem y 0 (arr_data y0);
  let y_next := nth 0 y [] in
  '(y, _) ← for_each (range (N - 1))
              (itoMilstein_body f G H tspan dW I h normalized downsample)
              (y, y_next);
  mret (Output y None).

(** *** Stratonovich Heun *)

Definition stratHeun_body (f : pyfun R) (G : G_arg R) (tspan : vec R)
    (dW : mat R) (h : R) (normalized : bool)
    (n : nat) (y : mat R) : M (mat R) :=
  tick;;
  let tn := nth n tspan r0 in
  let tnp1 := nth (n + 1) tspan r0 in
  let yn := nth n y [] in
  let dWn := nth n dW [] in
  let fn := call_vec f yn tn in
  Gn ← call_G G yn tn;
  let ybar := vadd (vadd yn (vmuls fn h)) (mdotv Gn dWn) in
  let fnbar := call_vec f ybar tnp1 in
  Gnbar ← call_G G ybar tnp1;
  y ← setitem y (Z.of_nat n + 1)
        (vadd (vadd yn (vmuls (smulv rhalf (vadd fn fnbar)) h))
              (smulv rhalf (mdotv (madd Gn Gnbar) dWn)));
  if normalized then
    let ynp1 := nth (n + 1) y [] in
    setitem y (Z.of_nat n + 1) (vdivs ynp1 (norm ynp1))
  else mret y.

Definition stratHeun (f : pyfun R) (G : G_arg R) (y0 : y0_arg R)
    (tspan : vec R) (dW : option (value R)) (normalized : bool)
  : M (output R) :=
  '(d, m, f, G, y0, tspan, dW, _) ← _check_args f G y0 tspan dW None None;
  let N := length tspan in
  let h := step_size tspan in
  (* allocate space for result *)
  first_entry_type y0;;
  let y := zeros2 N d in
  let dW := get_dW dW N m h in
  y ← setitem y 0 (arr_data y0);
  y ← for_each (range (N - 1)) (stratHeun_body f G tspan dW h normalized) y;
  mret (Output y None).

(** *** Milstein with a numerically generated correction tensor *)

Section Numerical.
Context `{CS : !ComplexScalar R}.

(** [der(G, y, i, t, eps)] for the matrix-valued [G]: the state is made
    complex, [1j*eps] is added to its entry [i], and the imaginary part
    of the result is divided by [eps]. *)
Definition der (g : pyfun R) (y : vec R) (i : nat) (t eps : R) : mat R :=
  let y := alter (fun yi => (yi + imag_unit * eps)%num) i y in
  mdivs (map (fun r => map imag r) (call_mat g y t)) eps.

(** [np.tensordot(A, DG, axes=([0,0]))]: entry [a, b, c] is the sum over
    [i] of [A[i,a] * DG[i,b,c]]. *)
Definition tensordot00 (A : mat R) (DG : ten R) : ten R :=
  map (fun a =>
    map (fun b =>
      map (fun c =>
        vsum (zip_with (fun Ai DGi => (nth a Ai r0 * nth c (nth b DGi []) r0)%num)
                       A DG))
        (range (ncols (hd [] DG))))
      (range (length (hd [] DG))))
    (range (ncols A)).

(** [np.swapaxes(T, 0, 1)] *)
Definition swapaxes01 (T : ten R) : ten R :=
  map (fun b => map (fun Ta => nth b Ta []) T) (range (length (hd [] T))).

Definition gen_H_numerical (g : pyfun R) (eps : R) : pyfun R :=
  {| fn_name := "H_num";
     fn_call := fun y t =>
       match y with
       | Arr1 y =>
           let DG := map (fun i => der g y i t eps) (range (length y)) in
           Arr3 (swapaxes01 (tensordot00 (call_mat g y t) DG))
       | _ => Obj
       end |}.

(** With [G] a sequence of column functions, [H_num] calls a tuple: the
    first evaluation of [H], in the validation of [itoMilstein], raises
    (for [d = 0] it is [np.stack] of an empty list that raises). *)
Definition numItoMilstein (f : pyfun R) (G : G_arg R) (y0 : y0_arg R)
    (tspan : vec R) (Imethod : mat R -> R -> mat R * ten R)
    (dW I : option (value R)) (normalized : bool) (downsample : nat)
    (eps : R) : M (output R) :=
  '(d, m, f, G, y0, tspan, dW, I) ← _check_args f G y0 tspan dW I None;
  match G with
  | GCallable g =>
      let H := Some (HCallable (gen_H_numerical g eps)) in
      itoMilstein f G H (Y0Arr (arr_dtype y0) (arr_data y0)) tspan Imethod
        dW I normalized downsample
  | GSeq _ => raise (if (d =? 0)%nat then ValueError else TypeError)
  end.
End Numerical.

(** *** Roessler's order 1.0 strong stochastic Runge-Kutta schemes *)

(** [A[:,k] = v] *)
Definition set_col (k : nat) (v : vec R) (A : mat R) : mat R :=
  zip_with (fun row x => <[k := x]> row) A v.

(** [not callable(G)] *)
Definition have_separate_g (G : G_arg R) : bool :=
  match G with GCallable _ => false | GSeq _ => true end.

(** [a.reshape((d, 1)) + B] and [a.reshape((d, 1)) - B] *)
Definition col_plus (a : vec R) (B : mat R) : mat R :=
  zip_with (fun x row => map (fun b => (x + b)%num) row) a B.
Definition col_minus (a : vec R) (B : mat R) : mat R :=
  zip_with (fun x row => map (fun b => (x - b)%num) row) a B.

Definition _Roessler2010_SRK2_body (f : pyfun R) (G : G_arg R) (tspan : vec R)
    (dW : mat R) (I : ten R) (m : nat) (normalized : bool) (downsample : nat)
    (n : nat) (st : mat R * vec R * mat R) : M (mat R * vec R * mat R) :=
  let '(y, Yn1, Gn) := st in
  tick;;
  let tn := nth n tspan r0 in
  let tn1 := nth (n + 1) tspan r0 in
  let h := (tn1 - tn)%num in
  let sqrth := rsqrt h in
  let Yn := Yn1 in
  let Ik := nth n dW [] in
  let Iij := nth n I [] in
  let fnh := vmuls (call_vec f Yn tn) h in
  Gn ← (if have_separate_g G then
          for_each (range m)
            (fun k Gn => gk ← call_Gk G k Yn tn; mret (set_col k gk Gn)) Gn
        else call_G G Yn tn);
  let sum1 := mdivs (mdotm Gn Iij) sqrth in
  let H20 := vadd Yn fnh in
  let H2 := col_plus H20 sum1 in
  let H3 := col_minus H20 sum1 in
  let fn1h := vmuls (call_vec f H20 tn1) h in
  let Yn1 := vadd (vadd Yn (smulv rhalf (vadd fnh fn1h))) (mdotv Gn Ik) in
  Yn1 ← (if have_separate_g G then
           for_each (range m)
             (fun k Yn1 =>
                a ← call_Gk G k (col k H2) tn1;
                b ← call_Gk G k (col k H3) tn1;
                mret (vadd Yn1 (smulv (rhalf * sqrth)%num (vsub a b)))) Yn1
         else
           for_each (range m)
             (fun k Yn1 =>
                A ← call_G G (col k H2) tn1;
                B ← call_G G (col k H3) tn1;
                mret (vadd Yn1 (smulv (rhalf * sqrth)%num
                                  (vsub (col k A) (col k B))))) Yn1);
  let Yn1 := normalize_if normalized Yn1 in
  y ← record n downsample y Yn1;
  mret (y, Yn1, Gn).

Definition _Roessler2010_SRK2 (f : pyfun R) (G : G_arg R) (y0 : y0_arg R)
    (tspan : vec R) (IJmethod : mat R -> R -> mat R * ten R)
    (dW IJ : option (value R)) (normalized : bool) (downsample : nat)
  : M (output R) :=
  '(d, m, f, G, y0, tspan, dW, IJ) ← _check_args f G y0 tspan dW IJ None;
  let N := length tspan in
  N_record ← n_record N downsample;
  let h := step_size tspan in
  let dW := get_dW dW N m h in
  let I := get_IJ IJ IJmethod dW h in
  (* allocate space for result *)
  first_entry_type y0;;
  let y := zeros2 N_record d in
  y ← setitem y 0 (arr_data y0);
  let Yn1 := nth 0 y [] in
  let Gn := zeros2 d m in
  '(y, _, _) ← for_each (range (N - 1))
      (_Roessler2010_SRK2_body f G tspan dW I m normalized downsample)
      (y, Yn1, Gn);
  mret (Output y None).

Definition itoSRI2 (f : pyfun R) (G : G_arg R) (y0 : y0_arg R) (tspan : vec R)
    (Imethod : mat R -> R -> mat R * ten R) (dW I : option (value R))
    (normalized : bool) (downsample : nat) : M (output R) :=
  _Roessler2010_SRK2 f G y0 tspan Imethod dW I normalized downsample.

Definition stratSRS2 (f : pyfun R) (G : G_arg R) (y0 : y0_arg R) (tspan : vec R)
    (Jmethod : mat R -> R -> mat R * ten R) (dW J : option (value R))
    (normalized : bool) : M (output R) :=
  _Roessler2010_SRK2 f G y0 tspan Jmethod dW J normalized 1.

(** *** Kloeden and Platen's two-step implicit scheme *)

(** [fsolve(func, x0, xtol=rtol, full_output=True)] of scipy: the solution,
    the status flag and the message. *)
Variable fsolve : (vec R -> vec R) -> vec R -> R -> vec R * Z * string.

Definition vmul (u v : vec R) : vec R := zip_with rmul u v.
(** [1 - v] *)
Definition one_minus (v : vec R) : vec R := map (fun x => (r1 - x)%num) v.

Definition _imp (f : pyfun R) (h : R) (gam al1 al2 : vec R)
    (Ynp1 Yn Ynm1 Vn Vnm1 : vec R) (tnp1 tn tnm1 : R) (fn fnm1 : vec R)
  : vec R :=
  vsub
    (vadd
      (vadd
        (vadd
          (vadd (vmul (one_minus gam) Yn) (vmul gam Ynm1))
          (vmuls
             (vadd
               (vadd (vmul al2 (call_vec f Ynp1 tnp1))
                     (vmul (vadd (vmul gam al1) (one_minus al2)) fn))
               (vmul (vmul gam (one_minus al1)) fnm1))
             h))
        Vn)
      (vmul gam Vnm1))
    Ynp1.

Definition stratKP2iS_body (f : pyfun R) (G : G_arg R) (tspan : vec R)
    (dW : mat R) (J : ten R) (d m : nat) (gam al1 al2 : vec R) (rtol : R)
    (normalized : bool)
    (n : nat) (st : mat R * option (vec R) * option (vec R))
  : M (mat R * option (vec R) * option (vec R)) :=
  let '(y, fn, Vn) := st in
  tick;;
  let tn := nth n tspan r0 in
  let tnp1 := nth (n + 1) tspan r0 in
  let h := (tnp1 - tn)%num in
  let sqrth := rsqrt h in
  let Yn := nth n y [] in
  let Jk := nth n dW [] in
  let Jij := nth n J [] in
  let fnm1 := fn in
  let fn := call_vec f Yn tn in
  Gn ← call_G G Yn tn;
  let Ybar := col_plus (vadd Yn (vmuls fn h)) (mmuls Gn sqrth) in
  sum1 ← for_each (range m)
            (fun j1 sum1 =>
               Gb ← call_G G (col j1 Ybar) tn;
               mret (vadd sum1 (mdotv (msub Gb Gn) (nth j1 Jij []))))
            (zeros1 d);
  let Vnm1 := Vn in
  let Vn := vadd (mdotv Gn Jk) (vdivs sum1 sqrth) in
  if (n =? 0)%nat then
    (* First step uses Kloeden&Platen explicit order 1.0 strong scheme *)
    y ← setitem y (Z.of_nat n + 1) (vadd (vadd Yn (vmuls fn h)) Vn);
    mret (y, Some fn, Some Vn)
  else
    let tnm1 := nth (n - 1) tspan r0 in
    let Ynm1 := nth (n - 1) y [] in
    match fnm1, Vnm1 with
    | Some fnm1, Some Vnm1 =>
        (* now solve _imp(Ynp1, ...) == 0 for Ynp1, near to Yn *)
        let '(Ynp1, status, msg) :=
          fsolve (fun Ynp1 => _imp f h gam al1 al2 Ynp1 Yn Ynm1 Vn Vnm1
                                tnp1 tn tnm1 fn fnm1) Yn rtol in
        if (status =? 1)%Z then
          let Ynp1 := normalize_if normalized Ynp1 in
          y ← setitem y (Z.of_nat n + 1) Ynp1;
          mret (y, Some fn, Some Vn)
        else
          (* the text names the time, the arguments and the reason [msg] *)
          raise (RuntimeError msg)
    | _, _ => raise TypeError
    end.

Definition msg_KP_G : string :=
  "G should be a function returning a d x m matrix.".
Definition msg_KP_complex : string :=
  "stratKP2iS() can't yet handle complex variables.".

(** [np.ones((d,))*0.5] *)
Definition default_weights (d : nat) : vec R :=
  vmuls (replicate d r1) rhalf.

Definition stratKP2iS (f : pyfun R) (G : G_arg R) (y0 : y0_arg R)
    (tspan : vec R) (Jmethod : mat R -> R -> mat R * ten R)
    (gam al1 al2 : option (vec R)) (rtol : R) (dW J : option (value R))
    (normalized : bool) : M (output R) :=
  '(d, m, f, G, y0, tspan, dW, J) ← _check_args f G y0 tspan dW J None;
  (if have_separate_g G then raise (SDEValueError msg_KP_G) else mret tt);;
  (if is_complex_dtype (arr_dtype y0) then raise (SDEValueError msg_KP_complex)
   else mret tt);;
  let gam := default (default_weights d) gam in
  let al1 := default (default_weights d) al1 in
  let al2 := default (default_weights d) al2 in
  let N := length tspan in
  let h := step_size tspan in
  let dW := get_dW dW N m h in
  let J := get_IJ J Jmethod dW h in
  (* allocate space for result *)
  first_entry_type y0;;
  let y := zeros2 N d in
  y ← setitem y 0 (arr_data y0);
  '(y, _, _) ← for_each (range (N - 1))
      (stratKP2iS_body f G tspan dW J d m gam al1 al2 rtol normalized)
      (y, None, None);
  mret (Output y None).

(** *** The default algorithms *)

(** [Ikpw] and [Jkpw] of the Wiener module, the default methods for the
    repeated Ito and Stratonovich integrals. *)
Variable Ikpw : mat R -> R -> mat R * ten R.
Variable Jkpw : mat R -> R -> mat R * ten R.

(** The validated arguments go to [itoSRI2], with its defaults
    [Imethod=Ikpw], [dW=None], [I=None] and [downsample=1]. *)
Definition itoint (f : pyfun R) (G : G_arg R) (y0 : y0_arg R) (tspan : vec R)
    (normalized : bool) : M (output R) :=
  '(d, m, f, G, y0, tspan, _, _) ← _check_args f G y0 tspan None None None;
  let chosenAlgorithm := itoSRI2 in
  chosenAlgorithm f G (Y0Arr (arr_dtype y0) (arr_data y0)) tspan Ikpw
    None None normalized 1%nat.

(** The validated arguments go to [stratSRS2], with its defaults
    [Jmethod=Jkpw], [dW=None] and [J=None]. *)
Definition stratint (f : pyfun R) (G : G_arg R) (y0 : y0_arg R) (tspan : vec R)
    (normalized : bool) : M (output R) :=
  '(d, m, f, G, y0, tspan, _, _) ← _check_args f G y0 tspan None None None;
  let chosenAlgorithm := stratSRS2 in
  chosenAlgorithm f G (Y0Arr (arr_dtype y0) (arr_data y0)) tspan Jkpw
    None None normalized.
End Integrators.

(** ** Binary64 floats as scalars *)

Module Float64.
(** An integer converted to a float (exact below 2^53). *)
Fixpoint of_nat (n : nat) : float :=
  match n with
  | O => 0%float
  | S n' => (of_nat n' + 1)%float
  end.

(** [np.isclose(a, b)]: [|a - b| <= atol + rtol * |b|] with [atol = 1e-8]
    and [rtol = 1e-5] for a finite [b], and equality otherwise. *)
Definition isclose (a b : float) : bool :=
  ((abs (a - b) <=? 1e-8 + 1e-5 * abs b)%float && is_finite b)
  || (a =? b)%float.

#[global] Instance float_scalar : Scalar float := {|
  native := float64;
  r0 := 0%float;
  r1 := 1%float;
  rhalf := 0.5%float;
  radd := PrimFloat.add;
  rsub := PrimFloat.sub;
  rmul := PrimFloat.mul;
  rdiv := PrimFloat.div;
  rsqrt := PrimFloat.sqrt;
  rsqabs := fun x => (x * x)%float;
  rof_nat := of_nat;
  rlt := PrimFloat.ltb;
  risclose := isclose
|}.
End Float64.

(** ** Pairs of binary64 floats as complex scalars

    Sum, difference, product and quotient as numpy computes them on
    [complex128] (the quotient by Smith's method); the modulus and the
    principal square root by their textbook formulas. *)

Module Complex128.
Record complex : Type := Complex { re : float; im : float }.

Definition of_float (x : float) : complex := Complex x 0.

Definition cadd (a b : complex) : complex :=
  Complex (re a + re b) (im a + im b).
Definition csub (a b : complex) : complex :=
  Complex (re a - re b) (im a - im b).
Definition cmul (a b : complex) : complex :=
  Complex (re a * re b - im a * im b) (re a * im b + im a * re b).
Definition cdiv (a b : complex) : complex :=
  if (abs (im b) <=? abs (re b))%float then
    if (abs (re b) =? 0)%float && (abs (im b) =? 0)%float then
      Complex (re a / abs (re b)) (im a / abs (re b))
    else
      let rat := (im b / re b)%float in
      let scl := (1 / (re b + im b * rat))%float in
      Complex ((re a + im a * rat) * scl) ((im a - re a * rat) * scl)
  else
    let rat := (re b / im b)%float in
    let scl := (1 / (im b + re b * rat))%float in
    Complex ((re a * rat + im a) * scl) ((im a * rat - re a) * scl).

Definition modulus (a : complex) : float :=
  sqrt (re a * re a + im a * im a).
Definition csqrt (a : complex) : complex :=
  let r := modulus a in
  let x := sqrt ((r + re a) / 2) in
  let y := sqrt ((r - re a) / 2) in
  Complex x (if (im a <? 0)%float then - y else y).

Definition clt (a b : complex) : bool :=
  (re a <? re b)%float || ((re a =? re b)%float && (im a <? im b)%float).
Definition isclose (a b : complex) : bool :=
  ((modulus (csub a b) <=? 1e-8 + 1e-5 * modulus b)%float
   && is_finite (re b) && is_finite (im b))
  || ((re a =? re b)%float && (im a =? im b)%float).

#[global] Instance complex_scalar : Scalar complex := {|
  native := complex128;
  r0 := of_float 0;
  r1 := of_float 1;
  rhalf := of_float 0.5;
  radd := cadd;
  rsub := csub;
  rmul := cmul;
  rdiv := cdiv;
  rsqrt := csqrt;
  rsqabs := fun a => of_float (re a * re a + im a * im a);
  rof_nat := fun n => of_float (Float64.of_nat n);
  rlt := clt;
  risclose := isclose
|}.

#[global] Instance complex_complex : ComplexScalar complex := {|
  imag_unit := Complex 0 1;
  imag := fun a => of_float (im a)
|}.
End Complex128.

(** ** A scalar system used in the concrete runs

    [dy = 1 dt + 0 dW] with unit steps: the exact states are
    [y(t_n) = y0 + n], so the value of a row tells which grid point it holds. *)

Module Example.
Import Float64.

Definition drift_one : pyfun float :=
  PyFun "f" (fun _ _ => Arr1 [1%float]).
Definition drift_zero : pyfun float :=
  PyFun "f" (fun _ _ => Arr1 [0%float]).
Definition no_noise : pyfun float :=
  PyFun "G" (fun _ _ => Arr2 [[0%float]]).
Definition no_noise_column : pyfun float :=
  PyFun "g0" (fun _ _ => Arr1 [0%float]).

(** A Wiener module that is never consulted (the increments are supplied). *)
Definition no_deltaW : nat -> nat -> float -> mat float := fun _ _ _ => [].
Definition no_IJmethod : mat float -> float -> mat float * ten float :=
  fun dW _ => (dW, []).
(** A solver that always reports failure. *)
Definition no_fsolve : (vec float -> vec float) -> vec float -> float
                       -> vec float * Z * string :=
  fun _ x0 _ => (x0, 5, "not called").

(** Zero increments for [n] steps of one Wiener process. *)
Definition zero_dW (n : nat) : value float := Arr2 (replicate n [0%float]).
Definition zero_IJ (n : nat) : value float := Arr3 (replicate n [[0%float]]).
(** The grid [0, 1, ..., n-1]. *)
Definition grid (n : nat) : vec float := map of_nat (seq 0 n).
(** A solver that accepts its initial guess. *)
Definition accept_guess : (vec float -> vec float) -> vec float -> float
                          -> vec float * Z * string :=
  fun _ x0 _ => (x0, 1, "The solution converged.").

(** The scalar equation [dy = -y dt + 0.5 y dW]. *)
Definition scalar_drift : pyfun float :=
  PyFun "f" (fun y _ => match y with
                        | Num x => Num (0 - x)%float
                        | _ => Obj
                        end).
Definition scalar_noise : pyfun float :=
  PyFun "G" (fun y _ => match y with
                        | Num x => Num (0.5 * x)%float
                        | _ => Obj
                        end).

(** The linear system [dy = -y dt + 0.5 y dW] of dimension one, with its
    diffusion as a matrix function and as one column function. *)
Definition linear_drift : pyfun float :=
  PyFun "f" (fun y _ => Arr1 (map (fun x => (0 - x)%float) (as_vec y))).
Definition linear_noise : pyfun float :=
  PyFun "G" (fun y _ => Arr2 (map (fun x => [(0.5 * x)%float]) (as_vec y))).
Definition linear_noise_column : pyfun float :=
  PyFun "g0" (fun y _ => Arr1 (map (fun x => (0.5 * x)%float) (as_vec y))).
End Example.

(** ** A system on complex scalars

    [dy = dt + dW], with a grid whose steps are equal and one whose steps
    are not. *)

Module ComplexExample.
Import Complex128.

Definition unit_drift : pyfun complex :=
  PyFun "f" (fun _ _ => Arr1 [of_float 1]).
Definition unit_noise : pyfun complex :=
  PyFun "G" (fun _ _ => Arr2 [[of_float 1]]).
Definition even_grid : vec complex := [of_float 0; of_float 1; of_float 2].
Definition uneven_grid : vec complex := [of_float 0; of_float 1; of_float 3].
Definition never_deltaW : nat -> nat -> complex -> mat complex :=
  fun _ _ _ => [].
Definition never_IJmethod : mat complex -> complex -> mat complex * ten complex :=
  fun dW _ => (dW, []).
Definition never_fsolve : (vec complex -> vec complex) -> vec complex -> complex
                          -> vec complex * Z * string :=
  fun _ x0 _ => (x0, 5, "not called").
End ComplexExample.

(** ** Functions of various shapes, on complex scalars *)

Module ShapeExamples.
Import Complex128.

(** A drift with two entries, for a state with one. *)
Definition long_drift : pyfun complex :=
  PyFun "f" (fun _ _ => Arr1 [of_float 1; of_float 1]).
(** A diffusion that returns a vector. *)
Definition flat_noise : pyfun complex :=
  PyFun "G" (fun _ _ => Arr1 [of_float 1]).
(** A tensor function of shape [(1, 2, 2)], and one of shape [(1, 1, 1)]. *)
Definition wide_tensor : pyfun complex :=
  PyFun "H" (fun _ _ => Arr3 [[[of_float 0; of_float 0];
                               [of_float 0; of_float 0]]]).
Definition zero_tensor : pyfun complex :=
  PyFun "H" (fun _ _ => Arr3 [[[of_float 0]]]).
End ShapeExamples.

(** ** A Wiener module without noise *)

Module ZeroWiener.
Import Float64.

End ZeroWiener.

(** * Notions the properties are stated with *)

(** A computation that begins no step: it leaves the step counter alone and
    its outcome does not depend on it. *)
Definition stateless {A} (m : M A) : Prop :=
  exists r, forall s, m s = (s, r).

(** A computation that raises [e] before any step of a recurrence. *)
Definition raises_at_entry {A} (m : M A) (e : exn) : Prop :=
  forall s, m s = (s, Raise e).

(** The three variants and the values of [implicit_type] that select them. *)
Inductive mode : Type := Implicit | SemiImplicitDrift | SemiImplicitDiffusion.

Definition mode_name (md : mode) : string :=
  match md with
  | Implicit => "implicit"
  | SemiImplicitDrift => "semi_implicit_drift"
  | SemiImplicitDiffusion => "semi_implicit_diffusion"
  end.

(** The rows no step writes to when [1 < k <= N-1]: the first, and the
    rows [i >= 2] with [i k >= N-1]. *)
Definition unwritten (N1 k i : nat) : Prop :=
  i = 0%nat \/ (2 <= i /\ N1 <= i * k)%nat.

(** The row a retained step is written to, as a position in the buffer. *)
Definition row_of (n k : nat) : nat := Z.to_nat (record_index n k).

(** Step [n] of a run of [N1] steps is retained and no later step of the
    run is written to its row. *)
Definition keeps_row (N1 k n : nat) : Prop :=
  (n < N1)%nat /\ retained n k = true
  /\ forall n', (n < n' < N1)%nat -> retained n' k = true ->
       record_index n' k <> record_index n k.

Section Notions.
Context {R : Type} `{SR : Scalar R}.

(** The checks a successful validation has passed, in their order. *)
Record validated (f : pyfun R) (G : G_arg R) (y0 : y0_arg R) (tspan : vec R)
    (dW IJ : option (value R)) (H : option (H_arg R))
    (d m : nat) (f' : pyfun R) (G' : G_arg R) (y0' : array1 R) (s : nat)
  : Prop := Validated {
  v_spacing : check_spacing tspan s = (s, Ok tt);
  v_promote : promote_scalar f G y0 (nth 0 tspan r0) s = (s, Ok (f', G', y0'));
  v_d : d = length (arr_data y0');
  v_f : py_len (fn_call f' (Arr1 (arr_data y0')) (nth 0 tspan r0)) s = (s, Ok d);
  v_G : check_G d G' (arr_data y0') (nth 0 tspan r0) s = (s, Ok m);
  v_dW : check_dW (length tspan) m dW s = (s, Ok tt);
  v_IJ : check_IJ (length tspan) m IJ s = (s, Ok tt);
  v_H : check_H d m H (arr_data y0') (nth 0 tspan r0) s = (s, Ok tt)
}.

(** The outcome of [record], which begins no step. *)
Definition record_outcome {A} (n k : nat) (a : list A) (x : A) : result (list A) :=
  let len := Z.of_nat (length a) in
  let i := record_index n k in
  if retained n k then
    if (0 <=? i) && (i <? len) then Ok (<[Z.to_nat i := x]> a)
    else if (- len <=? i) && (i <? 0) then Ok (<[Z.to_nat (len + i) := x]> a)
    else Raise IndexError
  else Ok a.

(** The step map of the specification:
    [Phi(z) = y_n + f(z,t_n) h + G(z,t_n) dW_n] in the implicit mode, with
    the diffusion taken at [y_n] in the semi-implicit-drift mode and the
    drift taken at [y_n] in the semi-implicit-diffusion mode. *)
Definition Phi (md : mode) (f g : pyfun R) (h : R) (yn : vec R) (tn : R)
    (dWn : vec R) (z : vec R) : vec R :=
  match md with
  | Implicit =>
      vadd (vadd yn (vmuls (call_vec f z tn) h)) (mdotv (call_mat g z tn) dWn)
  | SemiImplicitDrift =>
      vadd (vadd yn (vmuls (call_vec f z tn) h)) (mdotv (call_mat g yn tn) dWn)
  | SemiImplicitDiffusion =>
      vadd (vadd yn (vmuls (call_vec f yn tn) h)) (mdotv (call_mat g z tn) dWn)
  end.

(** The update of the Euler-Maruyama step [n]. *)
Definition euler_update (f g : pyfun R) (tspan : vec R) (dW : mat R) (h : R)
    (normalized : bool) (n : nat) (yn : vec R) : vec R :=
  normalize_if normalized
    (vadd (vadd yn (vmuls (call_vec f yn (nth n tspan r0)) h))
          (mdotv (call_mat g yn (nth n tspan r0)) (nth n dW []))).

(** [v / ||v||] *)
Definition unit_vector (v : vec R) : vec R := vdivs v (norm v).

(** The states of the specification without normalization: [y_0] is the
    initial state and [y_{n+1} = Phi (Phi (Phi y_n))], with the step map of
    step [n]. *)
Fixpoint three_pass_state (md : mode) (f g : pyfun R) (tspan : vec R)
    (dW : mat R) (h : R) (y0 : vec R) (n : nat) : vec R :=
  match n with
  | O => y0
  | S n' =>
      let yn := three_pass_state md f g tspan dW h y0 n' in
      let P := Phi md f g h yn (nth n' tspan r0) (nth n' dW []) in
      P (P (P yn))
  end.

(** The states with the projection in every pass: [y_{n+1} = N (N (N y_n))]
    with [N z = Phi z / ||Phi z||]. *)
Fixpoint projected_state (md : mode) (f g : pyfun R) (tspan : vec R)
    (dW : mat R) (h : R) (y0 : vec R) (n : nat) : vec R :=
  match n with
  | O => y0
  | S n' =>
      let yn := projected_state md f g tspan dW h y0 n' in
      let P := Phi md f g h yn (nth n' tspan r0) (nth n' dW []) in
      let N := fun z => unit_vector (P z) in
      N (N (N yn))
  end.

(** The initial state is complex: a complex number, or an array of a
    complex element type. *)
Definition complex_state (y0 : y0_arg R) : bool :=
  match y0 with
  | Y0Num ty _ => is_complex_dtype (dtype_of_pytype ty)
  | Y0Arr dt _ => is_complex_dtype dt
  end.

(** A system of dimension [d] whose diffusion is given both ways: on the
    states of shape [(d,)] the drift returns an array of shape [(d,)], [g]
    returns an array of shape [(d, m)] with [m] the number of column
    functions, and the column function [k] returns column [k] of [g]. *)
Record same_diffusion (f g : pyfun R) (gs : list (pyfun R)) (d : nat) : Prop := {
  sd_dim : (0 < d)%nat;
  sd_drift : forall y t, length y = d -> length (call_vec f y t) = d;
  sd_matrix : forall y t, length y = d ->
    exists A, fn_call g (Arr1 y) t = Arr2 A /\ has_shape2 d (length gs) A = true;
  sd_columns : forall k gk y t, gs !! k = Some gk -> length y = d ->
    fn_call gk (Arr1 y) t = Arr1 (col k (call_mat g y t))
}.

(** One stage correction, and the state after one step, as the integrator
    computes them from the matrix function [g]. *)
Definition srk2_stage (g : pyfun R) (H2 H3 : mat R) (tn1 sqrth : R) (k : nat)
    (Yn1 : vec R) : vec R :=
  vadd Yn1 (smulv (rhalf * sqrth)%num
              (vsub (col k (call_mat g (col k H2) tn1))
                    (col k (call_mat g (col k H3) tn1)))).

Definition srk2_next (f g : pyfun R) (tspan : vec R) (dW : mat R) (I : ten R)
    (m : nat) (normalized : bool) (n : nat) (Yn : vec R) : vec R :=
  let tn := nth n tspan r0 in
  let tn1 := nth (n + 1) tspan r0 in
  let h := (tn1 - tn)%num in
  let sqrth := rsqrt h in
  let Ik := nth n dW [] in
  let Iij := nth n I [] in
  let fnh := vmuls (call_vec f Yn tn) h in
  let Gn := call_mat g Yn tn in
  let sum1 := mdivs (mdotm Gn Iij) sqrth in
  let H20 := vadd Yn fnh in
  let H2 := col_plus H20 sum1 in
  let H3 := col_minus H20 sum1 in
  let fn1h := vmuls (call_vec f H20 tn1) h in
  let Yn1 := vadd (vadd Yn (smulv rhalf (vadd fnh fn1h))) (mdotv Gn Ik) in
  normalize_if normalized
    (foldl (fun Y k => srk2_stage g H2 H3 tn1 sqrth k Y) Yn1 (seq 0 m)).
(** The time steps pass the first check: there is at least one, and the
    smallest and the largest are close. *)
Definition evenly_spaced (tspan : vec R) : bool :=
  match diff tspan with
  | [] => false
  | x :: l => risclose (py_min x l) (py_max x l)
  end.

(** An entry of a list given for [G] that passes the check of its column:
    it is callable and its value at [(y0, t0)] has the shape [(d,)]. *)
Definition column_ok (d : nat) (y0 : vec R) (t0 : R) (g : option (pyfun R))
  : bool :=
  match g with
  | Some g => bool_decide (shape (fn_call g (Arr1 y0) t0) = Some [d])
  | None => false
  end.

(** [G] has not the form the validation asks for at [(y0, t0)]: a single
    function whose value is an array of a shape other than [(d, m)], or a
    list with an entry that is not callable or whose value has not the
    shape [(d,)]. *)
Definition malformed_G (G : G_arg R) (y0 : vec R) (t0 : R) : Prop :=
  match G with
  | GCallable g =>
      is_Number (fn_call g (Arr1 y0) t0) = false
      /\ exists sh, shape (fn_call g (Arr1 y0) t0) = Some sh
                    /\ forall c, sh <> [length y0; c]
  | GSeq gs => forallb (column_ok (length y0) y0 t0) gs = false
  end.

(** The row the Heun step [n] writes, from the row [yn] before it. *)
Definition heun_update (f g : pyfun R) (tspan : vec R) (dW : mat R) (h : R)
    (normalized : bool) (n : nat) (yn : vec R) : vec R :=
  let tn := nth n tspan r0 in
  let tnp1 := nth (n + 1) tspan r0 in
  let dWn := nth n dW [] in
  let fn := call_vec f yn tn in
  let Gn := call_mat g yn tn in
  let ybar := vadd (vadd yn (vmuls fn h)) (mdotv Gn dWn) in
  let fnbar := call_vec f ybar tnp1 in
  let Gnbar := call_mat g ybar tnp1 in
  normalize_if normalized
    (vadd (vadd yn (vmuls (smulv rhalf (vadd fn fnbar)) h))
          (smulv rhalf (mdotv (madd Gn Gnbar) dWn))).
(** A system of the documented shapes: on every state of shape [(d,)] the
    drift returns an array of shape [(d,)] and the diffusion an array of
    shape [(d, m)]. *)
Record documented_shapes (f g : pyfun R) (d m : nat) : Prop := {
  ds_drift : forall y t, length y = d ->
    exists v, fn_call f (Arr1 y) t = Arr1 v /\ length v = d;
  ds_noise : forall y t, length y = d ->
    exists A, fn_call g (Arr1 y) t = Arr2 A /\ has_shape2 d m A = true
}.

(** A tensor function of the documented shape: on every state of shape
    [(d,)] it returns an array of shape [(d, m, m)]. *)
Definition documented_tensor (h : pyfun R) (d m : nat) : Prop :=
  forall y t, length y = d ->
    exists T, fn_call h (Arr1 y) t = Arr3 T /\ has_shape3 d m m T = true.

(** The rows of a trajectory buffer during a run: as many as allocated,
    each of the length of the state. *)
Definition rows_ok (n d : nat) (y : mat R) : Prop :=
  length y = n /\ Forall (fun row => length row = d) y.
End Notions.

Section Calls.
Context {R : Type} `{SR : Scalar R} `{CS : !ComplexScalar R}.
Variable deltaW : nat -> nat -> R -> mat R.
Variable fsolve : (vec R -> vec R) -> vec R -> R -> vec R * Z * string.

(** An integrator together with the optional arguments that are its own. *)
Inductive integrator : Type :=
| ItoEuler (normalized : bool) (downsample : nat)
| ItoImplicitEuler (normalized : bool) (downsample : nat) (implicit_type : string)
| ItoQuasiImplicitEuler (normalized : bool) (downsample : nat)
    (implicit_ports : option (list nat))
| ItoMilstein (H : option (H_arg R)) (Imethod : mat R -> R -> mat R * ten R)
    (normalized : bool) (downsample : nat)
| NumItoMilstein (Imethod : mat R -> R -> mat R * ten R)
    (normalized : bool) (downsample : nat) (eps : R)
| StratHeun (normalized : bool)
| ItoSRI2 (Imethod : mat R -> R -> mat R * ten R)
    (normalized : bool) (downsample : nat)
| StratSRS2 (Jmethod : mat R -> R -> mat R * ten R) (normalized : bool)
| StratKP2iS (Jmethod : mat R -> R -> mat R * ten R)
    (gam al1 al2 : option (vec R)) (rtol : R) (normalized : bool).

(** The integrators that take repeated integrals [I] or [J]. *)
Definition takes_IJ (a : integrator) : bool :=
  match a with
  | ItoEuler _ _ | ItoImplicitEuler _ _ _ | ItoQuasiImplicitEuler _ _ _
  | StratHeun _ => false
  | _ => true
  end.

(** The call of integrator [a] on a system, a grid and a realization. *)
Definition call (a : integrator) (f : pyfun R) (G : G_arg R) (y0 : y0_arg R)
    (tspan : vec R) (dW IJ : option (value R)) : M (output R) :=
  match a with
  | ItoEuler nz ds => itoEuler deltaW f G y0 tspan dW nz ds
  | ItoImplicitEuler nz ds ty => itoImplicitEuler deltaW f G y0 tspan dW nz ds ty
  | ItoQuasiImplicitEuler nz ds ports =>
      itoQuasiImplicitEuler deltaW f G y0 tspan dW nz ds ports
  | ItoMilstein H Imethod nz ds =>
      itoMilstein deltaW f G H y0 tspan Imethod dW IJ nz ds
  | NumItoMilstein Imethod nz ds eps =>
      numItoMilstein deltaW f G y0 tspan Imethod dW IJ nz ds eps
  | StratHeun nz => stratHeun deltaW f G y0 tspan dW nz
  | ItoSRI2 Imethod nz ds => itoSRI2 deltaW f G y0 tspan Imethod dW IJ nz ds
  | StratSRS2 Jmethod nz => stratSRS2 deltaW f G y0 tspan Jmethod dW IJ nz
  | StratKP2iS Jmethod gam al1 al2 rtol nz =>
      stratKP2iS deltaW fsolve f G y0 tspan Jmethod gam al1 al2 rtol dW IJ nz
  end.

(** The inputs the validation rejects, each with the message of its error:
    time steps that are not all equal within tolerance; on a system and grid
    that pass validation and give [m], a [dW] whose shape is not
    [(len(tspan)-1, m)]; and, with the increments absent or of the right
    shape, repeated integrals whose shape is not [(len(tspan)-1, m, m)]. *)
Inductive rejected (a : integrator) (f : pyfun R) (G : G_arg R) (y0 : y0_arg R)
    (tspan : vec R) (dW IJ : option (value R)) : string -> Prop :=
| uneven_steps x l :
    diff tspan = x :: l ->
    risclose (py_min x l) (py_max x l) = false ->
    rejected a f G y0 tspan dW IJ msg_spacing
| wrong_dW_shape s d m f' G' y0' w :
    _check_args f G y0 tspan None None None s
      = (s, Ok (d, m, f', G', y0', tspan, None, None)) ->
    dW = Some w ->
    shape w <> Some [(length tspan - 1)%nat; m] ->
    rejected a f G y0 tspan dW IJ (msg_dW m)
| wrong_IJ_shape s d m f' G' y0' w :
    takes_IJ a = true ->
    _check_args f G y0 tspan dW None None s
      = (s, Ok (d, m, f', G', y0', tspan, dW, None)) ->
    IJ = Some w ->
    shape w <> Some [(length tspan - 1)%nat; m; m] ->
    rejected a f G y0 tspan dW IJ (msg_IJ m).
End Calls.

(** * Properties *)

(** ** Facts about computations *)

Ltac munfold :=
  unfold mbind, M_bind, bind, mret, M_ret, ret, raise, tick in *.

Section MonadFacts.
Context {A B : Type}.

Lemma bind_unfold (m : M A) (k : A -> M B) s :
  (m ≫= k) s = match m s with
               | (s', Ok a) => k a s'
               | (s', Raise e) => (s', Raise e)
               end.
Proof. reflexivity. Qed.

Lemma bind_ok (m : M A) (k : A -> M B) s s' a :
  m s = (s', Ok a) -> (m ≫= k) s = k a s'.
Proof. intros E. rewrite bind_unfold, E. reflexivity. Qed.

Lemma bind_raise (m : M A) (k : A -> M B) s s' e :
  m s = (s', Raise e) -> (m ≫= k) s = (s', Raise e).
Proof. intros E. rewrite bind_unfold, E. reflexivity. Qed.

Lemma stateless_ret (a : A) : stateless (mret a : M A).
Proof. exists (Ok a). reflexivity. Qed.

Lemma stateless_raise (e : exn) : stateless (raise e : M A).
Proof. exists (Raise e). reflexivity. Qed.

Lemma stateless_bind (m : M A) (k : A -> M B) :
  stateless m -> (forall a, stateless (k a)) -> stateless (m ≫= k).
Proof.
  intros [r Hm] Hk. destruct r as [a|e].
  - destruct (Hk a) as [r' Hr']. exists r'. intros s.
    rewrite (bind_ok _ _ _ _ _ (Hm s)). apply Hr'.
  - exists (Raise e). intros s. apply bind_raise, Hm.
Qed.

Lemma raises_at_entry_bind (m : M A) (k : A -> M B) e :
  raises_at_entry m e -> raises_at_entry (m ≫= k) e.
Proof. intros Hm s. apply bind_raise, Hm. Qed.
End MonadFacts.

(** Closes [stateless] goals over binds, conditionals and matches on
    values. *)
Ltac stateless_tac :=
  repeat first
    [ apply stateless_ret
    | apply stateless_raise
    | apply stateless_bind; [|intros]
    | match goal with
      | |- stateless (if ?b then _ else _) => destruct b
      | |- stateless (match ?x with _ => _ end) => destruct x
      | |- stateless (let (_, _) := ?x in _) => destruct x
      end ].

Section CheckArgsFacts.
Context {R : Type} `{SR : Scalar R}.

Lemma stateless_check_columns d (y0 : vec R) t0 gs :
  stateless (check_columns d y0 t0 gs).
Proof.
  induction gs as [|[g|] gs IH]; simpl.
  - apply stateless_ret.
  - destruct (bool_decide _); [exact IH | apply stateless_raise].
  - apply stateless_raise.
Qed.

Lemma stateless_check_spacing (tspan : vec R) : stateless (check_spacing tspan).
Proof. unfold check_spacing. stateless_tac. Qed.

Lemma stateless_promote_scalar f G (y0 : y0_arg R) t0 :
  stateless (promote_scalar f G y0 t0).
Proof. unfold promote_scalar. stateless_tac. Qed.

Lemma stateless_py_len (v : value R) : stateless (py_len v).
Proof. unfold py_len. stateless_tac. Qed.

Lemma stateless_check_G d G (y0 : vec R) t0 : stateless (check_G d G y0 t0).
Proof. unfold check_G. stateless_tac; apply stateless_check_columns. Qed.

Lemma stateless_check_dW N m (dW : option (value R)) : stateless (check_dW N m dW).
Proof. unfold check_dW. stateless_tac. Qed.

Lemma stateless_check_IJ N m (IJ : option (value R)) : stateless (check_IJ N m IJ).
Proof. unfold check_IJ. stateless_tac. Qed.

Lemma stateless_check_H d m H (y0 : vec R) t0 : stateless (check_H d m H y0 t0).
Proof. unfold check_H, shape_at. stateless_tac. Qed.

Lemma stateless_check_args f G (y0 : y0_arg R) tspan dW IJ H :
  stateless (_check_args f G y0 tspan dW IJ H).
Proof.
  unfold _check_args, check_spacing, promote_scalar, py_len, check_G,
    check_dW, check_IJ, check_H, shape_at.
  stateless_tac; apply stateless_check_columns.
Qed.

Lemma first_entry_type_ok (y0 : array1 R) s :
  (0 < length (arr_data y0))%nat ->
  first_entry_type y0 s = (s, Ok (arr_dtype y0)).
Proof.
  unfold first_entry_type. destruct (arr_data y0); cbn [length]; intros Hd;
    [lia | reflexivity].
Qed.

Lemma first_entry_type_empty (y0 : array1 R) s :
  arr_data y0 = [] -> first_entry_type y0 s = (s, Raise IndexError).
Proof. unfold first_entry_type. intros ->. reflexivity. Qed.

Lemma stateless_state {A} (m : M A) s s' r :
  stateless m -> m s = (s', r) -> s' = s.
Proof. intros [r0 Hm] E. rewrite Hm in E. now inversion E. Qed.

Lemma check_args_inv f G (y0 : y0_arg R) tspan dW IJ H s s'
    d m f' G' y0' tspan' dW' IJ' :
  _check_args f G y0 tspan dW IJ H s
    = (s', Ok (d, m, f', G', y0', tspan', dW', IJ')) ->
  s' = s /\ tspan' = tspan /\ dW' = dW /\ IJ' = IJ
  /\ validated f G y0 tspan dW IJ H d m f' G' y0' s.
Proof.
  intros E.
  assert (s' = s) as -> by
    (eapply stateless_state; [apply stateless_check_args | exact E]).
  revert E. unfold _check_args. rewrite bind_unfold.
  destruct (check_spacing tspan s) as [s1 [[]|e]] eqn:E1; [|discriminate].
  assert (s1 = s) as ->.
  { eapply stateless_state; [|exact E1]. unfold check_spacing. stateless_tac. }
  rewrite bind_unfold.
  destruct (promote_scalar f G y0 _ s) as [s2 [[[f1 G1] y1]|e]] eqn:E2;
    [|discriminate].
  assert (s2 = s) as ->.
  { eapply stateless_state; [|exact E2]. unfold promote_scalar. stateless_tac. }
  rewrite bind_unfold.
  destruct (py_len _ s) as [s3 [lf|e]] eqn:E3; [|discriminate].
  assert (s3 = s) as ->.
  { eapply stateless_state; [|exact E3]. unfold py_len. stateless_tac. }
  destruct (lf =? length (arr_data y1))%nat eqn:Elf; cbn [negb]; [|discriminate].
  apply Nat.eqb_eq in Elf. subst lf.
  rewrite bind_unfold.
  destruct (check_G _ _ _ _ s) as [s4 [m0|e]] eqn:E4; [|discriminate].
  assert (s4 = s) as ->.
  { eapply stateless_state; [|exact E4]. unfold check_G.
    stateless_tac; apply stateless_check_columns. }
  rewrite bind_unfold.
  destruct (check_dW _ _ _ s) as [s5 [[]|e]] eqn:E5; [|discriminate].
  assert (s5 = s) as ->.
  { eapply stateless_state; [|exact E5]. unfold check_dW. stateless_tac. }
  rewrite bind_unfold.
  destruct (check_IJ _ _ _ s) as [s6 [[]|e]] eqn:E6; [|discriminate].
  assert (s6 = s) as ->.
  { eapply stateless_state; [|exact E6]. unfold check_IJ. stateless_tac. }
  rewrite bind_unfold.
  destruct (check_H _ _ _ _ _ s) as [s7 [[]|e]] eqn:E7; [|discriminate].
  assert (s7 = s) as ->.
  { eapply stateless_state; [|exact E7]. unfold check_H, shape_at.
    stateless_tac. }
  intros E. inversion E; subst.
  repeat split; try reflexivity; assumption.
Qed.

Lemma check_args_intro f G (y0 : y0_arg R) tspan dW IJ H s d m f' G' y0' :
  validated f G y0 tspan dW IJ H d m f' G' y0' s ->
  _check_args f G y0 tspan dW IJ H s = (s, Ok (d, m, f', G', y0', tspan, dW, IJ)).
Proof.
  intros [H1 H2 H3 H4 H5 H6 H7 H8]. unfold _check_args.
  rewrite (bind_ok _ _ _ _ _ H1), (bind_ok _ _ _ _ _ H2).
  cbv beta iota. rewrite <- H3.
  rewrite (bind_ok _ _ _ _ _ H4), Nat.eqb_refl. cbn [negb].
  rewrite (bind_ok _ _ _ _ _ H5), (bind_ok _ _ _ _ _ H6),
    (bind_ok _ _ _ _ _ H7), (bind_ok _ _ _ _ _ H8).
  reflexivity.
Qed.

Lemma stateless_at {A} (m : M A) s r :
  stateless m -> m s = (s, r) -> forall s', m s' = (s', r).
Proof. intros [r' Hm] E s'. rewrite Hm in E. inversion E; subst. apply Hm. Qed.

Lemma validated_at f G (y0 : y0_arg R) tspan dW IJ H d m f' G' y0' s :
  validated f G y0 tspan dW IJ H d m f' G' y0' s ->
  forall s', validated f G y0 tspan dW IJ H d m f' G' y0' s'.
Proof.
  intros [H1 H2 H3 H4 H5 H6 H7 H8] s'. split; try assumption.
  - exact (stateless_at _ _ _ (stateless_check_spacing _) H1 s').
  - exact (stateless_at _ _ _ (stateless_promote_scalar _ _ _ _) H2 s').
  - exact (stateless_at _ _ _ (stateless_py_len _) H4 s').
  - exact (stateless_at _ _ _ (stateless_check_G _ _ _ _) H5 s').
  - exact (stateless_at _ _ _ (stateless_check_dW _ _ _) H6 s').
  - exact (stateless_at _ _ _ (stateless_check_IJ _ _ _) H7 s').
  - exact (stateless_at _ _ _ (stateless_check_H _ _ _ _ _) H8 s').
Qed.

(** Uneven time steps are rejected first. *)
Lemma check_args_uneven f G (y0 : y0_arg R) tspan dW IJ H x l :
  diff tspan = x :: l ->
  risclose (py_min x l) (py_max x l) = false ->
  raises_at_entry (_check_args f G y0 tspan dW IJ H) (SDEValueError msg_spacing).
Proof.
  intros Hd Hc. unfold _check_args. apply raises_at_entry_bind. intros s.
  unfold check_spacing. rewrite Hd, Hc. reflexivity.
Qed.

(** On a system that passes validation, increments of a wrong shape are
    rejected, whatever the repeated integrals and the tensor function. *)
Lemma check_args_wrong_dW f G (y0 : y0_arg R) tspan IJ H s d m f' G' y0' w :
  _check_args f G y0 tspan None None None s
    = (s, Ok (d, m, f', G', y0', tspan, None, None)) ->
  shape w <> Some [(length tspan - 1)%nat; m] ->
  raises_at_entry (_check_args f G y0 tspan (Some w) IJ H)
    (SDEValueError (msg_dW m)).
Proof.
  intros Hv Hw s'.
  apply check_args_inv in Hv as (_ & _ & _ & _ & Hv).
  destruct (validated_at _ _ _ _ _ _ _ _ _ _ _ _ _ Hv s')
    as [H1 H2 H3 H4 H5 _ _ _].
  unfold _check_args.
  rewrite (bind_ok _ _ _ _ _ H1), (bind_ok _ _ _ _ _ H2).
  cbv beta iota. rewrite <- H3.
  rewrite (bind_ok _ _ _ _ _ H4), Nat.eqb_refl. cbn [negb].
  rewrite (bind_ok _ _ _ _ _ H5).
  apply bind_raise. unfold check_dW.
  rewrite bool_decide_eq_false_2 by exact Hw. reflexivity.
Qed.

(** With increments that pass, repeated integrals of a wrong shape are
    rejected, whatever the tensor function. *)
Lemma check_args_wrong_IJ f G (y0 : y0_arg R) tspan dW H s d m f' G' y0' w :
  _check_args f G y0 tspan dW None None s
    = (s, Ok (d, m, f', G', y0', tspan, dW, None)) ->
  shape w <> Some [(length tspan - 1)%nat; m; m] ->
  raises_at_entry (_check_args f G y0 tspan dW (Some w) H)
    (SDEValueError (msg_IJ m)).
Proof.
  intros Hv Hw s'.
  apply check_args_inv in Hv as (_ & _ & _ & _ & Hv).
  destruct (validated_at _ _ _ _ _ _ _ _ _ _ _ _ _ Hv s')
    as [H1 H2 H3 H4 H5 H6 _ _].
  unfold _check_args.
  rewrite (bind_ok _ _ _ _ _ H1), (bind_ok _ _ _ _ _ H2).
  cbv beta iota. rewrite <- H3.
  rewrite (bind_ok _ _ _ _ _ H4), Nat.eqb_refl. cbn [negb].
  rewrite (bind_ok _ _ _ _ _ H5), (bind_ok _ _ _ _ _ H6).
  apply bind_raise. unfold check_IJ.
  rewrite bool_decide_eq_false_2 by exact Hw. reflexivity.
Qed.
End CheckArgsFacts.

(** ** The first row and the retained rows (C1, C2) *)

Section RowIndex.

(** With the default [downsample = 1] every step is retained and step [n]
    is written to row [n]. *)
Lemma record_index_default n : record_index n 1 = Z.of_nat n.
Proof. unfold record_index. rewrite Z.quot_1_r. lia. Qed.

Lemma retained_default n : retained n 1 = true.
Proof. unfold retained. rewrite Nat.mod_1_r. reflexivity. Qed.

Lemma record_default {A} n (a : list A) x :
  record n 1 a x = setitem a (Z.of_nat n) x.
Proof. unfold record. now rewrite retained_default, record_index_default. Qed.

(** With [downsample = k > 1], step [0] is written to row [1], and so is
    step [k]; step [j k] is written to row [j] for [j >= 1]. *)
Lemma record_index_first k : (1 < k)%nat -> record_index 0 k = 1.
Proof.
  intros Hk. unfold record_index. change (Z.of_nat 0 - 1) with (- (1)).
  rewrite Z.quot_opp_l, Z.quot_small by lia. reflexivity.
Qed.

Lemma record_index_multiple j k :
  (0 < j)%nat -> (0 < k)%nat -> record_index (j * k) k = Z.of_nat j.
Proof.
  intros Hj Hk. unfold record_index.
  rewrite Z.quot_div_nonneg by nia.
  assert ((Z.of_nat (j * k) - 1) `div` Z.of_nat k = Z.of_nat j - 1) as ->; [|lia].
  symmetry. apply (Z.div_unique _ _ _ (Z.of_nat k - 1)); nia.
Qed.

Lemma retained_multiple j k : (0 < k)%nat -> retained (j * k) k = true.
Proof.
  intros Hk. unfold retained. rewrite Nat.Div0.mod_mul. reflexivity.
Qed.

(** The number of rows allocated is [floor((N-1)/downsample) + 1]. *)
Lemma n_record_rows N k s :
  (0 < N)%nat -> (0 < k)%nat ->
  n_record N k s = (s, Ok ((N - 1) / k + 1)%nat).
Proof.
  intros HN Hk. unfold n_record.
  destruct (Nat.eqb_spec k 0) as [->|_]; [lia|].
  rewrite Z.quot_div_nonneg by lia.
  replace (Z.of_nat N - 1) with (Z.of_nat (N - 1)) by lia.
  rewrite <- Nat2Z.inj_div.
  replace (Z.of_nat ((N - 1) / k) + 1) with (Z.of_nat ((N - 1) / k + 1)) by lia.
  rewrite Nat2Z.id. reflexivity.
Qed.
End RowIndex.

Section DefaultRows.
Context {R : Type} `{SR : Scalar R}.
Variable deltaW : nat -> nat -> R -> mat R.

Lemma setitem_in_range {A} (a : list A) n x s :
  (n < length a)%nat -> setitem a (Z.of_nat n) x s = (s, Ok (<[n := x]> a)).
Proof.
  intros Hn. unfold setitem. cbv zeta.
  assert ((0 <=? Z.of_nat n) && (Z.of_nat n <? Z.of_nat (length a)) = true) as ->
    by (apply andb_true_iff; split; [apply Z.leb_le | apply Z.ltb_lt]; lia).
  rewrite Nat2Z.id. reflexivity.
Qed.

(** With [downsample = 1], step [n] of [itoEuler] writes the state after
    the step to row [n]. *)
Lemma itoEuler_body_default f g tspan dW h normalized n (y : mat R) yn s :
  (n < length y)%nat ->
  itoEuler_body f (GCallable g) tspan dW h normalized 1 n (y, yn) s
  = (S s, Ok (<[n := euler_update f g tspan dW h normalized n yn]> y,
              euler_update f g tspan dW h normalized n yn)).
Proof.
  intros Hn. unfold itoEuler_body. rewrite bind_unfold.
  change (tick s) with (S s, Ok tt). cbv iota beta.
  cbn [call_G]. rewrite bind_unfold. unfold mret at 1, M_ret, ret.
  cbv iota beta. rewrite bind_unfold, record_default, setitem_in_range by exact Hn.
  reflexivity.
Qed.

(** The steps from [a] on leave the rows below [a] alone. *)
Lemma itoEuler_loop_default f g tspan dW h normalized len :
  forall a (y : mat R) yn s,
    (a + len <= length y)%nat ->
    exists y' yn',
      for_each (seq a len) (itoEuler_body f (GCallable g) tspan dW h normalized 1)
        (y, yn) s = ((s + len)%nat, Ok (y', yn'))
      /\ forall i, (i < a)%nat -> y' !! i = y !! i.
Proof.
  induction len as [|len IH]; intros a y yn s Hlen.
  - exists y, yn. rewrite Nat.add_0_r. split; [reflexivity | trivial].
  - cbn [seq for_each]. rewrite bind_unfold, itoEuler_body_default by lia.
    destruct (IH (S a) (<[a := euler_update f g tspan dW h normalized a yn]> y)
                (euler_update f g tspan dW h normalized a yn) (S s))
      as (y' & yn' & E & Hrows).
    { rewrite length_insert. lia. }
    exists y', yn'. split.
    + rewrite E. f_equal. lia.
    + intros i Hi. rewrite Hrows by lia. apply list_lookup_insert_ne. lia.
Qed.

(** Every call of [itoEuler] with a callable [G], the default
    [downsample = 1] and arguments that pass the validation with a state
    that is not empty returns a trajectory whose first row is the state
    after the first step, not the initial state. *)
Lemma itoEuler_default_first_row f G (y0 : y0_arg R) tspan dW normalized s
    d m f' g' y0' :
  _check_args f G y0 tspan dW None None s
    = (s, Ok (d, m, f', GCallable g', y0', tspan, dW, None)) ->
  (0 < d)%nat ->
  exists out,
    itoEuler deltaW f G y0 tspan dW normalized 1 s
      = ((s + (length tspan - 1))%nat, Ok out)
    /\ trajectory out !! 0%nat
       = Some (euler_update f' g' tspan (get_dW deltaW dW (length tspan) m
                                          (step_size tspan))
                 (step_size tspan) normalized 0 (arr_data y0')).
Proof.
  intros Hc Hpos. unfold itoEuler. rewrite (bind_ok _ _ _ _ _ Hc). cbv iota beta.
  apply check_args_inv in Hc as (_ & _ & _ & _ & [Hs _ Hd _ _ _ _ _]).
  assert (HN : (2 <= length tspan)%nat).
  { unfold check_spacing in Hs. destruct tspan as [|a [|b t]]; try discriminate.
    cbn [length]. lia. }
  rewrite (bind_ok _ _ _ _ _
             (n_record_rows (length tspan) 1 s ltac:(lia) ltac:(lia))).
  rewrite (bind_ok _ _ _ _ _ (first_entry_type_ok y0' s ltac:(lia))).
  rewrite Nat.div_1_r.
  replace (length tspan - 1 + 1)%nat with (S (length tspan - 1)) by lia.
  set (N1 := (length tspan - 1)%nat) in *.
  change (setitem ?a 0 ?x) with (setitem a (Z.of_nat 0) x).
  rewrite bind_unfold, setitem_in_range
    by (unfold zeros2; rewrite length_replicate; lia).
  cbv iota beta. cbn [zeros2 replicate insert list_insert nth].
  unfold range. destruct N1 as [|N2] eqn:EN; [lia|].
  cbn [seq for_each]. rewrite !bind_unfold, itoEuler_body_default by (cbn; lia).
  cbn [insert list_insert].
  match goal with
  | |- context [for_each (seq 1 N2) ?b (?y, ?yn) (S s)] =>
      destruct (itoEuler_loop_default f' g' tspan
                  (get_dW deltaW dW (length tspan) m (step_size tspan))
                  (step_size tspan) normalized N2 1 y yn (S s))
        as (y' & yn' & E & Hrows)
  end.
  { cbn [length]. rewrite length_replicate. lia. }
  rewrite E. cbv iota beta. eexists. split.
  - unfold mret, M_ret, ret. f_equal. lia.
  - cbn [trajectory]. rewrite Hrows by lia. reflexivity.
Qed.
End DefaultRows.

Section RetainedRows.
Import Float64 Example.

(** C1 (the code departs from the claim).  With the default
    [downsample = 1] the index [int((n-1)/downsample)+1] of step [n = 0]
    is [0]: the state after the first step is written over the initial
    state, and the last row is never written.  On [dy = dt], [y0 = 0] and
    the grid [0, 1] the integrators with a [downsample] argument return
    the rows [1, 0] instead of [0, 1]; [stratHeun] and [stratKP2iS],
    which index by [n+1], return [0, 1]. *)
Theorem first_row_overwritten_by_first_step :
  forall (deltaW : nat -> nat -> float -> mat float) fsolve,
    let y0 := Y0Arr float64 [0%float] in
    let G := GCallable no_noise in
    let dW := Some (zero_dW 1) in
    let IJ := Some (zero_IJ 1) in
    itoEuler deltaW drift_one G y0 (grid 2) dW false 1 0%nat
      = (1%nat, Ok (Output [[1%float]; [0%float]] None))
    /\ itoImplicitEuler deltaW drift_one G y0 (grid 2) dW false 1 "implicit" 0%nat
      = (1%nat, Ok (Output [[1%float]; [0%float]] (Some [1%float; 0%float])))
    /\ itoQuasiImplicitEuler deltaW drift_one G y0 (grid 2) dW false 1 (Some []) 0%nat
      = (1%nat, Ok (Output [[1%float]; [0%float]] (Some [1%float; 0%float])))
    /\ itoSRI2 deltaW drift_one G y0 (grid 2) no_IJmethod dW IJ false 1 0%nat
      = (1%nat, Ok (Output [[1%float]; [0%float]] None))
    /\ stratSRS2 deltaW drift_one G y0 (grid 2) no_IJmethod dW IJ false 0%nat
      = (1%nat, Ok (Output [[1%float]; [0%float]] None))
    /\ stratHeun deltaW drift_one G y0 (grid 2) dW false 0%nat
      = (1%nat, Ok (Output [[0%float]; [1%float]] None))
    /\ stratKP2iS deltaW fsolve drift_one G y0 (grid 2) no_IJmethod
         None None None 1e-4%float dW IJ false 0%nat
      = (1%nat, Ok (Output [[0%float]; [1%float]] None)).
Proof. intros deltaW fsolve. repeat split; vm_compute; reflexivity. Qed.

(** C2 (the code departs from the claim).  On [dy = dt], [y0 = 0] and the
    grid [0, 1, 2, 3, 4] the states at the grid points are [0, 1, 2, 3, 4].
    With [downsample = 2] the three rows returned are [0, 3, 0], not the
    states [0, 2, 4] at every second grid point: step [0] and step [2]
    are both written to row [1], and row [2], for the last grid point, is
    never written.  With [downsample = 1] the rows are [1, 2, 3, 4, 0]. *)
Theorem retained_rows_off_the_grid :
  forall (deltaW : nat -> nat -> float -> mat float),
    let y0 := Y0Arr float64 [0%float] in
    let G := GCallable no_noise in
    let dW := Some (zero_dW 4) in
    itoEuler deltaW drift_one G y0 (grid 5) dW false 2 0%nat
      = (4%nat, Ok (Output [[0%float]; [3%float]; [0%float]] None))
    /\ itoEuler deltaW drift_one G y0 (grid 5) dW false 1 0%nat
      = (4%nat, Ok (Output [[1%float]; [2%float]; [3%float]; [4%float];
                            [0%float]] None)).
Proof. intros deltaW. split; vm_compute; reflexivity. Qed.
End RetainedRows.

(** ** The default of the quasi-implicit integrator (C3) *)

Section QuasiImplicitDefault.
Context {R : Type} `{SR : Scalar R}.
Variable deltaW : nat -> nat -> R -> mat R.

Lemma ports_not_in_None m :
  (0 < m)%nat -> raises_at_entry (ports_not_in (range m) None) TypeError.
Proof. intros Hm s. destruct m; [lia|]. reflexivity. Qed.

(** Whenever the validation passes and there is at least one noise
    channel, omitting [implicit_ports] raises [TypeError] at entry: the
    complement is computed from [None] before [None] is replaced by the
    empty list. *)
Lemma quasi_implicit_default_raises f G (y0 : y0_arg R) tspan dW normalized
    downsample s d m f' G' y0' tspan' dW' IJ' :
  _check_args f G y0 tspan dW None None s
    = (s, Ok (d, m, f', G', y0', tspan', dW', IJ')) ->
  (0 < m)%nat ->
  itoQuasiImplicitEuler deltaW f G y0 tspan dW normalized downsample None s
    = (s, Raise TypeError).
Proof.
  intros Hc Hm. unfold itoQuasiImplicitEuler.
  rewrite (bind_ok _ _ _ _ _ Hc). simpl.
  apply bind_raise, ports_not_in_None, Hm.
Qed.
End QuasiImplicitDefault.

Section QuasiImplicitDefaultRun.
Import Float64 Example.

(** C3 (the code departs from the claim).  On a valid system with one
    noise channel, [itoQuasiImplicitEuler] with [implicit_ports] omitted
    raises [TypeError] before any step, while the same call with the
    empty list, the intended default, integrates. *)
Theorem quasi_implicit_default_fails :
  forall (deltaW : nat -> nat -> float -> mat float),
    let y0 := Y0Arr float64 [0%float] in
    let G := GCallable no_noise in
    let dW := Some (zero_dW 2) in
    itoQuasiImplicitEuler deltaW drift_one G y0 (grid 3) dW false 1 None 0%nat
      = (0%nat, Raise TypeError)
    /\ itoQuasiImplicitEuler deltaW drift_one G y0 (grid 3) dW false 1 (Some []) 0%nat
      = (2%nat, Ok (Output [[1%float]; [2%float]; [0%float]]
                           (Some [1%float; 2%float; 0%float]))).
Proof. intros deltaW. split; vm_compute; reflexivity. Qed.
End QuasiImplicitDefaultRun.

(** ** Renormalization (C5) *)

Section Renormalization.
Import Float64 Example.

(** C5 (the code departs from the claim).  With [normalized = True],
    [stratKP2iS] stores the result of its first step, taken by the explicit
    scheme, as it is: the [continue] of the branch [n == 0] skips the
    division by the norm.  On [dy = 0], [y0 = 2] the row for [t_1] is [2],
    of norm [2], while the row for [t_2] is normalized.  In the
    integrators with a [downsample] argument the last row is never
    written and has norm [0]. *)
Theorem first_step_of_KP2iS_not_normalized :
  forall (deltaW : nat -> nat -> float -> mat float),
    let y0 := Y0Arr float64 [2%float] in
    let G := GCallable no_noise in
    stratKP2iS deltaW no_fsolve drift_zero G y0 (grid 2) no_IJmethod
        None None None 1e-4%float (Some (zero_dW 1)) (Some (zero_IJ 1)) true 0%nat
      = (1%nat, Ok (Output [[2%float]; [2%float]] None))
    /\ stratKP2iS deltaW accept_guess drift_zero G y0 (grid 3) no_IJmethod
        None None None 1e-4%float (Some (zero_dW 2)) (Some (zero_IJ 2)) true 0%nat
      = (2%nat, Ok (Output [[2%float]; [2%float]; [1%float]] None))
    /\ norm [2%float] = 2%float
    /\ itoEuler deltaW drift_zero G y0 (grid 2) (Some (zero_dW 1)) true 1 0%nat
      = (1%nat, Ok (Output [[1%float]; [0%float]] None))
    /\ norm [0%float] = 0%float.
Proof. intros deltaW. repeat split; vm_compute; reflexivity. Qed.
End Renormalization.

(** ** Scalar promotion (C4) *)

Section ScalarPromotion.
Context {R : Type} `{SR : Scalar R}.

(** C4, amended.  For a scalar initial state [y0] of type [ty], and [G] a
    single function, the normalizer makes [y0] a length-1 array whose
    element type is [float64] when [ty] is an integral type and the element
    type of [ty] otherwise; [f] and [G] are replaced by the adapters
    [make_vector_fn f] and [make_matrix_fn G] when they return a plain
    number at [(y0, t0)]; the adapters keep the names and return the
    1-vector and the 1x1 matrix of the function's value at the first entry
    of the state; and this is what [_check_args] returns whenever it
    returns. *)
Theorem scalar_promotion (f g : pyfun R) (ty : pytype) (x : R) (tspan : vec R) :
  let t0 := nth 0 tspan r0 in
  let f' := if is_Number (fn_call f (Num x) t0) then make_vector_fn f else f in
  let g' := if is_Number (fn_call g (Num x) t0) then make_matrix_fn g else g in
  let y0' := Array1 (if is_Integral ty then float64 else dtype_of_pytype ty) [x] in
  (forall s, promote_scalar f (GCallable g) (Y0Num ty x) t0 s
             = (s, Ok (f', GCallable g', y0')))
  /\ (forall dW IJ H s s' d m f'' G'' y0'' tspan' dW' IJ',
        _check_args f (GCallable g) (Y0Num ty x) tspan dW IJ H s
          = (s', Ok (d, m, f'', G'', y0'', tspan', dW', IJ')) ->
        f'' = f' /\ G'' = GCallable g' /\ y0'' = y0' /\ d = 1%nat)
  /\ fn_name f' = fn_name f
  /\ fn_name g' = fn_name g
  /\ (forall y ys t z, fn_call f (Num y) t = Num z ->
        fn_call (make_vector_fn f) (Arr1 (y :: ys)) t = Arr1 [z])
  /\ (forall y ys t z, fn_call g (Num y) t = Num z ->
        fn_call (make_matrix_fn g) (Arr1 (y :: ys)) t = Arr2 [[z]]).
Proof.
  intros t0 f' g' y0'.
  assert (Hp : forall s, promote_scalar f (GCallable g) (Y0Num ty x) t0 s
                         = (s, Ok (f', GCallable g', y0'))).
  { intros s. unfold promote_scalar, f', g', y0', scalar_numtype.
    destruct (is_Number (fn_call g (Num x) t0)); reflexivity. }
  split; [exact Hp|]. split.
  { intros dW IJ H s s' d m f'' G'' y0'' tspan' dW' IJ' E.
    apply check_args_inv in E as (_ & _ & _ & _ & [_ E' Hd _ _ _ _ _]).
    fold t0 in E'. rewrite Hp in E'. inversion E'; subst.
    repeat split; reflexivity. }
  split; [unfold f'; destruct (is_Number (fn_call f _ _)); reflexivity|].
  split; [unfold g'; destruct (is_Number (fn_call g _ _)); reflexivity|].
  split; intros y ys t z E; simpl; rewrite E; reflexivity.
Qed.
End ScalarPromotion.

Section ScalarPromotionRun.
Import Float64 Example.

(** C4, as stated, fails on an integer: the initial state [1] of type [int]
    is validated and promoted to an array of element type [float64], which
    is not the element type of [int]. *)
Lemma integer_state_becomes_float64 :
  exists f' G' y0' tspan',
    _check_args scalar_drift (GCallable scalar_noise) (Y0Num py_int 1%float)
        (grid 3) None None None 0%nat
      = (0%nat, Ok (1%nat, 1%nat, f', G', y0', tspan', None, None))
    /\ y0' = Array1 float64 [1%float]
    /\ arr_dtype y0' <> dtype_of_pytype py_int.
Proof.
  do 4 eexists. split; [vm_compute; reflexivity|].
  split; [reflexivity|]. simpl. discriminate.
Qed.
End ScalarPromotionRun.

(** ** One step of the implicit Euler-Maruyama scheme *)

Section ImplicitEuler.
Context {R : Type} `{SR : Scalar R}.

Lemma mode_name_accepted md : bool_decide (mode_name md ∈ implicit_types) = true.
Proof. destruct md; reflexivity. Qed.

Lemma setitem_stateless {A} (a : list A) i x : stateless (setitem a i x).
Proof. unfold setitem. stateless_tac. Qed.

Lemma record_stateless {A} n k (a : list A) x : stateless (record n k a x).
Proof. unfold record. destruct (retained n k); [apply setitem_stateless|]. stateless_tac. Qed.

(** Writing twice to the place of step [n] keeps the second value. *)
Lemma record_twice {A B} n k (a : list A) x y (cont : list A -> M B) s :
  (a1 ← record n k a x; a2 ← record n k a1 y; cont a2) s
  = (a2 ← record n k a y; cont a2) s.
Proof.
  unfold record. destruct (retained n k).
  - unfold setitem. cbv zeta.
    destruct ((0 <=? record_index n k)
              && (record_index n k <? Z.of_nat (length a))) eqn:E1.
    + rewrite !bind_unfold. cbn [mret M_ret ret].
      rewrite length_insert, E1. cbn [mret M_ret ret].
      rewrite list_insert_insert_eq. reflexivity.
    + destruct ((- Z.of_nat (length a) <=? record_index n k)
                && (record_index n k <? 0)) eqn:E2.
      * rewrite !bind_unfold. cbn [mret M_ret ret].
        rewrite length_insert, E1, E2. cbn [mret M_ret ret].
        rewrite list_insert_insert_eq. reflexivity.
      * reflexivity.
  - reflexivity.
Qed.

(** One call of [implicit_step] with a callable [G]. *)
Lemma implicit_step_callable md f g h normalized k n norms yn z tn dWn s :
  implicit_step f (GCallable g) h normalized k (mode_name md) n norms yn z tn dWn s
  = (norms' ← record n k norms (norm (Phi md f g h yn tn dWn z));
     mret (norms', if normalized then unit_vector (Phi md f g h yn tn dWn z)
                   else Phi md f g h yn tn dWn z)) s.
Proof. destruct md; reflexivity. Qed.

Lemma record_eq {A} n k (a : list A) x s :
  record n k a x s = (s, record_outcome n k a x).
Proof.
  unfold record, record_outcome, setitem. cbv zeta.
  destruct (retained n k); [|reflexivity].
  destruct (_ && _); [reflexivity|]. destruct (_ && _); reflexivity.
Qed.

Lemma record_outcome_twice {A} n k (a a1 : list A) x y :
  record_outcome n k a x = Ok a1 ->
  record_outcome n k a1 y = record_outcome n k a y.
Proof.
  unfold record_outcome. cbv zeta. destruct (retained n k).
  - destruct ((0 <=? record_index n k)
              && (record_index n k <? Z.of_nat (length a))) eqn:E1.
    + intros [= <-]. rewrite length_insert, E1, list_insert_insert_eq. reflexivity.
    + destruct ((- Z.of_nat (length a) <=? record_index n k)
                && (record_index n k <? 0)) eqn:E2; [|discriminate].
      intros [= <-]. rewrite length_insert, E1, E2, list_insert_insert_eq.
      reflexivity.
  - intros [= <-]. reflexivity.
Qed.

Lemma record_outcome_raise {A} n k (a : list A) x y e :
  record_outcome n k a x = Raise e -> record_outcome n k a y = Raise e.
Proof.
  unfold record_outcome. cbv zeta. destruct (retained n k); [|discriminate].
  destruct (_ && _); [discriminate|]. destruct (_ && _); [discriminate|].
  trivial.
Qed.

(** The iteration of [itoImplicitEuler] with a callable [G]: three passes of
    the step map, each followed by the projection when [normalized]; the
    norm left in [norms] is the one taken in the last pass, before the
    projection. *)
Lemma implicit_body_callable md f g (tspan : vec R) (dW : mat R) h
    (normalized : bool)
    k n (y : mat R) (norms yn : vec R) s :
  let tn := nth n tspan r0 in
  let dWn := nth n dW [] in
  let P := Phi md f g h yn tn dWn in
  let NP := fun z => if normalized then unit_vector (P z) else P z in
  itoImplicitEuler_body f (GCallable g) tspan dW h normalized k (mode_name md)
    n (y, norms, yn) s
  = (norms' ← record n k norms (norm (P (NP (NP yn))));
     y' ← record n k y (NP (NP (NP yn)));
     mret (y', norms', NP (NP (NP yn)))) (S s).
Proof.
  intros tn dWn P NP. unfold itoImplicitEuler_body.
  rewrite bind_unfold. cbv iota beta.
  change (tick s) with (S s, Ok tt). cbv iota beta.
  rewrite bind_unfold, implicit_step_callable, bind_unfold, record_eq.
  fold tn dWn P. change (if normalized then _ else _) with (NP yn).
  rewrite (bind_unfold (record n k norms _)), record_eq.
  destruct (record_outcome n k norms (norm (P yn))) as [norms1|e] eqn:E1.
  2:{ rewrite (record_outcome_raise _ _ _ _ _ _ E1). reflexivity. }
  rewrite <- (record_outcome_twice _ _ _ _ _ (norm (P (NP (NP yn)))) E1).
  cbn [mret M_ret ret]. cbv iota beta.
  change (range 2) with [0%nat; 1%nat]. cbn [for_each].
  rewrite bind_unfold, bind_unfold, implicit_step_callable, bind_unfold, record_eq.
  fold tn dWn P. change (if normalized then _ else _) with (NP (NP yn)).
  destruct (record_outcome n k norms1 (norm (P (NP yn)))) as [norms2|e] eqn:E2.
  2:{ rewrite (record_outcome_raise _ _ _ _ _ _ E2). reflexivity. }
  rewrite <- (record_outcome_twice _ _ _ _ _ (norm (P (NP (NP yn)))) E2).
  cbn [mret M_ret ret]. cbv iota beta.
  rewrite bind_unfold, implicit_step_callable, bind_unfold, record_eq.
  fold tn dWn P. change (if normalized then _ else _) with (NP (NP (NP yn))).
  destruct (record_outcome n k norms2 _) as [norms3|e]; reflexivity.
Qed.

End ImplicitEuler.

(** ** Configurations [stratKP2iS] does not support (C9) *)

Section UnsupportedConfigurations.
Context {R : Type} `{SR : Scalar R}.
Variable deltaW : nat -> nat -> R -> mat R.
Variable fsolve : (vec R -> vec R) -> vec R -> R -> vec R * Z * string.

Lemma promote_scalar_kinds f G (y0 : y0_arg R) t0 s s' f' G' y0' :
  promote_scalar f G y0 t0 s = (s', Ok (f', G', y0')) ->
  have_separate_g G' = have_separate_g G
  /\ is_complex_dtype (arr_dtype y0') = complex_state y0.
Proof.
  unfold promote_scalar. destruct y0 as [ty x|dt v].
  - destruct G as [g|gs]; [|discriminate].
    intros [= _ <- <- <-]. split.
    + destruct (is_Number _); reflexivity.
    + unfold scalar_numtype. destruct ty; reflexivity.
  - intros [= _ <- <- <-]. split; reflexivity.
Qed.

(** C9.  A call of [stratKP2iS] with [G] given as a sequence of column
    functions, or with a complex initial state, raises an error and begins
    no step of the integration. *)
Theorem KP2iS_rejects_unsupported f G (y0 : y0_arg R) tspan Jmethod
    gam al1 al2 rtol dW J normalized :
  have_separate_g G = true \/ complex_state y0 = true ->
  forall s, exists e,
    stratKP2iS deltaW fsolve f G y0 tspan Jmethod gam al1 al2 rtol dW J
      normalized s = (s, Raise e).
Proof.
  intros Hbad s. unfold stratKP2iS.
  destruct (stateless_check_args f G y0 tspan dW J None) as [[a|e] Hr].
  2:{ exists e. apply bind_raise, Hr. }
  destruct a as [[[[[[[d m] f'] G'] y0'] tspan'] dW'] J'].
  rewrite (bind_ok _ _ _ _ _ (Hr s)). cbv iota beta.
  destruct (check_args_inv _ _ _ _ _ _ _ _ _ _ _ _ _ _ _ _ _ (Hr s))
    as (_ & _ & _ & _ & [_ Hp _ _ _ _ _ _]).
  apply promote_scalar_kinds in Hp as [HG Hy].
  destruct (have_separate_g G') eqn:EG.
  - exists (SDEValueError msg_KP_G). reflexivity.
  - destruct Hbad as [Hbad|Hbad]; [congruence|].
    rewrite Hbad in Hy.
    exists (SDEValueError msg_KP_complex).
    rewrite bind_unfold. cbn [mret M_ret ret]. cbv iota beta.
    rewrite Hy. reflexivity.
Qed.
End UnsupportedConfigurations.

Section UnsupportedConfigurationsRun.
Import Float64 Example.

(** The hypotheses of [KP2iS_rejects_unsupported] hold for a list of one
    column function, and for an array of complex element type. *)
Lemma KP2iS_rejects_unsupported_witness :
  (exists e,
     stratKP2iS no_deltaW no_fsolve drift_zero (GSeq [Some no_noise_column])
       (Y0Arr float64 [2%float]) (grid 3) no_IJmethod None None None
       1e-4%float (Some (zero_dW 2)) (Some (zero_IJ 2)) true 0%nat
     = (0%nat, Raise e))
  /\ (exists e,
     stratKP2iS no_deltaW no_fsolve drift_zero (GCallable no_noise)
       (Y0Arr complex128 [2%float]) (grid 3) no_IJmethod None None None
       1e-4%float (Some (zero_dW 2)) (Some (zero_IJ 2)) true 0%nat
     = (0%nat, Raise e)).
Proof.
  split.
  - apply (KP2iS_rejects_unsupported no_deltaW no_fsolve drift_zero
             (GSeq [Some no_noise_column]) (Y0Arr float64 [2%float])).
    left. reflexivity.
  - apply (KP2iS_rejects_unsupported no_deltaW no_fsolve drift_zero
             (GCallable no_noise) (Y0Arr complex128 [2%float])).
    right. reflexivity.
Defined.
End UnsupportedConfigurationsRun.

(** ** Validation errors (C6) *)

Section ValidationErrors.
Context {R : Type} `{SR : Scalar R} `{CS : !ComplexScalar R}.
Variable deltaW : nat -> nat -> R -> mat R.
Variable fsolve : (vec R -> vec R) -> vec R -> R -> vec R * Z * string.

(** Every integrator starts with the validation, on its own increments and,
    when it takes them, repeated integrals. *)
Lemma call_starts_with_validation a f G y0 tspan dW IJ e :
  (forall H, raises_at_entry
     (_check_args f G y0 tspan dW (if takes_IJ a then IJ else None) H) e) ->
  raises_at_entry (call deltaW fsolve a f G y0 tspan dW IJ) e.
Proof.
  intros Hc. destruct a; simpl in *;
    unfold itoEuler, itoImplicitEuler, itoQuasiImplicitEuler, itoMilstein,
      numItoMilstein, stratHeun, itoSRI2, stratSRS2, _Roessler2010_SRK2,
      stratKP2iS;
    apply raises_at_entry_bind, Hc.
Qed.

(** C6.  Every integrator, called on time steps that are not all equal
    within tolerance, or with increments [dW] whose shape is not
    [(len(tspan)-1, m)], or with repeated integrals whose shape is not
    [(len(tspan)-1, m, m)], raises [SDEValueError] with the message of that
    check, which for the two shapes names the expected shape and [m]; it
    raises it at entry, before any step of the recurrence has begun. *)
Theorem validation_error_before_stepping a f G y0 tspan dW IJ msg :
  rejected a f G y0 tspan dW IJ msg ->
  raises_at_entry (call deltaW fsolve a f G y0 tspan dW IJ) (SDEValueError msg).
Proof.
  intros [x l Hd Hc | s d m f' G' y0' w Hv -> Hw | s d m f' G' y0' w Ha Hv -> Hw];
    apply call_starts_with_validation; intros H.
  - eapply check_args_uneven; eassumption.
  - eapply check_args_wrong_dW; eassumption.
  - rewrite Ha. eapply check_args_wrong_IJ; eassumption.
Qed.
End ValidationErrors.

Section ValidationErrorsRun.
Import Complex128 ComplexExample.

(** The three kinds of rejected input: the grid [0, 1, 3]; increments for
    one interval on a grid of two intervals; repeated integrals for one
    interval on the same grid. *)
Lemma validation_error_before_stepping_witness :
  call never_deltaW never_fsolve (ItoEuler false 1)
    unit_drift (GCallable unit_noise) (Y0Arr float64 [of_float 0])
    uneven_grid None None 0%nat
  = (0%nat, Raise (SDEValueError msg_spacing))
  /\ call never_deltaW never_fsolve
       (NumItoMilstein never_IJmethod false 1 (of_float 1e-20))
       unit_drift (GCallable unit_noise) (Y0Arr float64 [of_float 0])
       even_grid (Some (Arr2 [[of_float 0]])) None 0%nat
     = (0%nat, Raise (SDEValueError (msg_dW 1)))
  /\ call never_deltaW never_fsolve
       (StratKP2iS never_IJmethod None None None (of_float 1e-4) false)
       unit_drift (GCallable unit_noise) (Y0Arr float64 [of_float 0])
       even_grid None (Some (Arr3 [[[of_float 0]]])) 0%nat
     = (0%nat, Raise (SDEValueError (msg_IJ 1))).
Proof.
  split; [|split].
  - apply (validation_error_before_stepping never_deltaW never_fsolve
             (ItoEuler false 1) unit_drift (GCallable unit_noise)
             (Y0Arr float64 [of_float 0]) uneven_grid None None msg_spacing).
    eapply uneven_steps; reflexivity.
  - apply (validation_error_before_stepping never_deltaW never_fsolve
             (NumItoMilstein never_IJmethod false 1 (of_float 1e-20))
             unit_drift (GCallable unit_noise)
             (Y0Arr float64 [of_float 0]) even_grid
             (Some (Arr2 [[of_float 0]])) None (msg_dW 1)).
    eapply (wrong_dW_shape _ _ _ _ _ _ _ 0%nat);
      [vm_compute; reflexivity | reflexivity | discriminate].
  - apply (validation_error_before_stepping never_deltaW never_fsolve
             (StratKP2iS never_IJmethod None None None (of_float 1e-4) false)
             unit_drift (GCallable unit_noise)
             (Y0Arr float64 [of_float 0]) even_grid
             None (Some (Arr3 [[[of_float 0]]])) (msg_IJ 1)).
    eapply (wrong_IJ_shape _ _ _ _ _ _ _ 0%nat);
      [reflexivity | vm_compute; reflexivity | reflexivity | discriminate].
Defined.
End ValidationErrorsRun.

(** ** One matrix function or a list of column functions (C8) *)

Section LoopFacts.
Context {S : Type}.

(** Two loop bodies that agree on the indices run over give the same loop. *)
Lemma for_each_ext_in (ns : list nat) (b1 b2 : nat -> S -> M S) st s :
  (forall n st s, n ∈ ns -> b1 n st s = b2 n st s) ->
  for_each ns b1 st s = for_each ns b2 st s.
Proof.
  revert st s. induction ns as [|n ns IH]; intros st s Hb; [reflexivity|].
  cbn [for_each]. rewrite !bind_unfold, Hb by apply list_elem_of_here.
  destruct (b2 n st s) as [s' [st'|e]]; [|reflexivity].
  apply IH. intros n' st'' s'' Hn. apply Hb. now apply list_elem_of_further.
Qed.

(** Two loop bodies that agree on the states satisfying an invariant kept
    by one of them give the same loop from such a state. *)
Lemma for_each_ext_inv (P : S -> Prop) (ns : list nat) (b1 b2 : nat -> S -> M S)
    st s :
  (forall n st s, P st -> b1 n st s = b2 n st s) ->
  (forall n st s s' st', P st -> b2 n st s = (s', Ok st') -> P st') ->
  P st ->
  for_each ns b1 st s = for_each ns b2 st s.
Proof.
  intros Hb Hinv. revert st s.
  induction ns as [|n ns IH]; intros st s HP; [reflexivity|].
  cbn [for_each]. rewrite !bind_unfold, Hb by exact HP.
  destruct (b2 n st s) as [s' [st'|e]] eqn:E; [|reflexivity].
  apply IH. eapply Hinv; eassumption.
Qed.

(** A loop whose body always returns is a fold. *)
Lemma for_each_pure (ns : list nat) (b : nat -> S -> M S)
    (step : nat -> S -> S) st s :
  (forall n st s, n ∈ ns -> b n st s = (s, Ok (step n st))) ->
  for_each ns b st s = (s, Ok (foldl (fun st n => step n st) st ns)).
Proof.
  revert st. induction ns as [|n ns IH]; intros st Hb; [reflexivity|].
  cbn [for_each foldl]. rewrite bind_unfold, Hb by apply list_elem_of_here.
  apply IH. intros n' st'' s'' Hn. apply Hb. now apply list_elem_of_further.
Qed.
End LoopFacts.

Section ArrayFacts.
Context {R : Type} `{SR : Scalar R}.

Lemma length_vadd (u v : vec R) :
  length (vadd u v) = (length u `min` length v)%nat.
Proof. apply length_zip_with. Qed.

Lemma length_vmuls (v : vec R) x : length (vmuls v x) = length v.
Proof. apply length_map. Qed.

Lemma length_smulv x (v : vec R) : length (smulv x v) = length v.
Proof. apply length_map. Qed.

Lemma length_vdivs (v : vec R) x : length (vdivs v x) = length v.
Proof. apply length_map. Qed.

Lemma length_mdotv (A : mat R) v : length (mdotv A v) = length A.
Proof. apply length_map. Qed.

Lemma length_col k (A : mat R) : length (col k A) = length A.
Proof. apply length_map. Qed.

Lemma length_normalize_if b (v : vec R) :
  length (normalize_if b v) = length v.
Proof. destruct b; [apply length_vdivs | reflexivity]. Qed.

Lemma length_mdivs (A : mat R) x : length (mdivs A x) = length A.
Proof. apply length_map. Qed.

Lemma length_mdotm (A B : mat R) : length (mdotm A B) = length A.
Proof. apply length_map. Qed.

Lemma length_col_plus (a : vec R) (B : mat R) :
  length (col_plus a B) = (length a `min` length B)%nat.
Proof. apply length_zip_with. Qed.

Lemma length_col_minus (a : vec R) (B : mat R) :
  length (col_minus a B) = (length a `min` length B)%nat.
Proof. apply length_zip_with. Qed.

Lemma has_shape2_spec d m (A : mat R) :
  has_shape2 d m A = true <-> length A = d /\ Forall (fun r => length r = m) A.
Proof.
  unfold has_shape2. rewrite andb_true_iff, Nat.eqb_eq, forallb_forall, Forall_forall.
  split; intros [H1 H2]; (split; [exact H1|]); intros r Hr.
  - apply Nat.eqb_eq, H2, list_elem_of_In, Hr.
  - apply Nat.eqb_eq, H2, list_elem_of_In, Hr.
Qed.

Lemma has_shape2_zeros d m : has_shape2 d m (zeros2 d m : mat R) = true.
Proof.
  apply has_shape2_spec. unfold zeros2, zeros1. split.
  - apply length_replicate.
  - apply Forall_replicate, length_replicate.
Qed.

(** Replacing entry [j] of a row that agrees with [a] below [j]. *)
Lemma insert_take_drop (a row : vec R) j :
  (j < length a)%nat -> length row = length a ->
  <[j := nth j a r0]> (take j a ++ drop j row) = take (S j) a ++ drop (S j) row.
Proof.
  intros Hj Hlen.
  destruct (lookup_lt_is_Some_2 a j Hj) as [x Hx].
  destruct (lookup_lt_is_Some_2 row j ltac:(lia)) as [z Hz].
  rewrite (nth_lookup_Some _ _ _ _ Hx).
  rewrite insert_app_r_alt by (rewrite length_take; lia).
  rewrite length_take, Nat.min_l, Nat.sub_diag by lia.
  rewrite (drop_S _ _ _ Hz). cbn [insert list_insert].
  rewrite (take_S_r _ _ _ Hx), <- app_assoc. reflexivity.
Qed.

(** Writing column [j] of [A] into a matrix that has the columns of [A]
    below [j]. *)
Lemma set_col_take_drop j m (A Gn : mat R) :
  (j < m)%nat ->
  Forall2 (fun row a => length row = m /\ length a = m) Gn A ->
  set_col j (col j A) (zip_with (fun row a => take j a ++ drop j row) Gn A)
  = zip_with (fun row a => take (S j) a ++ drop (S j) row) Gn A.
Proof.
  intros Hj HF. unfold set_col, col.
  induction HF as [|row a Gn A [Hr Ha] HF IH]; [reflexivity|].
  cbn [zip_with map]. rewrite IH, insert_take_drop by lia. reflexivity.
Qed.

(** Writing the columns [0 .. j-1] of [A], one after the other. *)
Lemma fill_columns_upto j m (A Gn : mat R) :
  (j <= m)%nat ->
  Forall2 (fun row a => length row = m /\ length a = m) Gn A ->
  foldl (fun Gn k => set_col k (col k A) Gn) Gn (seq 0 j)
  = zip_with (fun row a => take j a ++ drop j row) Gn A.
Proof.
  intros Hj HF. induction j as [|j IH].
  - cbn [seq foldl]. clear Hj.
    induction HF as [|row a Gn A _ HF IH]; [reflexivity|].
    cbn [zip_with]. rewrite <- IH. reflexivity.
  - rewrite seq_S, foldl_app, IH by lia. cbn [foldl Nat.add].
    apply (set_col_take_drop j m); [lia | exact HF].
Qed.

(** Writing all the columns of [A] into a matrix of its shape gives [A]. *)
Lemma fill_columns_all d m (A Gn : mat R) :
  has_shape2 d m Gn = true -> has_shape2 d m A = true ->
  foldl (fun Gn k => set_col k (col k A) Gn) Gn (seq 0 m) = A.
Proof.
  intros [HG1 HG2]%has_shape2_spec [HA1 HA2]%has_shape2_spec.
  assert (HF : Forall2 (fun row a => length row = m /\ length a = m) Gn A).
  { apply Forall2_same_length_lookup_2; [congruence|].
    intros i row a Hrow Ha. split.
    - eapply (proj1 (Forall_lookup _ _) HG2); eassumption.
    - eapply (proj1 (Forall_lookup _ _) HA2); eassumption. }
  rewrite (fill_columns_upto m m) by (lia || exact HF).
  clear -HF. induction HF as [|row a Gn A [Hr Ha] HF IH]; [reflexivity|].
  cbn [zip_with]. rewrite IH.
  rewrite take_ge, drop_ge by lia. rewrite app_nil_r. reflexivity.
Qed.
End ArrayFacts.

Section ColumnFunctions.
Context {R : Type} `{SR : Scalar R}.
Variable deltaW : nat -> nat -> R -> mat R.

Section Proofs.
Variables (f g : pyfun R) (gs : list (pyfun R)) (d : nat).
Hypothesis Hsame : same_diffusion f g gs d.

Lemma call_mat_shape y t :
  length y = d -> has_shape2 d (length gs) (call_mat g y t) = true.
Proof.
  intros Hy. destruct (sd_matrix _ _ _ _ Hsame y t Hy) as (A & E & HA).
  unfold call_mat. rewrite E. exact HA.
Qed.

Lemma call_mat_rows y t : length y = d -> length (call_mat g y t) = d.
Proof.
  intros Hy. pose proof (call_mat_shape y t Hy) as Hs.
  now apply has_shape2_spec in Hs.
Qed.

Lemma call_Gk_column k y t :
  (k < length gs)%nat -> length y = d ->
  forall s, call_Gk (GSeq (map Some gs)) k y t s
            = (s, Ok (col k (call_mat g y t))).
Proof.
  intros Hk Hy s. unfold call_Gk.
  destruct (lookup_lt_is_Some_2 gs k Hk) as [gk Hgk].
  assert (map Some gs !! k = Some (Some gk)) as ->.
  { change (map Some gs) with (Some <$> gs).
    rewrite list_lookup_fmap, Hgk. reflexivity. }
  unfold call_vec. rewrite (sd_columns _ _ _ _ Hsame k gk y t Hgk Hy).
  reflexivity.
Qed.

(** The validation finds the same [m] both ways. *)
Lemma check_G_matrix (v : vec R) t0 s :
  length v = d -> check_G d (GCallable g) v t0 s = (s, Ok (length gs)).
Proof.
  intros Hv. unfold check_G.
  destruct (sd_matrix _ _ _ _ Hsame v t0 Hv) as (A & E & HA).
  rewrite E. cbn [shape].
  apply has_shape2_spec in HA as [HA1 HA2].
  pose proof (sd_dim _ _ _ _ Hsame) as Hd.
  destruct A as [|a A]; [simpl in HA1; lia|].
  apply Forall_cons in HA2 as [Ha _].
  unfold ncols. cbn [hd]. rewrite HA1, Ha, Nat.eqb_refl. reflexivity.
Qed.

Lemma check_columns_pass (v : vec R) t0 s l :
  length v = d ->
  (forall gk, gk ∈ l -> exists k, gs !! k = Some gk) ->
  check_columns d v t0 (map Some l) s = (s, Ok tt).
Proof.
  intros Hv Hl. induction l as [|gk l IH]; [reflexivity|].
  cbn [map check_columns].
  destruct (Hl gk (list_elem_of_here _ _)) as [k Hk].
  rewrite (sd_columns _ _ _ _ Hsame k gk v t0 Hk Hv). cbn [shape].
  rewrite length_col, call_mat_rows by exact Hv.
  rewrite bool_decide_eq_true_2 by reflexivity.
  apply IH. intros gk' Hgk'. apply Hl. now apply list_elem_of_further.
Qed.

Lemma check_G_columns (v : vec R) t0 s :
  length v = d -> check_G d (GSeq (map Some gs)) v t0 s = (s, Ok (length gs)).
Proof.
  intros Hv. unfold check_G.
  rewrite (bind_ok _ _ _ _ tt (check_columns_pass v t0 s gs Hv
             (fun gk Hgk => proj1 (list_elem_of_lookup _ _) Hgk))).
  rewrite length_map. reflexivity.
Qed.

Lemma body_matrix tspan dW I m normalized downsample n y Yn Gn s :
  _Roessler2010_SRK2_body f (GCallable g) tspan dW I m normalized downsample
    n (y, Yn, Gn) s
  = (y' ← record n downsample y (srk2_next f g tspan dW I m normalized n Yn);
     mret (y', srk2_next f g tspan dW I m normalized n Yn,
           call_mat g Yn (nth n tspan r0))) (S s).
Proof.
  unfold _Roessler2010_SRK2_body. rewrite bind_unfold.
  change (tick s) with (S s, Ok tt). cbv iota beta.
  cbn [have_separate_g call_G]. rewrite bind_unfold.
  cbn [mret M_ret ret]. cbv iota beta. rewrite bind_unfold.
  rewrite (for_each_pure _ _
             (srk2_stage g _ _ (nth (n + 1) tspan r0) _))
    by (intros; reflexivity).
  reflexivity.
Qed.

Lemma body_columns tspan dW I normalized downsample n y Yn Gn s :
  length Yn = d -> has_shape2 d (length gs) Gn = true ->
  _Roessler2010_SRK2_body f (GSeq (map Some gs)) tspan dW I (length gs)
    normalized downsample n (y, Yn, Gn) s
  = (y' ← record n downsample y (srk2_next f g tspan dW I (length gs) normalized n Yn);
     mret (y', srk2_next f g tspan dW I (length gs) normalized n Yn,
           call_mat g Yn (nth n tspan r0))) (S s).
Proof.
  intros HY HG.
  unfold _Roessler2010_SRK2_body. rewrite bind_unfold.
  change (tick s) with (S s, Ok tt). cbv iota beta.
  cbn [have_separate_g]. rewrite bind_unfold.
  rewrite (for_each_pure _ _
             (fun k Gn => set_col k (col k (call_mat g Yn (nth n tspan r0))) Gn)).
  2:{ intros k Gn' s' Hk. apply elem_of_seq in Hk.
      rewrite bind_unfold, call_Gk_column by (lia || exact HY). reflexivity. }
  unfold range.
  rewrite (fill_columns_all d (length gs)) by (exact HG || now apply call_mat_shape).
  cbv iota beta. rewrite bind_unfold.
  assert (HH20 : length (vadd Yn (vmuls (call_vec f Yn (nth n tspan r0))
                   (nth (n + 1) tspan r0 - nth n tspan r0)%num)) = d).
  { rewrite length_vadd, length_vmuls, (sd_drift _ _ _ _ Hsame) by exact HY.
    lia. }
  set (tn := nth n tspan r0) in *. set (tn1 := nth (n + 1) tspan r0) in *.
  set (sqrth := rsqrt (tn1 - tn)%num) in *.
  set (H20 := vadd Yn _) in *.
  set (sum1 := mdivs (mdotm (call_mat g Yn tn) (nth n I [])) sqrth) in *.
  assert (Hsum1 : length sum1 = d).
  { unfold sum1. rewrite length_mdivs, length_mdotm. now apply call_mat_rows. }
  rewrite (for_each_pure _ _
             (srk2_stage g (col_plus H20 sum1) (col_minus H20 sum1) tn1 sqrth)).
  2:{ intros k Y' s' Hk. apply elem_of_seq in Hk.
      rewrite bind_unfold, call_Gk_column; [|lia|].
      2:{ rewrite length_col, length_col_plus, HH20, Hsum1. lia. }
      rewrite bind_unfold, call_Gk_column; [reflexivity|lia|].
      rewrite length_col, length_col_minus, HH20, Hsum1. lia. }
  reflexivity.
Qed.

Lemma length_srk2_next tspan dW I m normalized n Yn :
  length Yn = d -> length (srk2_next f g tspan dW I m normalized n Yn) = d.
Proof.
  intros HY. unfold srk2_next. cbv zeta. rewrite length_normalize_if.
  set (tn := nth n tspan r0). set (tn1 := nth (n + 1) tspan r0).
  set (sqrth := rsqrt (tn1 - tn)%num).
  set (H20 := vadd Yn (vmuls (call_vec f Yn tn) (tn1 - tn)%num)).
  set (sum1 := mdivs (mdotm (call_mat g Yn tn) (nth n I [])) sqrth).
  assert (HH20 : length H20 = d).
  { unfold H20. rewrite length_vadd, length_vmuls, (sd_drift _ _ _ _ Hsame)
      by exact HY. lia. }
  assert (Hsum1 : length sum1 = d).
  { unfold sum1. rewrite length_mdivs, length_mdotm. now apply call_mat_rows. }
  set (Y0 := vadd (vadd Yn _) _).
  assert (HY0 : length Y0 = d).
  { unfold Y0. rewrite !length_vadd, length_smulv, length_vadd, !length_vmuls,
      length_mdotv, call_mat_rows, !(sd_drift _ _ _ _ Hsame) by assumption.
    lia. }
  clearbody Y0. revert Y0 HY0.
  induction (seq 0 m) as [|k ks IH]; intros Y0 HY0; [exact HY0|].
  cbn [foldl]. apply IH. unfold srk2_stage, vsub.
  rewrite length_vadd, length_smulv, length_zip_with, !length_col, !call_mat_rows.
  - lia.
  - rewrite length_col, length_col_minus. lia.
  - rewrite length_col, length_col_plus. lia.
Qed.

(** The loops agree from a state of the right shape. *)
Lemma loops_agree tspan dW I normalized downsample ns y Yn Gn s :
  length Yn = d -> has_shape2 d (length gs) Gn = true ->
  for_each ns
    (_Roessler2010_SRK2_body f (GSeq (map Some gs)) tspan dW I (length gs)
       normalized downsample) (y, Yn, Gn) s
  = for_each ns
      (_Roessler2010_SRK2_body f (GCallable g) tspan dW I (length gs)
         normalized downsample) (y, Yn, Gn) s.
Proof.
  intros HY HG.
  apply (for_each_ext_inv
           (fun st => length (snd (fst st)) = d
                      /\ has_shape2 d (length gs) (snd st) = true)).
  - intros n [[y' Yn'] Gn'] s' [HY' HG']. cbn [fst snd] in *.
    rewrite body_columns, body_matrix by assumption. reflexivity.
  - intros n [[y' Yn'] Gn'] s0 s1 [[y1 Yn1] Gn1] [HY' HG']. cbn [fst snd] in *.
    rewrite body_matrix, bind_unfold, record_eq.
    destruct (record_outcome _ _ _ _); [|discriminate].
    intros [= _ _ <- <-]. split.
    + now apply length_srk2_next.
    + now apply call_mat_shape.
  - split; assumption.
Qed.

(** The validation agrees but for the diffusion it hands back. *)
Lemma check_args_agree dt (v : vec R) tspan dW IJ H s :
  length v = d ->
  _check_args f (GSeq (map Some gs)) (Y0Arr dt v) tspan dW IJ H s
  = match _check_args f (GCallable g) (Y0Arr dt v) tspan dW IJ H s with
    | (s', Ok (d0, m0, f0, _, y0, tspan0, dW0, IJ0)) =>
        (s', Ok (d0, m0, f0, GSeq (map Some gs), y0, tspan0, dW0, IJ0))
    | (s', Raise e) => (s', Raise e)
    end.
Proof.
  intros Hv. unfold _check_args. rewrite !bind_unfold.
  destruct (check_spacing tspan s) as [s1 [[]|e]]; [|reflexivity].
  cbn [promote_scalar]. unfold mret, M_ret, ret. cbv iota beta.
  cbn [arr_data]. rewrite !bind_unfold.
  destruct (py_len _ s1) as [s2 [lf|e]]; [|reflexivity].
  destruct (negb _); [reflexivity|].
  cbn [arr_data]. rewrite !bind_unfold, Hv, check_G_matrix, check_G_columns by exact Hv.
  cbv iota beta.
  rewrite !bind_unfold.
  destruct (check_dW _ _ _ s2) as [s3 [[]|e]]; [|reflexivity].
  rewrite !bind_unfold.
  destruct (check_IJ _ _ _ s3) as [s4 [[]|e]]; [|reflexivity].
  rewrite !bind_unfold.
  destruct (check_H _ _ _ _ _ s4) as [s5 [[]|e]]; reflexivity.
Qed.
End Proofs.

Lemma setitem_first {A} (a : list A) (x dflt : A) s s' a' :
  setitem a 0 x s = (s', Ok a') -> nth 0 a' dflt = x.
Proof.
  unfold setitem. cbv zeta. destruct a as [|a0 a].
  - cbn. discriminate.
  - cbn [length]. rewrite Nat2Z.inj_succ.
    destruct (_ && _) eqn:E.
    + intros [= _ <-]. reflexivity.
    + rewrite andb_false_r. discriminate.
Qed.

(** Where the two conventions do agree.  For a state given as an array that
    is not empty and has the element type of the values, with the diffusion
    given both as a matrix function [g] and as the list [gs] of its column
    functions, the Roessler kernel returns the same result either way, for
    every grid, realization [(dW, IJ)] and options: the same trajectory, or
    the same error after the same number of steps.  So do [itoSRI2] and
    [stratSRS2].  (The list form collects the columns in a buffer of the
    element type of the state, the matrix form uses the matrix as it is:
    for a state of another element type they differ by that conversion.) *)
Lemma SRK2_columns_agree_on_arrays (f g : pyfun R)
    (gs : list (pyfun R)) (dt : dtype) (v : vec R) (tspan : vec R)
    (IJmethod : mat R -> R -> mat R * ten R) (dW IJ : option (value R))
    (normalized : bool) (downsample : nat) :
  same_diffusion f g gs (length v) ->
  dt = native ->
  forall s,
    _Roessler2010_SRK2 deltaW f (GSeq (map Some gs)) (Y0Arr dt v) tspan
      IJmethod dW IJ normalized downsample s
    = _Roessler2010_SRK2 deltaW f (GCallable g) (Y0Arr dt v) tspan
        IJmethod dW IJ normalized downsample s
    /\ itoSRI2 deltaW f (GSeq (map Some gs)) (Y0Arr dt v) tspan
         IJmethod dW IJ normalized downsample s
       = itoSRI2 deltaW f (GCallable g) (Y0Arr dt v) tspan
           IJmethod dW IJ normalized downsample s
    /\ stratSRS2 deltaW f (GSeq (map Some gs)) (Y0Arr dt v) tspan
         IJmethod dW IJ normalized s
       = stratSRS2 deltaW f (GCallable g) (Y0Arr dt v) tspan
           IJmethod dW IJ normalized s.
Proof.
  intros Hsame _ s. unfold itoSRI2, stratSRS2.
  enough (Hk : forall downsample,
    _Roessler2010_SRK2 deltaW f (GSeq (map Some gs)) (Y0Arr dt v) tspan
      IJmethod dW IJ normalized downsample s
    = _Roessler2010_SRK2 deltaW f (GCallable g) (Y0Arr dt v) tspan
        IJmethod dW IJ normalized downsample s)
    by (repeat split; apply Hk).
  clear downsample. intros downsample. unfold _Roessler2010_SRK2.
  rewrite !bind_unfold, (check_args_agree f g gs (length v) Hsame) by reflexivity.
  destruct (_check_args f (GCallable g) _ _ _ _ _ s)
    as [s1 [[[[[[[[d0 m0] f0] G0] y0] ts0] dW0] IJ0]|e]] eqn:E; [|reflexivity].
  apply check_args_inv in E as (-> & -> & -> & -> & [_ Hp Hd _ HG _ _ _]).
  cbn [promote_scalar] in Hp. injection Hp as <- <- <-. cbn [arr_data] in *.
  subst d0.
  rewrite (check_G_matrix f g gs (length v) Hsame) in HG by reflexivity.
  injection HG as <-.
  cbv iota beta. rewrite !bind_unfold.
  destruct (n_record _ _ s) as [s2 [N_record|e]]; [|reflexivity].
  rewrite !bind_unfold.
  destruct (first_entry_type _ s2) as [s2' [ty|e]]; [|reflexivity].
  rewrite !bind_unfold.
  destruct (setitem _ 0 v s2') as [s3 [y|e]] eqn:Ey; [|reflexivity].
  rewrite !bind_unfold.
  rewrite (loops_agree f g gs (length v) Hsame).
  - reflexivity.
  - apply (setitem_first _ _ []) in Ey. now rewrite Ey.
  - apply has_shape2_zeros.
Qed.
End ColumnFunctions.

Section ColumnFunctionsRun.
Import Float64 Example.

Lemma linear_same_diffusion :
  same_diffusion linear_drift linear_noise [linear_noise_column] 1.
Proof.
  split.
  - lia.
  - intros y t Hy. unfold call_vec. cbn. now rewrite length_map.
  - intros y t Hy. eexists. split; [reflexivity|].
    destruct y as [|x [|]]; try discriminate. reflexivity.
  - intros [|k] gk y t Hk Hy; [|discriminate].
    injection Hk as <-.
    destruct y as [|x [|]]; try discriminate. reflexivity.
Qed.

(** On the grid [0, 1, 2] with given increments and repeated integrals
    the two calls agree, and return a trajectory. *)
Lemma SRK2_columns_agree_run :
  (_Roessler2010_SRK2 no_deltaW linear_drift
     (GSeq (map Some [linear_noise_column])) (Y0Arr float64 [1%float])
     (grid 3) no_IJmethod (Some (Arr2 [[1%float]; [0.5%float]]))
     (Some (Arr3 [[[0.25%float]]; [[0.125%float]]])) false 1 0%nat
   = _Roessler2010_SRK2 no_deltaW linear_drift
       (GCallable linear_noise) (Y0Arr float64 [1%float])
       (grid 3) no_IJmethod (Some (Arr2 [[1%float]; [0.5%float]]))
       (Some (Arr3 [[[0.25%float]]; [[0.125%float]]])) false 1 0%nat)
  /\ exists y,
      _Roessler2010_SRK2 no_deltaW linear_drift
        (GCallable linear_noise) (Y0Arr float64 [1%float])
        (grid 3) no_IJmethod (Some (Arr2 [[1%float]; [0.5%float]]))
        (Some (Arr3 [[[0.25%float]]; [[0.125%float]]])) false 1 0%nat
      = (2%nat, Ok (Output y None)).
Proof.
  split.
  - apply (SRK2_columns_agree_on_arrays no_deltaW linear_drift
             linear_noise [linear_noise_column] float64 [1%float] (grid 3)
             no_IJmethod (Some (Arr2 [[1%float]; [0.5%float]]))
             (Some (Arr3 [[[0.25%float]]; [[0.125%float]]])) false 1
             linear_same_diffusion eq_refl 0%nat).
  - eexists. vm_compute. reflexivity.
Qed.

(** C8 (the code departs from the claim).  The two conventions are not
    interchangeable for a scalar initial state, which the validation turns
    into a system of dimension one: the scalar equation
    [dy = -y dt + 0.5 y dW] from [y0 = 1.0] is integrated when its diffusion
    is given as one function, and refused with [TypeError] at entry when it
    is given as the list of its one column function, because the scalar
    branch of the validation calls [G] before the code looks at whether [G]
    is callable.  The same list is integrated, to the same trajectory, when
    the state is given as the array [[1.0]]. *)
Theorem SRK2_column_list_refused_for_scalar_state :
  forall (deltaW : nat -> nat -> float -> mat float),
    let dW := Some (Arr2 [[1%float]; [0.5%float]]) in
    let IJ := Some (Arr3 [[[0.25%float]]; [[0.125%float]]]) in
    let rows := [[1.0625%float]; [0.830078125%float]; [0%float]] in
    itoSRI2 deltaW scalar_drift (GCallable scalar_noise) (Y0Num py_float 1%float)
      (grid 3) no_IJmethod dW IJ false 1 0%nat
      = (2%nat, Ok (Output rows None))
    /\ itoSRI2 deltaW scalar_drift (GSeq [Some linear_noise_column])
         (Y0Num py_float 1%float) (grid 3) no_IJmethod dW IJ false 1 0%nat
       = (0%nat, Raise TypeError)
    /\ stratSRS2 deltaW scalar_drift (GCallable scalar_noise)
         (Y0Num py_float 1%float) (grid 3) no_IJmethod dW IJ false 0%nat
       = (2%nat, Ok (Output rows None))
    /\ stratSRS2 deltaW scalar_drift (GSeq [Some linear_noise_column])
         (Y0Num py_float 1%float) (grid 3) no_IJmethod dW IJ false 0%nat
       = (0%nat, Raise TypeError)
    /\ itoSRI2 deltaW linear_drift (GSeq [Some linear_noise_column])
         (Y0Arr float64 [1%float]) (grid 3) no_IJmethod dW IJ false 1 0%nat
       = (2%nat, Ok (Output rows None)).
Proof. intros deltaW. repeat split; vm_compute; reflexivity. Qed.
End ColumnFunctionsRun.

(** * Further properties of the code *)

(** ** The validation on its own results *)

Section ValidationAgain.
Context {R : Type} `{SR : Scalar R}.
Variable deltaW : nat -> nat -> R -> mat R.

Lemma check_spacing_pass (tspan : vec R) s :
  evenly_spaced tspan = true -> check_spacing tspan s = (s, Ok tt).
Proof.
  unfold evenly_spaced, check_spacing.
  destruct (diff tspan) as [|x l]; [discriminate|]. now intros ->.
Qed.

Lemma check_spacing_inv (tspan : vec R) s s' :
  check_spacing tspan s = (s', Ok tt) ->
  evenly_spaced tspan = true /\ (2 <= length tspan)%nat.
Proof.
  unfold evenly_spaced, check_spacing.
  destruct tspan as [|a [|b t]]; try discriminate.
  cbn [diff length]. destruct (risclose _ _); [|discriminate].
  intros _. split; [reflexivity | lia].
Qed.

(** What the validation hands back passes the validation unchanged. *)
Lemma validated_again f G (y0 : y0_arg R) tspan dW IJ H d m f' G' y0' s :
  validated f G y0 tspan dW IJ H d m f' G' y0' s ->
  forall s1,
    validated f' G' (Y0Arr (arr_dtype y0') (arr_data y0')) tspan dW IJ H
      d m f' G' y0' s1.
Proof.
  intros Hv s1.
  destruct (validated_at _ _ _ _ _ _ _ _ _ _ _ _ _ Hv s1)
    as [H1 H2 H3 H4 H5 H6 H7 H8].
  split; try assumption. destruct y0'. reflexivity.
Qed.

(** The checks before the one of [H] do not look at [H]. *)
Lemma check_args_raise_any_H f G (y0 : y0_arg R) tspan dW IJ H s s' e :
  _check_args f G y0 tspan dW IJ None s = (s', Raise e) ->
  _check_args f G y0 tspan dW IJ H s = (s', Raise e).
Proof.
  unfold _check_args. rewrite !bind_unfold.
  destruct (check_spacing tspan s) as [s1 [[]|e1]]; [|trivial].
  rewrite !bind_unfold.
  destruct (promote_scalar f G y0 _ s1) as [s2 [[[f1 G1] y1]|e2]]; [|trivial].
  rewrite !bind_unfold.
  destruct (py_len _ s2) as [s3 [lf|e3]]; [|trivial].
  destruct (negb _); [trivial|].
  rewrite !bind_unfold.
  destruct (check_G _ _ _ _ s3) as [s4 [m0|e4]]; [|trivial].
  rewrite !bind_unfold.
  destruct (check_dW _ _ _ s4) as [s5 [[]|e5]]; [|trivial].
  rewrite !bind_unfold.
  destruct (check_IJ _ _ _ s5) as [s6 [[]|e6]]; [|trivial].
  cbn [check_H]. rewrite bind_unfold. discriminate.
Qed.

(** X1.  Validation is idempotent: the function, diffusion, state array,
    grid and realization that [_check_args] returns are accepted by
    [_check_args] again, which returns them unchanged together with the
    same [d] and [m]; a scalar system is promoted once. *)
Theorem validation_idempotent f G (y0 : y0_arg R) tspan dW IJ H s s'
    d m f' G' y0' tspan' dW' IJ' :
  _check_args f G y0 tspan dW IJ H s
    = (s', Ok (d, m, f', G', y0', tspan', dW', IJ')) ->
  forall s1,
    _check_args f' G' (Y0Arr (arr_dtype y0') (arr_data y0')) tspan' dW' IJ' H s1
    = (s1, Ok (d, m, f', G', y0', tspan', dW', IJ')).
Proof.
  intros E s1.
  apply check_args_inv in E as (_ & -> & -> & -> & Hv).
  apply check_args_intro. eapply validated_again, Hv.
Qed.

Section Defaults.
Variable Ikpw : mat R -> R -> mat R * ten R.
Variable Jkpw : mat R -> R -> mat R * ten R.

(** The kernel on validated arguments validates them once more, to no
    effect. *)
Lemma SRK2_on_validated f G (y0 : y0_arg R) tspan dW IJ s s' d m f' G' y0'
    tspan' dW' IJ' IJmethod normalized downsample :
  _check_args f G y0 tspan dW IJ None s
    = (s', Ok (d, m, f', G', y0', tspan', dW', IJ')) ->
  _Roessler2010_SRK2 deltaW f' G' (Y0Arr (arr_dtype y0') (arr_data y0')) tspan
    IJmethod dW IJ normalized downsample s'
  = _Roessler2010_SRK2 deltaW f G y0 tspan IJmethod dW IJ normalized downsample s.
Proof.
  intros E. unfold _Roessler2010_SRK2.
  rewrite (bind_ok _ _ _ _ _ E).
  apply check_args_inv in E as (-> & -> & -> & -> & Hv).
  rewrite (bind_ok _ _ _ _ _
             (check_args_intro _ _ _ _ _ _ _ _ _ _ _ _ _
                (validated_again _ _ _ _ _ _ _ _ _ _ _ _ _ Hv s))).
  reflexivity.
Qed.

(** X2.  [itoint] is [itoSRI2] with its defaults ([Imethod = Ikpw], no
    [dW], no [I], [downsample = 1]), on every input: the validation that
    [itoint] runs first changes neither the result nor the error. *)
Theorem itoint_is_itoSRI2 f G (y0 : y0_arg R) tspan normalized s :
  itoint deltaW Ikpw f G y0 tspan normalized s
  = itoSRI2 deltaW f G y0 tspan Ikpw None None normalized 1 s.
Proof.
  unfold itoint, itoSRI2.
  destruct (_check_args f G y0 tspan None None None s)
    as [s1 [[[[[[[[d m] f'] G'] y0'] ts] dW'] IJ']|e]] eqn:E.
  - rewrite (bind_ok _ _ _ _ _ E). cbv iota beta zeta.
    pose proof E as E'.
    apply check_args_inv in E' as (_ & -> & _ & _ & _).
    unfold itoSRI2. apply (SRK2_on_validated _ _ _ _ _ _ _ _ _ _ _ _ _ _ _ _ _ _ _ E).
  - unfold _Roessler2010_SRK2.
    rewrite !(bind_raise _ _ _ _ _ E). reflexivity.
Qed.

(** X3.  [stratint] is [stratSRS2] with its defaults ([Jmethod = Jkpw],
    no [dW], no [J]), on every input. *)
Theorem stratint_is_stratSRS2 f G (y0 : y0_arg R) tspan normalized s :
  stratint deltaW Jkpw f G y0 tspan normalized s
  = stratSRS2 deltaW f G y0 tspan Jkpw None None normalized s.
Proof.
  unfold stratint, stratSRS2.
  destruct (_check_args f G y0 tspan None None None s)
    as [s1 [[[[[[[[d m] f'] G'] y0'] ts] dW'] IJ']|e]] eqn:E.
  - rewrite (bind_ok _ _ _ _ _ E). cbv iota beta zeta.
    pose proof E as E'.
    apply check_args_inv in E' as (_ & -> & _ & _ & _).
    unfold stratSRS2. apply (SRK2_on_validated _ _ _ _ _ _ _ _ _ _ _ _ _ _ _ _ _ _ _ E).
  - unfold _Roessler2010_SRK2.
    rewrite !(bind_raise _ _ _ _ _ E). reflexivity.
Qed.
End Defaults.
End ValidationAgain.

Section ValidationAgainRun.
Import Float64 Example.

(** The scalar equation with the integer state [1]: what its validation
    returns is validated to itself. *)
Lemma validation_idempotent_witness :
  _check_args (make_vector_fn scalar_drift)
    (GCallable (make_matrix_fn scalar_noise)) (Y0Arr float64 [1%float])
    (grid 3) None None None 0%nat
  = (0%nat, Ok (1%nat, 1%nat, make_vector_fn scalar_drift,
                GCallable (make_matrix_fn scalar_noise),
                Array1 float64 [1%float], grid 3, None, None)).
Proof.
  apply (validation_idempotent scalar_drift (GCallable scalar_noise)
           (Y0Num py_int 1%float) (grid 3) None None None 0%nat 0%nat
           1%nat 1%nat (make_vector_fn scalar_drift)
           (GCallable (make_matrix_fn scalar_noise))
           (Array1 float64 [1%float]) (grid 3) None None).
  vm_compute. reflexivity.
Defined.
End ValidationAgainRun.

(** ** Inputs the validation turns down *)

Section Rejections.
Context {R : Type} `{SR : Scalar R} `{CS : !ComplexScalar R}.
Variable deltaW : nat -> nat -> R -> mat R.
Variable fsolve : (vec R -> vec R) -> vec R -> R -> vec R * Z * string.

(** X4.  [numItoMilstein] on a system given as arrays, with a single
    diffusion function, is [itoMilstein] with the tensor function
    [gen_H_numerical(G, eps)]: the validation it runs first, without [H],
    raises nothing that the validation of [itoMilstein] would not raise,
    and hands the arguments on as they are. *)
Theorem numItoMilstein_is_itoMilstein f g dt (v : vec R) tspan Imethod dW I
    (normalized : bool) downsample eps s :
  numItoMilstein deltaW f (GCallable g) (Y0Arr dt v) tspan Imethod dW I
    normalized downsample eps s
  = itoMilstein deltaW f (GCallable g)
      (Some (HCallable (gen_H_numerical g eps)))
      (Y0Arr dt v) tspan Imethod dW I normalized downsample s.
Proof.
  unfold numItoMilstein.
  destruct (_check_args f (GCallable g) (Y0Arr dt v) tspan dW I None s)
    as [s1 [[[[[[[[d m] f'] G'] y0'] ts] dW'] IJ']|e]] eqn:E.
  - rewrite (bind_ok _ _ _ _ _ E). cbv iota beta.
    apply check_args_inv in E as (-> & -> & -> & -> & [_ Hp _ _ _ _ _ _]).
    cbn [promote_scalar] in Hp. injection Hp as <- <- <-. reflexivity.
  - rewrite (bind_raise _ _ _ _ _ E). unfold itoMilstein.
    symmetry. apply bind_raise, check_args_raise_any_H, E.
Qed.

(** X5.  A grid of fewer than two points is not reported as a grid of
    unequal steps: every integrator raises [ValueError], from the minimum
    of the empty sequence of its steps, before anything else is looked at. *)
Theorem short_grid_raises_ValueError a f G (y0 : y0_arg R) tspan dW IJ :
  (length tspan < 2)%nat ->
  raises_at_entry (call deltaW fsolve a f G y0 tspan dW IJ) ValueError.
Proof.
  intros Hlen. apply call_starts_with_validation. intros H s.
  unfold _check_args. apply bind_raise.
  destruct tspan as [|t0 [|t1 ts]]; [reflexivity | reflexivity |].
  cbn [length] in Hlen. lia.
Qed.

(** X6.  A scalar initial state together with a list of column functions
    is not accepted: on an evenly spaced grid every integrator raises
    [TypeError] at entry, because the branch for scalar equations calls
    [G] before its kind is examined. *)
Theorem scalar_state_with_column_list a f gs ty (x : R) tspan dW IJ :
  evenly_spaced tspan = true ->
  raises_at_entry
    (call deltaW fsolve a f (GSeq gs) (Y0Num ty x) tspan dW IJ) TypeError.
Proof.
  intros Hs. apply call_starts_with_validation. intros H s.
  unfold _check_args.
  rewrite (bind_ok _ _ _ _ _ (check_spacing_pass tspan s Hs)).
  apply bind_raise. reflexivity.
Qed.

Lemma py_len_shape (v : value R) n sh s :
  shape v = Some (n :: sh) -> py_len v s = (s, Ok n).
Proof.
  destruct v; cbn; try discriminate; intros [= <- _]; reflexivity.
Qed.

(** X7.  On an evenly spaced grid, a drift whose value at [(y0, t0)] has
    a first dimension other than the length of [y0] is rejected by every
    integrator, at entry, with the error that names the shapes of [y0] and
    [f]. *)
Theorem drift_of_wrong_length a f G dt (v : vec R) tspan dW IJ n sh :
  evenly_spaced tspan = true ->
  shape (fn_call f (Arr1 v) (nth 0 tspan r0)) = Some (n :: sh) ->
  n <> length v ->
  raises_at_entry
    (call deltaW fsolve a f G (Y0Arr dt v) tspan dW IJ)
    (SDEValueError msg_f_shape).
Proof.
  intros Hs Hf Hn. apply call_starts_with_validation. intros H s.
  unfold _check_args.
  rewrite (bind_ok _ _ _ _ _ (check_spacing_pass tspan s Hs)).
  cbn [promote_scalar]. rewrite bind_unfold. cbn [mret M_ret ret].
  cbv iota beta. cbn [arr_data].
  rewrite (bind_ok _ _ _ _ _ (py_len_shape _ _ _ s Hf)).
  apply Nat.eqb_neq in Hn. rewrite Hn. reflexivity.
Qed.

(** The loop over the column functions passes exactly when each entry
    does. *)
Lemma check_columns_spec d (y0 : vec R) t0 gs s :
  check_columns d y0 t0 gs s
  = (s, if forallb (column_ok d y0 t0) gs then Ok tt
        else Raise (SDEValueError (msg_G d))).
Proof.
  induction gs as [|[g|] gs IH]; cbn [check_columns forallb column_ok];
    [reflexivity| |reflexivity].
  destruct (bool_decide _); [exact IH | reflexivity].
Qed.

Lemma check_G_malformed G (v : vec R) t0 s :
  malformed_G G v t0 ->
  check_G (length v) G v t0 s = (s, Raise (SDEValueError (msg_G (length v)))).
Proof.
  destruct G as [g|gs]; cbn [malformed_G check_G].
  - intros (_ & sh & -> & Hsh).
    destruct sh as [|r [|c [|c' sh]]]; try reflexivity.
    destruct (Nat.eqb_spec r (length v)) as [->|_]; [|reflexivity].
    now destruct (Hsh c).
  - intros Hbad. apply bind_raise. rewrite check_columns_spec, Hbad.
    reflexivity.
Qed.

(** X8.  On an evenly spaced grid and with a drift of the right length,
    a diffusion that has not the required form at [(y0, t0)] (a function
    whose value is an array of another shape than [(d, m)], or a list with
    an entry that is not callable or does not return shape [(d,)]) is
    rejected by every integrator, at entry, with the message that names
    [d]. *)
Theorem malformed_G_rejected a f G dt (v : vec R) tspan dW IJ sh :
  evenly_spaced tspan = true ->
  shape (fn_call f (Arr1 v) (nth 0 tspan r0)) = Some (length v :: sh) ->
  malformed_G G v (nth 0 tspan r0) ->
  raises_at_entry
    (call deltaW fsolve a f G (Y0Arr dt v) tspan dW IJ)
    (SDEValueError (msg_G (length v))).
Proof.
  intros Hs Hf HG. apply call_starts_with_validation. intros H s.
  unfold _check_args.
  rewrite (bind_ok _ _ _ _ _ (check_spacing_pass tspan s Hs)).
  cbn [promote_scalar]. rewrite bind_unfold. cbn [mret M_ret ret].
  cbv iota beta. cbn [arr_data].
  rewrite (bind_ok _ _ _ _ _ (py_len_shape _ _ _ s Hf)), Nat.eqb_refl.
  cbn [negb]. apply bind_raise, check_G_malformed, HG.
Qed.
End Rejections.

Section RejectionsRun.
Import Complex128 ComplexExample ShapeExamples.

(** A grid of one point. *)
Lemma short_grid_raises_ValueError_witness :
  call never_deltaW never_fsolve (StratHeun false)
    unit_drift (GCallable unit_noise) (Y0Arr float64 [of_float 0])
    [of_float 0] None None 0%nat
  = (0%nat, Raise ValueError).
Proof.
  apply (short_grid_raises_ValueError never_deltaW never_fsolve
           (StratHeun false) unit_drift (GCallable unit_noise)
           (Y0Arr float64 [of_float 0]) [of_float 0] None None).
  simpl. lia.
Defined.

(** The state [0.0] with a list of one column function. *)
Lemma scalar_state_with_column_list_witness :
  call never_deltaW never_fsolve (ItoSRI2 never_IJmethod false 1)
    unit_drift (GSeq [Some unit_noise]) (Y0Num py_float (of_float 0))
    even_grid None None 0%nat
  = (0%nat, Raise TypeError).
Proof.
  apply (scalar_state_with_column_list never_deltaW never_fsolve
           (ItoSRI2 never_IJmethod false 1) unit_drift [Some unit_noise]
           py_float (of_float 0) even_grid None None).
  vm_compute. reflexivity.
Defined.

(** A drift with two entries on a state with one. *)
Lemma drift_of_wrong_length_witness :
  call never_deltaW never_fsolve (ItoEuler false 1)
    long_drift (GCallable unit_noise) (Y0Arr float64 [of_float 0])
    even_grid None None 0%nat
  = (0%nat, Raise (SDEValueError msg_f_shape)).
Proof.
  apply (drift_of_wrong_length never_deltaW never_fsolve (ItoEuler false 1)
           long_drift (GCallable unit_noise) float64 [of_float 0] even_grid
           None None 2%nat []).
  - vm_compute. reflexivity.
  - reflexivity.
  - simpl. lia.
Defined.

(** A diffusion function that returns a vector, and a list whose entry is
    not callable. *)
Lemma malformed_G_rejected_witness :
  call never_deltaW never_fsolve (ItoEuler false 1)
    unit_drift (GCallable flat_noise) (Y0Arr float64 [of_float 0])
    even_grid None None 0%nat
  = (0%nat, Raise (SDEValueError (msg_G 1)))
  /\ call never_deltaW never_fsolve (ItoSRI2 never_IJmethod false 1)
       unit_drift (GSeq [Some flat_noise; None]) (Y0Arr float64 [of_float 0])
       even_grid None None 0%nat
     = (0%nat, Raise (SDEValueError (msg_G 1))).
Proof.
  split.
  - apply (malformed_G_rejected never_deltaW never_fsolve (ItoEuler false 1)
             unit_drift (GCallable flat_noise) float64 [of_float 0] even_grid
             None None []).
    + vm_compute. reflexivity.
    + reflexivity.
    + split; [reflexivity|]. exists [1%nat]. split; [reflexivity | discriminate].
  - apply (malformed_G_rejected never_deltaW never_fsolve
             (ItoSRI2 never_IJmethod false 1)
             unit_drift (GSeq [Some flat_noise; None]) float64 [of_float 0]
             even_grid None None []).
    + vm_compute. reflexivity.
    + reflexivity.
    + reflexivity.
Defined.
End RejectionsRun.

(** ** What a successful validation has established *)

Section Validated.
Context {R : Type} `{SR : Scalar R}.
Variable deltaW : nat -> nat -> R -> mat R.

Lemma check_args_ok_at f G (y0 : y0_arg R) tspan dW IJ H s s1 r :
  _check_args f G y0 tspan dW IJ H s = (s1, Ok r) ->
  forall s', _check_args f G y0 tspan dW IJ H s' = (s', Ok r).
Proof.
  intros E.
  assert (s1 = s) as -> by
    (eapply stateless_state; [apply stateless_check_args | exact E]).
  exact (stateless_at _ _ _ (stateless_check_args _ _ _ _ _ _ _) E).
Qed.

(** A system that passes with repeated integrals and a tensor function
    passes without them. *)
Lemma validated_drop f G (y0 : y0_arg R) tspan dW IJ H d m f' G' y0' s :
  validated f G y0 tspan dW IJ H d m f' G' y0' s ->
  validated f G y0 tspan dW None None d m f' G' y0' s.
Proof. intros [H1 H2 H3 H4 H5 H6 H7 H8]. split; try assumption; reflexivity. Qed.

Lemma check_args_drop f G (y0 : y0_arg R) tspan dW IJ H s s1 d m f' G' y0'
    tspan' dW' IJ' :
  _check_args f G y0 tspan dW IJ H s
    = (s1, Ok (d, m, f', G', y0', tspan', dW', IJ')) ->
  forall s', _check_args f G y0 tspan dW None None s'
             = (s', Ok (d, m, f', G', y0', tspan, dW, None)).
Proof.
  intros E s'. apply check_args_inv in E as (_ & _ & _ & _ & Hv).
  apply check_args_intro, validated_drop with (IJ := IJ) (H := H).
  eapply validated_at, Hv.
Qed.

(** Once the checks before it have passed, the check of [H] decides. *)
Lemma check_args_H_stage f G (y0 : y0_arg R) tspan dW IJ H H0 d m f' G' y0' s :
  validated f G y0 tspan dW IJ H0 d m f' G' y0' s ->
  _check_args f G y0 tspan dW IJ H s
  = (check_H d m H (arr_data y0') (nth 0 tspan r0);;
     mret (d, m, f', G', y0', tspan, dW, IJ)) s.
Proof.
  intros [H1 H2 H3 H4 H5 H6 H7 _]. unfold _check_args.
  rewrite (bind_ok _ _ _ _ _ H1), (bind_ok _ _ _ _ _ H2).
  cbv beta iota. rewrite <- H3.
  rewrite (bind_ok _ _ _ _ _ H4), Nat.eqb_refl. cbn [negb].
  rewrite (bind_ok _ _ _ _ _ H5), (bind_ok _ _ _ _ _ H6),
    (bind_ok _ _ _ _ _ H7).
  reflexivity.
Qed.

Lemma check_G_callable_inv d g (y0 : vec R) t0 s s' m :
  check_G d (GCallable g) y0 t0 s = (s', Ok m) ->
  shape (fn_call g (Arr1 y0) t0) = Some [d; m].
Proof.
  cbn [check_G].
  destruct (shape (fn_call g (Arr1 y0) t0)) as [[|r [|c [|c' sh]]]|];
    try discriminate.
  destruct (Nat.eqb_spec r d) as [->|_]; [|discriminate].
  cbn [negb]. intros [= _ <-]. reflexivity.
Qed.

(** X9.  What a successful validation has established: the grid has at
    least two points and passes the test of equal steps; [d] is the length
    of the state array; the drift returned has first dimension [d] at
    [(y0, t0)]; a single diffusion function has shape [(d, m)] there, and
    a list has [m] entries, each callable and of shape [(d,)]; increments
    and repeated integrals, when given, have the shapes
    [(len(tspan)-1, m)] and [(len(tspan)-1, m, m)]; the grid and the
    realization are handed back as they came and no step has begun. *)
Theorem validation_postcondition f G (y0 : y0_arg R) tspan dW IJ H s s'
    d m f' G' y0' tspan' dW' IJ' :
  _check_args f G y0 tspan dW IJ H s
    = (s', Ok (d, m, f', G', y0', tspan', dW', IJ')) ->
  let t0 := nth 0 tspan r0 in
  s' = s /\ tspan' = tspan /\ dW' = dW /\ IJ' = IJ
  /\ (2 <= length tspan)%nat /\ evenly_spaced tspan = true
  /\ d = length (arr_data y0')
  /\ (exists sh, shape (fn_call f' (Arr1 (arr_data y0')) t0) = Some (d :: sh))
  /\ match G' with
     | GCallable g' => shape (fn_call g' (Arr1 (arr_data y0')) t0) = Some [d; m]
     | GSeq gs =>
         m = length gs /\ forallb (column_ok d (arr_data y0') t0) gs = true
     end
  /\ (forall w, dW = Some w -> shape w = Some [(length tspan - 1)%nat; m])
  /\ (forall w, IJ = Some w -> shape w = Some [(length tspan - 1)%nat; m; m]).
Proof.
  intros E t0.
  apply check_args_inv in E as (-> & -> & -> & -> & [H1 H2 H3 H4 H5 H6 H7 H8]).
  fold t0 in H4, H5.
  apply check_spacing_inv in H1 as [Hs HN].
  do 4 (split; [reflexivity|]).
  split; [exact HN|]. split; [exact Hs|]. split; [exact H3|].
  split; [|split; [|split]].
  - destruct (fn_call f' (Arr1 (arr_data y0')) t0); cbn in H4 |- *;
      try discriminate; injection H4 as <-; eexists; reflexivity.
  - destruct G' as [g'|gs].
    + eapply check_G_callable_inv, H5.
    + cbn [check_G] in H5. rewrite bind_unfold, check_columns_spec in H5.
      destruct (forallb _ gs); [|discriminate].
      injection H5 as <-. split; reflexivity.
  - intros w ->. cbn [check_dW] in H6.
    destruct (bool_decide_reflect (shape w = Some [(length tspan - 1)%nat; m]));
      [assumption | discriminate].
  - intros w ->. cbn [check_IJ] in H7.
    destruct (bool_decide_reflect (shape w = Some [(length tspan - 1)%nat; m; m]));
      [assumption | discriminate].
Qed.

(** X10.  [itoMilstein] on a system that passes the other checks.  An
    [H] that is given ([H] is not [None]) and is not callable is refused
    with [NotImplementedError]; a callable [H] whose value at [(y0, t0)]
    has a shape [(a, b, c)] other than [(d, m, m)] is refused with
    [SDEValueError], the message being the one for the first dimension when
    [a <> d], else the one for the last two when [b <> c], else the one for
    [m], which is formatted with [d]; either way no step has begun.  With
    [H = None] nothing about [H] is checked: for a state that is not empty
    and a [downsample] that is not zero the call goes on to its first step,
    where calling [H] raises [TypeError] (the increments and the repeated
    integrals, given or generated, being of the shapes [(N-1, m)] and
    [(N-1, m, m)]). *)
Theorem Milstein_tensor_function_checked f G (y0 : y0_arg R) tspan Imethod
    dW I (normalized : bool) (downsample : nat) s d m f' G' y0' :
  _check_args f G y0 tspan dW I None s
    = (s, Ok (d, m, f', G', y0', tspan, dW, I)) ->
  raises_at_entry
    (itoMilstein deltaW f G (Some HNotCallable) y0 tspan Imethod dW I normalized
       downsample)
    (NotImplementedError msg_H_callable)
  /\ (forall h a b c,
       shape (fn_call h (Arr1 (arr_data y0')) (nth 0 tspan r0)) = Some [a; b; c] ->
       (a =? d)%nat && (b =? c)%nat && (b =? m)%nat = false ->
       raises_at_entry
         (itoMilstein deltaW f G (Some (HCallable h)) y0 tspan Imethod dW I
            normalized downsample)
         (SDEValueError
            (if negb (a =? d)%nat then msg_H_first d
             else if negb (b =? c)%nat then msg_H_last b c
             else msg_H_m d)))
  /\ ((0 < d)%nat -> (0 < downsample)%nat ->
      has_shape2 (length tspan - 1) m
        (get_dW deltaW dW (length tspan) m (step_size tspan)) = true ->
      has_shape3 (length tspan - 1) m m
        (get_IJ I Imethod (get_dW deltaW dW (length tspan) m (step_size tspan))
           (step_size tspan)) = true ->
      itoMilstein deltaW f G None y0 tspan Imethod dW I normalized downsample s
      = (S s, Raise TypeError)).
Proof.
  intros E. pose proof E as E0.
  apply check_args_inv in E as (_ & _ & _ & _ & Hv).
  split; [|split].
  - intros s'. unfold itoMilstein. apply bind_raise.
    rewrite (check_args_H_stage _ _ _ _ _ _ _ _ _ _ _ _ _ _
               (validated_at _ _ _ _ _ _ _ _ _ _ _ _ _ Hv s')).
    reflexivity.
  - intros h a b c Hsh Hbad s'. unfold itoMilstein. apply bind_raise.
    rewrite (check_args_H_stage _ _ _ _ _ _ _ _ _ _ _ _ _ _
               (validated_at _ _ _ _ _ _ _ _ _ _ _ _ _ Hv s')).
    apply bind_raise. cbn [check_H]. unfold shape_at. rewrite Hsh.
    cbn [lookup list_lookup]. munfold. cbv iota beta.
    destruct (a =? d)%nat; cbn [negb]; [|reflexivity].
    destruct (b =? c)%nat; cbn [negb]; [|reflexivity].
    cbn [andb] in Hbad. rewrite Hbad. reflexivity.
  - intros Hpos Hk _ _. destruct Hv as [Hs _ Hd _ _ _ _ _].
    apply check_spacing_inv in Hs as [_ HN].
    unfold itoMilstein. rewrite (bind_ok _ _ _ _ _ E0). cbv iota beta.
    rewrite (bind_ok _ _ _ _ _
               (n_record_rows (length tspan) downsample s ltac:(lia) Hk)).
    rewrite (bind_ok _ _ _ _ _ (first_entry_type_ok y0' s ltac:(lia))).
    change (setitem ?a 0 ?x) with (setitem a (Z.of_nat 0) x).
    rewrite bind_unfold, setitem_in_range
      by (unfold zeros2; rewrite length_replicate; lia).
    cbv iota beta. unfold range.
    destruct (length tspan - 1)%nat as [|N2] eqn:EN; [lia|].
    cbn [seq for_each]. rewrite !bind_unfold.
    unfold itoMilstein_body at 1. rewrite bind_unfold.
    change (tick s) with (S s, Ok tt). cbv iota beta.
    destruct G' as [g'|gs]; reflexivity.
Qed.

(** X11.  [itoImplicitEuler] on a system that passes validation: an
    [implicit_type] that is none of the three names fails the assertion,
    before the output is allocated and before any step. *)
Theorem unknown_implicit_type_asserted f G (y0 : y0_arg R) tspan dW
    (normalized : bool) (downsample : nat) implicit_type s d m f' G' y0' :
  _check_args f G y0 tspan dW None None s
    = (s, Ok (d, m, f', G', y0', tspan, dW, None)) ->
  implicit_type ∉ implicit_types ->
  raises_at_entry
    (itoImplicitEuler deltaW f G y0 tspan dW normalized downsample implicit_type)
    AssertionError.
Proof.
  intros E Hty s'. unfold itoImplicitEuler.
  rewrite (bind_ok _ _ _ _ _ (check_args_ok_at _ _ _ _ _ _ _ _ _ _ E s')).
  cbv iota beta. apply bind_raise.
  rewrite bool_decide_eq_false_2 by exact Hty. reflexivity.
Qed.

(** X12.  With [downsample = 0] the number of rows cannot be computed: on
    a system that passes validation, [itoEuler] and the Roessler kernel
    (so [itoSRI2]) raise [ZeroDivisionError] at entry. *)
Theorem zero_downsample_divides_by_zero f G (y0 : y0_arg R) tspan IJmethod
    dW IJ (normalized : bool) s s1 r :
  _check_args f G y0 tspan dW IJ None s = (s1, Ok r) ->
  raises_at_entry (itoEuler deltaW f G y0 tspan dW normalized 0)
    ZeroDivisionError
  /\ raises_at_entry
       (_Roessler2010_SRK2 deltaW f G y0 tspan IJmethod dW IJ normalized 0)
       ZeroDivisionError
  /\ raises_at_entry
       (itoSRI2 deltaW f G y0 tspan IJmethod dW IJ normalized 0)
       ZeroDivisionError.
Proof.
  intros E.
  destruct r as [[[[[[[d m] f'] G'] y0'] ts] dW'] IJ'].
  assert (HS : raises_at_entry
            (_Roessler2010_SRK2 deltaW f G y0 tspan IJmethod dW IJ normalized 0)
            ZeroDivisionError).
  { intros s'. unfold _Roessler2010_SRK2.
    rewrite (bind_ok _ _ _ _ _ (check_args_ok_at _ _ _ _ _ _ _ _ _ _ E s')).
    reflexivity. }
  split; [|split; [exact HS | exact HS]].
  intros s'. unfold itoEuler.
  rewrite (bind_ok _ _ _ _ _ (check_args_drop _ _ _ _ _ _ _ _ _ _ _ _ _ _ _ _ _ E s')).
  reflexivity.
Qed.

(** An empty state passes the validation when [f] and [G] return arrays of
    the shapes [(0,)] and [(0, m)]; it is refused where the output is
    allocated, with the element type [type(y0[0])]: the call raises
    [IndexError] before any step. *)
Lemma empty_state_raises_IndexError f G (y0 : y0_arg R) tspan dW
    (normalized : bool) k s m f' G' y0' :
  _check_args f G y0 tspan dW None None s
    = (s, Ok (0%nat, m, f', G', y0', tspan, dW, None)) ->
  (0 < k)%nat ->
  itoEuler deltaW f G y0 tspan dW normalized k s = (s, Raise IndexError)
  /\ (forall md,
        itoImplicitEuler deltaW f G y0 tspan dW normalized k (mode_name md) s
        = (s, Raise IndexError))
  /\ stratHeun deltaW f G y0 tspan dW normalized s = (s, Raise IndexError).
Proof.
  intros Hc Hk. pose proof Hc as Hv.
  apply check_args_inv in Hv as (_ & _ & _ & _ & [Hs _ Hd _ _ _ _ _]).
  apply check_spacing_inv in Hs as [_ HN].
  symmetry in Hd. apply nil_length_inv in Hd.
  pose proof (first_entry_type_empty y0' s Hd) as Hty.
  split; [|split].
  - unfold itoEuler. rewrite (bind_ok _ _ _ _ _ Hc). cbv iota beta.
    rewrite (bind_ok _ _ _ _ _
               (n_record_rows (length tspan) k s ltac:(lia) Hk)).
    apply bind_raise, Hty.
  - intros md. unfold itoImplicitEuler. rewrite (bind_ok _ _ _ _ _ Hc).
    cbv iota beta. rewrite mode_name_accepted.
    rewrite bind_unfold. cbn [mret M_ret ret]. cbv iota beta.
    rewrite (bind_ok _ _ _ _ _
               (n_record_rows (length tspan) k s ltac:(lia) Hk)).
    apply bind_raise, Hty.
  - unfold stratHeun. rewrite (bind_ok _ _ _ _ _ Hc). cbv iota beta.
    apply bind_raise, Hty.
Qed.
End Validated.

Section ValidatedRun.
Import Complex128 ComplexExample ShapeExamples.

(** The system [dy = dt + dW] on the grid [0, 1, 2]. *)
Lemma validation_postcondition_witness :
  (2 <= length even_grid)%nat
  /\ evenly_spaced even_grid = true
  /\ shape (fn_call unit_noise (Arr1 [of_float 0]) (of_float 0))
     = Some [1%nat; 1%nat].
Proof.
  destruct (validation_postcondition (SR := complex_scalar) unit_drift (GCallable unit_noise)
              (Y0Arr float64 [of_float 0]) even_grid None None None
              0%nat 0%nat 1%nat 1%nat unit_drift (GCallable unit_noise)
              (Array1 float64 [of_float 0]) even_grid None None
              ltac:(vm_compute; reflexivity))
    as (_ & _ & _ & _ & HN & Hs & _ & _ & HG & _).
  split; [exact HN|]. split; [exact Hs | exact HG].
Defined.

(** A tensor function that is no function, one of shape [(1, 2, 2)] where
    [m = 1], and none at all. *)
Lemma Milstein_tensor_function_checked_witness :
  let dW := Some (Arr2 [[of_float 0]; [of_float 0]]) in
  let I := Some (Arr3 [[[of_float 0]]; [[of_float 0]]]) in
  itoMilstein never_deltaW unit_drift (GCallable unit_noise) (Some HNotCallable)
    (Y0Arr complex128 [of_float 0]) even_grid never_IJmethod dW I false 1
    0%nat
  = (0%nat, Raise (NotImplementedError msg_H_callable))
  /\ itoMilstein never_deltaW unit_drift (GCallable unit_noise)
       (Some (HCallable wide_tensor)) (Y0Arr complex128 [of_float 0]) even_grid
       never_IJmethod dW I false 1 0%nat
     = (0%nat, Raise (SDEValueError (msg_H_m 1)))
  /\ itoMilstein never_deltaW unit_drift (GCallable unit_noise) None
       (Y0Arr complex128 [of_float 0]) even_grid never_IJmethod dW I
       false 1 0%nat
     = (1%nat, Raise TypeError).
Proof.
  intros dW I.
  destruct (Milstein_tensor_function_checked (SR := complex_scalar) never_deltaW unit_drift
              (GCallable unit_noise) (Y0Arr complex128 [of_float 0]) even_grid
              never_IJmethod dW I false 1 0%nat 1%nat 1%nat unit_drift
              (GCallable unit_noise) (Array1 complex128 [of_float 0])
              ltac:(vm_compute; reflexivity))
    as (H1 & H2 & H3).
  split; [apply H1|]. split.
  - apply (H2 wide_tensor 1%nat 2%nat 2%nat); reflexivity.
  - apply H3; [lia | lia | reflexivity | reflexivity].
Defined.
End ValidatedRun.

Section ValidatedFloatRun.
Import Float64 Example.

(** The name ["explicit"] is none of the three. *)
Lemma unknown_implicit_type_asserted_witness :
  itoImplicitEuler no_deltaW drift_one (GCallable no_noise)
    (Y0Arr float64 [0%float]) (grid 3) (Some (zero_dW 2)) false 1 "explicit"
    0%nat
  = (0%nat, Raise AssertionError).
Proof.
  apply (unknown_implicit_type_asserted no_deltaW drift_one
           (GCallable no_noise) (Y0Arr float64 [0%float]) (grid 3)
           (Some (zero_dW 2)) false 1 "explicit" 0%nat 1%nat 1%nat drift_one
           (GCallable no_noise) (Array1 float64 [0%float])).
  - vm_compute. reflexivity.
  - apply (bool_decide_eq_false_1 ("explicit" ∈ implicit_types)). reflexivity.
Defined.

Lemma zero_downsample_divides_by_zero_witness :
  itoEuler no_deltaW drift_one (GCallable no_noise) (Y0Arr float64 [0%float])
    (grid 3) (Some (zero_dW 2)) false 0 0%nat
  = (0%nat, Raise ZeroDivisionError)
  /\ itoSRI2 no_deltaW drift_one (GCallable no_noise) (Y0Arr float64 [0%float])
       (grid 3) no_IJmethod (Some (zero_dW 2)) (Some (zero_IJ 2)) false 0 0%nat
     = (0%nat, Raise ZeroDivisionError).
Proof.
  destruct (zero_downsample_divides_by_zero (SR := float_scalar) no_deltaW drift_one
              (GCallable no_noise) (Y0Arr float64 [0%float]) (grid 3)
              no_IJmethod (Some (zero_dW 2)) (Some (zero_IJ 2)) false
              0%nat 0%nat
              (1%nat, 1%nat, drift_one, GCallable no_noise,
               Array1 float64 [0%float], grid 3, Some (zero_dW 2),
               Some (zero_IJ 2))
              ltac:(vm_compute; reflexivity))
    as (H1 & _ & H3).
  split; [apply H1 | apply H3].
Defined.
End ValidatedFloatRun.

(** ** The shape of the states *)

Section StateShapes.
Context {R : Type} `{SR : Scalar R}.

(** What [record] returns holds the old entries and, possibly, the new
    one. *)
Lemma record_Forall {A} (P : A -> Prop) n k (a a' : list A) x s s' :
  record n k a x s = (s', Ok a') -> Forall P a -> P x -> Forall P a'.
Proof.
  rewrite record_eq. unfold record_outcome. cbv zeta.
  intros E Ha Hx. destruct (retained n k).
  - destruct (_ && _).
    + injection E as _ <-. now apply Forall_insert.
    + destruct (_ && _); [|discriminate].
      injection E as _ <-. now apply Forall_insert.
  - injection E as _ <-. exact Ha.
Qed.

Lemma Forall_zeros n d : Forall (fun row : vec R => length row = d) (replicate n (zeros1 d)).
Proof. apply Forall_replicate. unfold zeros1. apply length_replicate. Qed.

Section System.
Variables (f g : pyfun R) (d m : nat).
Hypothesis Hds : documented_shapes f g d m.

Lemma length_call_vec y t : length y = d -> length (call_vec f y t) = d.
Proof.
  intros Hy. destruct (ds_drift _ _ _ _ Hds y t Hy) as (v & E & Hv).
  unfold call_vec. rewrite E. exact Hv.
Qed.

Lemma length_call_mat y t : length y = d -> length (call_mat g y t) = d.
Proof.
  intros Hy. destruct (ds_noise _ _ _ _ Hds y t Hy) as (A & E & HA).
  unfold call_mat. rewrite E. now apply has_shape2_spec in HA.
Qed.

Lemma length_euler_update tspan dW h normalized n yn :
  length yn = d -> length (euler_update f g tspan dW h normalized n yn) = d.
Proof.
  intros Hy. unfold euler_update.
  rewrite length_normalize_if, !length_vadd, length_vmuls, length_mdotv,
    length_call_vec, length_call_mat by exact Hy.
  lia.
Qed.

Lemma length_heun_update tspan dW h normalized n yn :
  length yn = d -> length (heun_update f g tspan dW h normalized n yn) = d.
Proof.
  intros Hy. unfold heun_update. cbv zeta.
  assert (Hbar : length (vadd (vadd yn (vmuls (call_vec f yn (nth n tspan r0)) h))
                           (mdotv (call_mat g yn (nth n tspan r0)) (nth n dW [])))
                 = d).
  { rewrite !length_vadd, length_vmuls, length_mdotv, length_call_vec,
      length_call_mat by exact Hy. lia. }
  rewrite length_normalize_if, !length_vadd, length_vmuls, !length_smulv,
    length_vadd, length_mdotv.
  unfold madd. rewrite length_zip_with.
  rewrite !length_call_vec, !length_call_mat by assumption.
  lia.
Qed.

Lemma length_Phi md h yn tn dWn z :
  length yn = d -> length z = d -> length (Phi md f g h yn tn dWn z) = d.
Proof.
  intros Hy Hz.
  destruct md; cbn [Phi];
    rewrite !length_vadd, length_vmuls, length_mdotv, length_call_vec,
      length_call_mat by assumption; lia.
Qed.

End System.
End StateShapes.

Section ExampleShapes.
Import Float64 Example.

Lemma constant_system_shapes : documented_shapes drift_one no_noise 1 1.
Proof. split; intros y t _; eexists; split; reflexivity. Qed.

End ExampleShapes.

Section ComplexExampleShapes.
Import Complex128 ComplexExample ShapeExamples.

Lemma unit_system_shapes : documented_shapes unit_drift unit_noise 1 1.
Proof. split; intros y t _; eexists; split; reflexivity. Qed.

Lemma zero_tensor_shape : documented_tensor zero_tensor 1 1.
Proof. intros y t _. eexists. split; reflexivity. Qed.
End ComplexExampleShapes.

(** ** The rows of a downsampled Euler-Maruyama run *)

Section Downsampling.
Context {R : Type} `{SR : Scalar R}.
Variable deltaW : nat -> nat -> R -> mat R.

(** A retained step after the first is written to row [n / k]. *)
Lemma record_index_retained n k :
  (0 < k)%nat -> (0 < n)%nat -> retained n k = true ->
  record_index n k = Z.of_nat (n / k).
Proof.
  intros Hk Hn Hr. unfold retained in Hr.
  apply Nat.eqb_eq, Nat.Div0.div_exact in Hr.
  generalize dependent (n / k)%nat. intros q Hq. subst n.
  rewrite Nat.mul_comm. apply record_index_multiple; [|exact Hk].
  destruct q; lia.
Qed.

(** With [1 < k <= N-1], the row of a retained step is at least [1], within
    the rows allocated, and either row [1] or a row [i] with [i k < N-1]. *)
Lemma record_index_in_range N1 k n :
  (1 < k <= N1)%nat -> (n < N1)%nat -> retained n k = true ->
  exists i, record_index n k = Z.of_nat i
            /\ (1 <= i <= N1 / k)%nat /\ (i = 1%nat \/ (i * k < N1)%nat).
Proof.
  intros Hk Hn Hr.
  assert (H1 : (1 <= N1 / k)%nat) by (apply Nat.div_str_pos; lia).
  destruct n as [|n].
  - exists 1%nat. rewrite record_index_first by lia. repeat split; auto; lia.
  - exists (S n / k)%nat. rewrite record_index_retained by (lia || exact Hr).
    unfold retained in Hr. apply Nat.eqb_eq, Nat.Div0.div_exact in Hr.
    split; [reflexivity|]. split; [split|].
    + destruct (S n / k)%nat; lia.
    + apply Nat.Div0.div_le_mono. lia.
    + right. lia.
Qed.

Lemma itoEuler_body_downsampled f g d m tspan dW h normalized k N1 n
    (y : mat R) yn s :
  documented_shapes f g d m ->
  (1 < k <= N1)%nat -> (n < N1)%nat -> length y = (N1 / k + 1)%nat ->
  Forall (fun row => length row = d) y -> length yn = d ->
  exists y1,
    itoEuler_body f (GCallable g) tspan dW h normalized k n (y, yn) s
    = (S s, Ok (y1, euler_update f g tspan dW h normalized n yn))
    /\ length y1 = length y
    /\ Forall (fun row => length row = d) y1
    /\ forall i, unwritten N1 k i -> y1 !! i = y !! i.
Proof.
  intros Hds Hk Hn Hlen Hy Hyn.
  assert (Hb : itoEuler_body f (GCallable g) tspan dW h normalized k n (y, yn) s
               = (y' ← record n k y (euler_update f g tspan dW h normalized n yn);
                  mret (y', euler_update f g tspan dW h normalized n yn)) (S s))
    by reflexivity.
  rewrite Hb, bind_unfold. unfold record.
  destruct (retained n k) eqn:Hr.
  - destruct (record_index_in_range N1 k n Hk Hn Hr) as (i & -> & Hi & Hi').
    rewrite setitem_in_range by lia.
    eexists. split; [reflexivity|]. split; [apply length_insert|]. split.
    + apply Forall_insert; [exact Hy|].
      now apply (length_euler_update f g d m Hds).
    + intros j Hj. apply list_lookup_insert_ne.
      destruct Hj as [->|[Hj1 Hj2]]; [lia|].
      destruct Hi' as [->|Hi']; [lia|]. intros ->. lia.
  - exists y. repeat split; try reflexivity. exact Hy.
Qed.

Lemma itoEuler_loop_downsampled f g d m tspan dW h normalized k N1 len :
  documented_shapes f g d m ->
  (1 < k <= N1)%nat ->
  forall a (y : mat R) yn s,
    (a + len <= N1)%nat -> length y = (N1 / k + 1)%nat ->
    Forall (fun row => length row = d) y -> length yn = d ->
    exists y' yn',
      for_each (seq a len)
        (itoEuler_body f (GCallable g) tspan dW h normalized k) (y, yn) s
      = ((s + len)%nat, Ok (y', yn'))
      /\ length y' = length y
      /\ Forall (fun row => length row = d) y'
      /\ forall i, unwritten N1 k i -> y' !! i = y !! i.
Proof.
  intros Hds Hk. induction len as [|len IH]; intros a y yn s Ha Hlen Hy Hyn.
  - exists y, yn. rewrite Nat.add_0_r. repeat split; try reflexivity. exact Hy.
  - cbn [seq for_each]. rewrite bind_unfold.
    destruct (itoEuler_body_downsampled f g d m tspan dW h normalized k N1 a
                y yn s)
      as (y1 & -> & Hlen1 & Hy1 & Hrows1); try assumption; [lia|].
    destruct (IH (S a) y1 (euler_update f g tspan dW h normalized a yn) (S s))
      as (y' & yn' & E & Hlen' & Hy' & Hrows'); [lia | congruence | exact Hy1 | |].
    { now apply (length_euler_update f g d m Hds). }
    exists y', yn'. split; [rewrite E; f_equal; lia|].
    split; [congruence|]. split; [exact Hy'|].
    intros i Hi. rewrite Hrows', Hrows1 by exact Hi. reflexivity.
Qed.

(** X13.  [itoEuler] with [1 < downsample <= N-1], on a system of the
    documented shapes that passes validation with a state that is not
    empty, with increments of the shape [(N-1, m)]: the call returns after [N-1] steps a trajectory of shape
    [(floor((N-1)/downsample) + 1, d)] whose first row is the initial
    state; and when [N-1] is [j] times [downsample] with [j >= 2], its
    last row, row [j], is the row of zeros it was allocated with: no step
    is written there. *)
Theorem downsampled_Euler_rows f G (y0 : y0_arg R) tspan dW
    (normalized : bool) k s d m f' g' y0' :
  _check_args f G y0 tspan dW None None s
    = (s, Ok (d, m, f', GCallable g', y0', tspan, dW, None)) ->
  (0 < d)%nat ->
  documented_shapes f' g' d m ->
  has_shape2 (length tspan - 1) m
    (get_dW deltaW dW (length tspan) m (step_size tspan)) = true ->
  (1 < k <= length tspan - 1)%nat ->
  exists out,
    itoEuler deltaW f G y0 tspan dW normalized k s
      = ((s + (length tspan - 1))%nat, Ok out)
    /\ has_shape2 ((length tspan - 1) / k + 1) d (trajectory out) = true
    /\ trajectory out !! 0%nat = Some (arr_data y0')
    /\ forall j, (2 <= j)%nat -> (length tspan - 1 = j * k)%nat ->
         trajectory out !! j = Some (zeros1 d).
Proof.
  intros Hc Hpos Hds _ Hk. unfold itoEuler. rewrite (bind_ok _ _ _ _ _ Hc).
  cbv iota beta.
  apply check_args_inv in Hc as (_ & _ & _ & _ & [_ _ Hd _ _ _ _ _]).
  rewrite (bind_ok _ _ _ _ _
             (n_record_rows (length tspan) k s ltac:(lia) ltac:(lia))).
  rewrite (bind_ok _ _ _ _ _ (first_entry_type_ok y0' s ltac:(lia))).
  set (N1 := (length tspan - 1)%nat) in *.
  change (setitem ?a 0 ?x) with (setitem a (Z.of_nat 0) x).
  rewrite bind_unfold, setitem_in_range
    by (unfold zeros2; rewrite length_replicate; lia).
  cbv iota beta. rewrite Nat.add_1_r.
  cbn [zeros2 replicate insert list_insert nth].
  destruct (itoEuler_loop_downsampled f' g' d m tspan
              (get_dW deltaW dW (length tspan) m (step_size tspan))
              (step_size tspan) normalized k N1 N1 Hds Hk 0%nat
              (arr_data y0' :: replicate (N1 / k) (zeros1 d)) (arr_data y0') s)
    as (y' & yn' & E & Hlen & Hy' & Hrows).
  { lia. }
  { cbn [length]. rewrite length_replicate. lia. }
  { apply Forall_cons. split; [congruence | apply Forall_zeros]. }
  { congruence. }
  unfold range. rewrite bind_unfold, E. cbv iota beta.
  eexists. split; [reflexivity|]. cbn [trajectory].
  split; [|split].
  - apply has_shape2_spec. split; [|exact Hy'].
    rewrite Hlen. cbn [length]. rewrite length_replicate. reflexivity.
  - rewrite Hrows by (left; reflexivity). reflexivity.
  - intros j Hj HN. rewrite Hrows by (right; lia).
    destruct j as [|j]; [lia|]. cbn [lookup list_lookup].
    apply lookup_replicate_2.
    assert (N1 / k = S j)%nat as ->; [|lia].
    rewrite HN. apply Nat.div_mul. lia.
Qed.

(** X14.  [itoEuler] with a [downsample] that is greater than [1] and than
    the number [N-1] of steps, on a system of the documented shapes that
    passes validation with a state that is not empty, with increments of
    the shape [(N-1, m)]: one row is allocated, and the call raises
    [IndexError] in its first step, which it writes to row [1]. *)
Theorem large_downsample_raises_IndexError f G (y0 : y0_arg R) tspan dW
    (normalized : bool) k s d m f' g' y0' :
  _check_args f G y0 tspan dW None None s
    = (s, Ok (d, m, f', GCallable g', y0', tspan, dW, None)) ->
  (0 < d)%nat ->
  documented_shapes f' g' d m ->
  has_shape2 (length tspan - 1) m
    (get_dW deltaW dW (length tspan) m (step_size tspan)) = true ->
  (1 < k)%nat -> (length tspan - 1 < k)%nat ->
  itoEuler deltaW f G y0 tspan dW normalized k s = (S s, Raise IndexError).
Proof.
  intros Hc Hpos _ _ Hk HN. unfold itoEuler. rewrite (bind_ok _ _ _ _ _ Hc).
  cbv iota beta.
  apply check_args_inv in Hc as (_ & _ & _ & _ & [Hs _ Hd _ _ _ _ _]).
  apply check_spacing_inv in Hs as [_ H2].
  rewrite (bind_ok _ _ _ _ _
             (n_record_rows (length tspan) k s ltac:(lia) ltac:(lia))).
  rewrite (bind_ok _ _ _ _ _ (first_entry_type_ok y0' s ltac:(lia))).
  rewrite Nat.div_small by exact HN.
  cbn [Nat.add zeros2 replicate].
  change (setitem ?a 0 ?x) with (setitem a (Z.of_nat 0) x).
  rewrite bind_unfold, setitem_in_range by (cbn [length]; lia).
  cbv iota beta. cbn [insert list_insert nth].
  unfold range. destruct (length tspan - 1)%nat as [|N2] eqn:EN; [lia|].
  cbn [seq for_each]. rewrite !bind_unfold.
  assert (Hb : forall y yn,
    itoEuler_body f' (GCallable g') tspan
      (get_dW deltaW dW (length tspan) m (step_size tspan)) (step_size tspan)
      normalized k 0 (y, yn) s
    = (y' ← record 0 k y
              (euler_update f' g' tspan
                 (get_dW deltaW dW (length tspan) m (step_size tspan))
                 (step_size tspan) normalized 0 yn);
       mret (y', euler_update f' g' tspan
                   (get_dW deltaW dW (length tspan) m (step_size tspan))
                   (step_size tspan) normalized 0 yn)) (S s))
    by reflexivity.
  rewrite Hb, bind_unfold. unfold record.
  assert (retained 0 k = true) as ->
    by (unfold retained; rewrite Nat.Div0.mod_0_l; reflexivity).
  rewrite record_index_first by exact Hk. reflexivity.
Qed.
End Downsampling.

Section DownsamplingRun.
Import Float64 Example.

(** Four steps with [downsample = 2]: three rows, the first the initial
    state and the last never written. *)
Lemma downsampled_Euler_rows_witness :
  exists out,
    itoEuler no_deltaW drift_one (GCallable no_noise) (Y0Arr float64 [5%float])
      (grid 5) (Some (zero_dW 4)) false 2 0%nat
    = (4%nat, Ok out)
    /\ has_shape2 3 1 (trajectory out) = true
    /\ trajectory out !! 0%nat = Some [5%float]
    /\ trajectory out !! 2%nat = Some [0%float].
Proof.
  destruct (downsampled_Euler_rows (SR := float_scalar) no_deltaW drift_one (GCallable no_noise)
              (Y0Arr float64 [5%float]) (grid 5) (Some (zero_dW 4)) false 2
              0%nat 1%nat 1%nat drift_one no_noise (Array1 float64 [5%float])
              ltac:(vm_compute; reflexivity) ltac:(lia) constant_system_shapes
              ltac:(reflexivity) ltac:(simpl; lia))
    as (out & E & Hlen & H0 & Hlast).
  exists out. split; [exact E|]. split; [exact Hlen|]. split; [exact H0|].
  exact (Hlast 2%nat ltac:(lia) ltac:(reflexivity)).
Defined.

(** Two steps with [downsample = 3]. *)
Lemma large_downsample_raises_IndexError_witness :
  itoEuler no_deltaW drift_one (GCallable no_noise) (Y0Arr float64 [0%float])
    (grid 3) (Some (zero_dW 2)) false 3 0%nat
  = (1%nat, Raise IndexError).
Proof.
  apply (large_downsample_raises_IndexError no_deltaW drift_one
           (GCallable no_noise) (Y0Arr float64 [0%float]) (grid 3)
           (Some (zero_dW 2)) false 3 0%nat 1%nat 1%nat drift_one no_noise
           (Array1 float64 [0%float])).
  - vm_compute. reflexivity.
  - lia.
  - exact constant_system_shapes.
  - reflexivity.
  - lia.
  - simpl. lia.
Defined.
End DownsamplingRun.

(** ** The Heun recurrence *)

Section Heun.
Context {R : Type} `{SR : Scalar R}.
Variable deltaW : nat -> nat -> R -> mat R.

(** Step [n] reads row [n] and writes row [n+1]. *)
Lemma stratHeun_body_callable f g tspan dW h (normalized : bool) n (y : mat R) s :
  (S n < length y)%nat ->
  stratHeun_body f (GCallable g) tspan dW h normalized n y s
  = (S s, Ok (<[S n := heun_update f g tspan dW h normalized n (nth n y [])]> y)).
Proof.
  intros Hn. unfold stratHeun_body, heun_update. cbn [call_G].
  munfold. cbv beta iota zeta.
  replace (Z.of_nat n + 1) with (Z.of_nat (S n)) by lia.
  rewrite setitem_in_range by exact Hn.
  destruct normalized; cbn [normalize_if]; [|reflexivity].
  rewrite setitem_in_range by (rewrite length_insert; exact Hn).
  rewrite list_insert_insert_eq, Nat.add_1_r.
  rewrite (nth_lookup_Some _ _ _ _ (list_lookup_insert_eq _ _ _ Hn)).
  reflexivity.
Qed.

(** The steps from [a] on leave the rows up to [a] alone, and each row they
    write is the Heun update of the row before it. *)
Lemma stratHeun_loop f g d m tspan dW h (normalized : bool) len :
  documented_shapes f g d m ->
  forall a (y : mat R) s,
    (a + len < length y)%nat ->
    Forall (fun row => length row = d) y ->
    exists y',
      for_each (seq a len) (stratHeun_body f (GCallable g) tspan dW h normalized)
        y s = ((s + len)%nat, Ok y')
      /\ length y' = length y
      /\ Forall (fun row => length row = d) y'
      /\ (forall i, (i <= a)%nat -> y' !! i = y !! i)
      /\ forall n, (a <= n < a + len)%nat ->
           y' !! S n
           = Some (heun_update f g tspan dW h normalized n (nth n y' [])).
Proof.
  intros Hds. induction len as [|len IH]; intros a y s Ha Hy.
  - exists y. rewrite Nat.add_0_r. repeat split; try reflexivity; [exact Hy | lia].
  - cbn [seq for_each]. rewrite bind_unfold, stratHeun_body_callable by lia.
    set (u := heun_update f g tspan dW h normalized a (nth a y [])).
    assert (Hu : length u = d).
    { apply (length_heun_update f g d m Hds).
      destruct (lookup_lt_is_Some_2 y a ltac:(lia)) as [row Hrow].
      rewrite (nth_lookup_Some _ _ _ _ Hrow).
      exact (Forall_lookup_1 _ _ _ _ Hy Hrow). }
    destruct (IH (S a) (<[S a := u]> y) (S s))
      as (y' & E & Hlen & Hy' & Hlow & Hstep);
      [rewrite length_insert; lia | now apply Forall_insert |].
    exists y'. split; [rewrite E; f_equal; lia|].
    split; [rewrite Hlen; apply length_insert|].
    split; [exact Hy'|]. split.
    + intros i Hi. rewrite Hlow by lia. apply list_lookup_insert_ne. lia.
    + intros n Hn. destruct (Nat.eq_dec n a) as [->|Hne].
      * rewrite Hlow by lia. rewrite list_lookup_insert_eq by lia.
        f_equal. unfold u. f_equal.
        rewrite !nth_lookup, Hlow by lia.
        rewrite list_lookup_insert_ne by lia. reflexivity.
      * apply Hstep. lia.
Qed.

(** X15.  [stratHeun] on a system of the documented shapes that passes
    validation with a state that is not empty and has the element type of
    the values (each step reads its state back from the trajectory
    buffer), with increments of the shape [(N-1, m)]: the call returns
    after [N-1] steps a trajectory of shape [(N, d)], with one row for
    each point of the grid; the first row is the initial state, and row
    [n+1] is the Heun update of row [n] (divided by its norm when
    [normalized]). *)
Theorem Heun_trajectory f G (y0 : y0_arg R) tspan dW (normalized : bool)
    s d m f' g' y0' :
  _check_args f G y0 tspan dW None None s
    = (s, Ok (d, m, f', GCallable g', y0', tspan, dW, None)) ->
  (0 < d)%nat ->
  arr_dtype y0' = native ->
  documented_shapes f' g' d m ->
  has_shape2 (length tspan - 1) m
    (get_dW deltaW dW (length tspan) m (step_size tspan)) = true ->
  exists out,
    stratHeun deltaW f G y0 tspan dW normalized s
      = ((s + (length tspan - 1))%nat, Ok out)
    /\ has_shape2 (length tspan) d (trajectory out) = true
    /\ trajectory out !! 0%nat = Some (arr_data y0')
    /\ forall n, (n < length tspan - 1)%nat ->
         trajectory out !! S n
         = Some (heun_update f' g' tspan
                   (get_dW deltaW dW (length tspan) m (step_size tspan))
                   (step_size tspan) normalized n (nth n (trajectory out) [])).
Proof.
  intros Hc Hpos _ Hds _. unfold stratHeun. rewrite (bind_ok _ _ _ _ _ Hc).
  cbv iota beta.
  apply check_args_inv in Hc as (_ & _ & _ & _ & [Hs _ Hd _ _ _ _ _]).
  apply check_spacing_inv in Hs as [_ HN].
  rewrite (bind_ok _ _ _ _ _ (first_entry_type_ok y0' s ltac:(lia))).
  change (setitem ?a 0 ?x) with (setitem a (Z.of_nat 0) x).
  rewrite bind_unfold, setitem_in_range
    by (unfold zeros2; rewrite length_replicate; lia).
  cbv iota beta.
  destruct (stratHeun_loop f' g' d m tspan
              (get_dW deltaW dW (length tspan) m (step_size tspan))
              (step_size tspan) normalized (length tspan - 1) Hds 0
              (<[0%nat := arr_data y0']> (zeros2 (length tspan) d)) s)
    as (y' & E & Hlen & Hy' & Hlow & Hstep).
  { rewrite length_insert. unfold zeros2. rewrite length_replicate. lia. }
  { apply Forall_insert; [apply Forall_zeros | congruence]. }
  unfold range. rewrite bind_unfold, E. cbv iota beta.
  eexists. split; [reflexivity|]. cbn [trajectory].
  split; [|split].
  - apply has_shape2_spec. split; [|exact Hy'].
    rewrite Hlen, length_insert. unfold zeros2. apply length_replicate.
  - rewrite Hlow by lia. apply list_lookup_insert_eq.
    unfold zeros2. rewrite length_replicate. lia.
  - intros n Hn. apply Hstep. lia.
Qed.
End Heun.

(** ** A list of column functions outside the Roessler schemes *)

Section ColumnListElsewhere.
Context {R : Type} `{SR : Scalar R}.
Variable deltaW : nat -> nat -> R -> mat R.

(** X16.  A list of column functions passes the validation, whose message
    offers this form of [G], but [itoEuler], [itoImplicitEuler] and
    [stratHeun] call [G] as a function: on arguments that pass validation
    with [G] a list and a state that is not empty, a drift of shape [(d,)]
    at the initial state and increments of the shape [(N-1, m)], they raise
    [TypeError] in the first step. *)
Theorem column_list_fails_at_first_step f G (y0 : y0_arg R) tspan dW
    (normalized : bool) k s d m f' gs y0' :
  _check_args f G y0 tspan dW None None s
    = (s, Ok (d, m, f', GSeq gs, y0', tspan, dW, None)) ->
  (0 < d)%nat ->
  shape (fn_call f' (Arr1 (arr_data y0')) (nth 0 tspan r0)) = Some [d] ->
  has_shape2 (length tspan - 1) m
    (get_dW deltaW dW (length tspan) m (step_size tspan)) = true ->
  (0 < k)%nat ->
  itoEuler deltaW f G y0 tspan dW normalized k s = (S s, Raise TypeError)
  /\ (forall md,
        itoImplicitEuler deltaW f G y0 tspan dW normalized k (mode_name md) s
        = (S s, Raise TypeError))
  /\ stratHeun deltaW f G y0 tspan dW normalized s = (S s, Raise TypeError).
Proof.
  intros Hc Hpos _ _ Hk.
  pose proof Hc as Hv.
  apply check_args_inv in Hv as (_ & _ & _ & _ & [Hs _ Hd _ _ _ _ _]).
  apply check_spacing_inv in Hs as [_ HN].
  assert (Hty : first_entry_type y0' s = (s, Ok (arr_dtype y0')))
    by (apply first_entry_type_ok; lia).
  assert (Hrange : range (length tspan - 1) = 0%nat :: seq 1 (length tspan - 2)).
  { unfold range. replace (length tspan - 1)%nat with (S (length tspan - 2)) by lia.
    reflexivity. }
  assert (Hrows : (0 < length (zeros2 ((length tspan - 1) / k + 1) d : mat R))%nat)
    by (unfold zeros2; rewrite length_replicate; lia).
  split; [|split].
  - unfold itoEuler. rewrite (bind_ok _ _ _ _ _ Hc). cbv iota beta.
    rewrite (bind_ok _ _ _ _ _
               (n_record_rows (length tspan) k s ltac:(lia) ltac:(lia))).
    rewrite (bind_ok _ _ _ _ _ Hty).
    change (setitem ?a 0 ?x) with (setitem a (Z.of_nat 0) x).
    rewrite bind_unfold, setitem_in_range by exact Hrows.
    cbv iota beta. rewrite Hrange. reflexivity.
  - intros md. unfold itoImplicitEuler. rewrite (bind_ok _ _ _ _ _ Hc).
    cbv iota beta. rewrite mode_name_accepted.
    rewrite bind_unfold. cbn [mret M_ret ret]. cbv iota beta.
    rewrite (bind_ok _ _ _ _ _
               (n_record_rows (length tspan) k s ltac:(lia) ltac:(lia))).
    rewrite (bind_ok _ _ _ _ _ Hty).
    change (setitem ?a 0 ?x) with (setitem a (Z.of_nat 0) x).
    rewrite bind_unfold, setitem_in_range by exact Hrows.
    cbv iota beta. rewrite Hrange. destruct md; reflexivity.
  - unfold stratHeun. rewrite (bind_ok _ _ _ _ _ Hc). cbv iota beta.
    rewrite (bind_ok _ _ _ _ _ Hty).
    change (setitem ?a 0 ?x) with (setitem a (Z.of_nat 0) x).
    rewrite bind_unfold, setitem_in_range
      by (unfold zeros2; rewrite length_replicate; lia).
    cbv iota beta. rewrite Hrange. reflexivity.
Qed.
End ColumnListElsewhere.

Section HeunRun.
Import Float64 Example.

(** [dy = dt] from [y0 = 5]: the second row is the Heun update [6] of the
    first. *)
Lemma Heun_trajectory_witness :
  exists out,
    stratHeun no_deltaW drift_one (GCallable no_noise) (Y0Arr float64 [5%float])
      (grid 3) (Some (zero_dW 2)) false 0%nat
    = (2%nat, Ok out)
    /\ has_shape2 3 1 (trajectory out) = true
    /\ trajectory out !! 0%nat = Some [5%float]
    /\ trajectory out !! 1%nat = Some [6%float].
Proof.
  destruct (Heun_trajectory (SR := float_scalar) no_deltaW drift_one (GCallable no_noise)
              (Y0Arr float64 [5%float]) (grid 3) (Some (zero_dW 2)) false
              0%nat 1%nat 1%nat drift_one no_noise (Array1 float64 [5%float])
              ltac:(vm_compute; reflexivity) ltac:(lia) eq_refl
              constant_system_shapes ltac:(reflexivity))
    as (out & E & Hlen & H0 & Hstep).
  exists out. split; [exact E|]. split; [exact Hlen|]. split; [exact H0|].
  rewrite (Hstep 0%nat ltac:(simpl; lia)), (nth_lookup_Some _ _ _ _ H0).
  reflexivity.
Defined.

(** A list of one column function. *)
Lemma column_list_fails_at_first_step_witness :
  itoEuler no_deltaW drift_one (GSeq [Some no_noise_column])
    (Y0Arr float64 [0%float]) (grid 3) (Some (zero_dW 2)) false 1 0%nat
  = (1%nat, Raise TypeError)
  /\ stratHeun no_deltaW drift_one (GSeq [Some no_noise_column])
       (Y0Arr float64 [0%float]) (grid 3) (Some (zero_dW 2)) false 0%nat
     = (1%nat, Raise TypeError).
Proof.
  destruct (column_list_fails_at_first_step (SR := float_scalar) no_deltaW drift_one
              (GSeq [Some no_noise_column]) (Y0Arr float64 [0%float]) (grid 3)
              (Some (zero_dW 2)) false 1 0%nat 1%nat 1%nat drift_one
              [Some no_noise_column] (Array1 float64 [0%float])
              ltac:(vm_compute; reflexivity) ltac:(lia) ltac:(reflexivity)
              ltac:(reflexivity) ltac:(lia))
    as (H1 & _ & H3).
  split; [exact H1 | exact H3].
Defined.
End HeunRun.

(** ** The implicit two-step scheme and its solver *)

Section TwoStepScheme.
Context {R : Type} `{SR : Scalar R}.
Variable deltaW : nat -> nat -> R -> mat R.

Lemma bind_ext {A B} (m : M A) (k1 k2 : A -> M B) s :
  (forall a s', k1 a s' = k2 a s') -> (m ≫= k1) s = (m ≫= k2) s.
Proof.
  intros Hk. rewrite !bind_unfold. destruct (m s) as [s' [a|e]]; auto.
Qed.




Lemma stratKP2iS_body_first fsolve1 fsolve2 f G tspan dW J d m gam al1 al2 rtol
    (normalized : bool) (st : mat R * option (vec R) * option (vec R)) s :
  stratKP2iS_body fsolve1 f G tspan dW J d m gam al1 al2 rtol normalized 0 st s
  = stratKP2iS_body fsolve2 f G tspan dW J d m gam al1 al2 rtol normalized 0 st s.
Proof. destruct st as [[y fn] Vn]. reflexivity. Qed.

(** X18.  On a grid of two points [stratKP2iS] takes its only step by the
    explicit scheme: the outcome is the same whatever the solver. *)
Theorem KP2iS_single_step_needs_no_solver fsolve1 fsolve2 f G (y0 : y0_arg R)
    tspan Jmethod gam al1 al2 rtol dW J (normalized : bool) s :
  length tspan = 2%nat ->
  stratKP2iS deltaW fsolve1 f G y0 tspan Jmethod gam al1 al2 rtol dW J
    normalized s
  = stratKP2iS deltaW fsolve2 f G y0 tspan Jmethod gam al1 al2 rtol dW J
      normalized s.
Proof.
  intros Hlen. unfold stratKP2iS.
  destruct (_check_args f G y0 tspan dW J None s)
    as [s1 [[[[[[[[d m] f'] G'] y0'] ts] dW'] J']|e]] eqn:E.
  2:{ rewrite !(bind_raise _ _ _ _ _ E). reflexivity. }
  rewrite !(bind_ok _ _ _ _ _ E). cbv iota beta.
  apply check_args_inv in E as (_ & -> & _ & _ & _).
  apply bind_ext; intros [] s2. apply bind_ext; intros [] s3.
  cbv zeta. apply bind_ext; intros ty s4. apply bind_ext; intros y s5.
  rewrite Hlen. change (range (2 - 1)) with [0%nat]. cbn [for_each].
  rewrite !bind_unfold.
  rewrite (stratKP2iS_body_first fsolve1 fsolve2). reflexivity.
Qed.
End TwoStepScheme.

(** ** The explicit ports of the quasi-implicit scheme *)

Section Ports.

Lemma ports_not_in_Some idxs (ps : list nat) s :
  ports_not_in idxs (Some ps) s = (s, Ok (filter (fun i => i ∉ ps) idxs)).
Proof.
  induction idxs as [|i idxs IH]; [reflexivity|].
  cbn [ports_not_in]. rewrite bind_unfold, IH. cbn [mret M_ret ret].
  rewrite filter_cons.
  destruct (decide (i ∉ ps)), (bool_decide_reflect (i ∈ ps));
    try contradiction; reflexivity.
Qed.

(** X19.  When [implicit_ports] is a list, the explicit ports computed by
    [itoQuasiImplicitEuler] are the channels [0 .. m-1] that the list does
    not name, in increasing order and each once: every channel is either
    explicit or named implicit, never both. *)
Theorem explicit_ports_complement m (ps : list nat) s :
  exists l,
    ports_not_in (range m) (Some ps) s = (s, Ok l)
    /\ l `sublist_of` range m
    /\ forall i, i ∈ l <-> (i < m)%nat /\ i ∉ ps.
Proof.
  exists (filter (fun i => i ∉ ps) (range m)).
  split; [apply ports_not_in_Some|]. split; [apply sublist_filter|].
  intros i. rewrite list_elem_of_filter. unfold range. rewrite elem_of_seq.
  split; intros [H1 H2]; split; auto; lia.
Qed.

Lemma explicit_ports_in_range m (ps : list nat) :
  forallb (fun p => (p <? m)%nat) (filter (fun i => i ∉ ps) (range m)) = true.
Proof.
  apply forallb_forall. intros p Hp%list_elem_of_In%list_elem_of_filter.
  destruct Hp as [_ Hp%elem_of_seq]. apply Nat.ltb_lt. lia.
Qed.

Lemma port_out_of_range m (ps : list nat) p :
  p ∈ ps -> (m <= p)%nat -> forallb (fun p => (p <? m)%nat) ps = false.
Proof.
  intros Hp Hm. destruct (forallb _ ps) eqn:E; [|reflexivity].
  rewrite forallb_forall in E.
  specialize (E p (proj1 (list_elem_of_In _ _) Hp)).
  apply Nat.ltb_lt in E. lia.
Qed.
End Ports.

Section PortsOutOfRange.
Context {R : Type} `{SR : Scalar R}.
Variable deltaW : nat -> nat -> R -> mat R.

Lemma quasi_implicit_body_port_error f g tspan dW h (normalized : bool) k
    expl impl n (y : mat R) (norms yn : vec R) s :
  forallb (fun p => (p <? ncols (call_mat g yn (nth n tspan r0)))%nat) expl = true ->
  forallb (fun p => (p <? ncols (call_mat g yn (nth n tspan r0)))%nat) impl = false ->
  itoQuasiImplicitEuler_body f (GCallable g) tspan dW h normalized k expl impl
    n (y, norms, yn) s
  = (S s, Raise IndexError).
Proof.
  intros He Hi. unfold itoQuasiImplicitEuler_body. rewrite bind_unfold.
  change (tick s) with (S s, Ok tt). cbv iota beta.
  cbn [call_G]. rewrite bind_unfold. cbn [mret M_ret ret]. cbv iota beta.
  rewrite bind_unfold. unfold take_cols at 1. rewrite He.
  cbn [mret M_ret ret]. cbv iota beta.
  rewrite bind_unfold. unfold take_cols at 1. rewrite Hi. reflexivity.
Qed.

(** X20.  [itoQuasiImplicitEuler] does not check the entries of
    [implicit_ports]: on arguments that pass validation with a state that
    is not empty, a single diffusion function and increments of the shape
    [(N-1, m)], a list
    that names a channel [p >= m] is accepted at entry and raises
    [IndexError] in the first step, where the columns of [G] are
    selected. *)
Theorem implicit_port_out_of_range f G (y0 : y0_arg R) tspan dW
    (normalized : bool) k ps p s d m f' g' y0' :
  _check_args f G y0 tspan dW None None s
    = (s, Ok (d, m, f', GCallable g', y0', tspan, dW, None)) ->
  (0 < d)%nat ->
  has_shape2 (length tspan - 1) m
    (get_dW deltaW dW (length tspan) m (step_size tspan)) = true ->
  (0 < k)%nat -> p ∈ ps -> (m <= p)%nat ->
  itoQuasiImplicitEuler deltaW f G y0 tspan dW normalized k (Some ps) s
  = (S s, Raise IndexError).
Proof.
  intros Hc Hpos _ Hk Hp Hm.
  pose proof Hc as Hv.
  apply check_args_inv in Hv as (_ & _ & _ & _ & [Hs _ Hd _ HG _ _ _]).
  apply check_spacing_inv in Hs as [_ HN].
  apply check_G_callable_inv in HG.
  assert (Hcols : ncols (call_mat g' (arr_data y0') (nth 0 tspan r0)) = m).
  { unfold call_mat.
    destruct (fn_call g' (Arr1 (arr_data y0')) (nth 0 tspan r0));
      cbn [shape] in HG; try discriminate.
    injection HG as _ <-. reflexivity. }
  assert (Hrange : range (length tspan - 1) = 0%nat :: seq 1 (length tspan - 2)).
  { unfold range. replace (length tspan - 1)%nat with (S (length tspan - 2)) by lia.
    reflexivity. }
  unfold itoQuasiImplicitEuler. rewrite (bind_ok _ _ _ _ _ Hc). cbv iota beta.
  rewrite (bind_ok _ _ _ _ _ (ports_not_in_Some (range m) ps s)).
  rewrite (bind_ok _ _ _ _ _
             (n_record_rows (length tspan) k s ltac:(lia) ltac:(lia))).
  rewrite (bind_ok _ _ _ _ _ (first_entry_type_ok y0' s ltac:(lia))).
  change (setitem ?a 0 ?x) with (setitem a (Z.of_nat 0) x).
  rewrite bind_unfold, setitem_in_range
    by (unfold zeros2; rewrite length_replicate; lia).
  cbv iota beta. rewrite Nat.add_1_r.
  cbn [zeros2 replicate insert list_insert nth].
  rewrite Hrange. cbn [for_each]. rewrite !bind_unfold.
  rewrite quasi_implicit_body_port_error; [reflexivity | |].
  - rewrite Hcols. apply explicit_ports_in_range.
  - rewrite Hcols. exact (port_out_of_range m ps p Hp Hm).
Qed.
End PortsOutOfRange.

Section TwoStepSchemeRun.
Import Float64 Example.


(** A failing solver and one that accepts its guess, on the grid [0, 1]. *)
Lemma KP2iS_single_step_needs_no_solver_witness :
  stratKP2iS no_deltaW no_fsolve drift_one (GCallable no_noise)
    (Y0Arr float64 [0%float]) (grid 2) no_IJmethod None None None
    1e-4%float (Some (zero_dW 1)) (Some (zero_IJ 1)) false 0%nat
  = stratKP2iS no_deltaW accept_guess drift_one (GCallable no_noise)
      (Y0Arr float64 [0%float]) (grid 2) no_IJmethod None None None
      1e-4%float (Some (zero_dW 1)) (Some (zero_IJ 1)) false 0%nat.
Proof.
  apply (KP2iS_single_step_needs_no_solver no_deltaW no_fsolve accept_guess).
  reflexivity.
Defined.
End TwoStepSchemeRun.

Section PortsOutOfRangeRun.
Import Float64 Example.

(** The channel [1] of a system with one channel. *)
Lemma implicit_port_out_of_range_witness :
  itoQuasiImplicitEuler no_deltaW drift_one (GCallable no_noise)
    (Y0Arr float64 [0%float]) (grid 3) (Some (zero_dW 2)) false 1 (Some [1%nat])
    0%nat
  = (1%nat, Raise IndexError).
Proof.
  apply (implicit_port_out_of_range no_deltaW drift_one (GCallable no_noise)
           (Y0Arr float64 [0%float]) (grid 3) (Some (zero_dW 2)) false 1
           [1%nat] 1%nat 0%nat 1%nat 1%nat drift_one no_noise
           (Array1 float64 [0%float])).
  - vm_compute. reflexivity.
  - lia.
  - reflexivity.
  - lia.
  - apply list_elem_of_here.
  - lia.
Defined.
End PortsOutOfRangeRun.

(** ** The numerically generated tensor function *)

Section NumericalTensor.
Context {R : Type} `{SR : Scalar R} `{CS : !ComplexScalar R}.

Lemma has_shape3_spec r c c' (T : ten R) :
  has_shape3 r c c' T = true
  <-> length T = r /\ Forall (fun A => has_shape2 c c' A = true) T.
Proof.
  unfold has_shape3. rewrite andb_true_iff, Nat.eqb_eq, forallb_forall, Forall_forall.
  split; intros [H1 H2]; (split; [exact H1|]); intros A HA.
  - apply H2, list_elem_of_In, HA.
  - apply H2, list_elem_of_In, HA.
Qed.

Lemma ncols_shape r c (A : mat R) :
  (0 < r)%nat -> has_shape2 r c A = true -> ncols A = c.
Proof.
  intros Hr [H1 H2]%has_shape2_spec. destruct A as [|a A]; [simpl in H1; lia|].
  apply Forall_cons in H2 as [Ha _]. exact Ha.
Qed.

Lemma hd_shape r c c' (T : ten R) :
  (0 < r)%nat -> has_shape3 r c c' T = true -> has_shape2 c c' (hd [] T) = true.
Proof.
  intros Hr [H1 H2]%has_shape3_spec. destruct T as [|A T]; [simpl in H1; lia|].
  apply Forall_cons in H2 as [HA _]. exact HA.
Qed.

Lemma has_shape2_table r c (entry : nat -> nat -> R) :
  has_shape2 r c (map (fun a => map (entry a) (range c)) (range r)) = true.
Proof.
  apply has_shape2_spec. unfold range. rewrite length_map, length_seq.
  split; [reflexivity|]. apply List.Forall_map, Forall_forall. intros a _.
  now rewrite length_map, length_seq.
Qed.

Section Shapes.
Variables (g : pyfun R) (eps : R) (d m : nat).
Hypothesis Hd : (0 < d)%nat.
Hypothesis Hm : (0 < m)%nat.
Hypothesis Hg : forall z t, length z = d ->
  exists A, fn_call g (Arr1 z) t = Arr2 A /\ has_shape2 d m A = true.

Lemma call_mat_has_shape z t :
  length z = d -> has_shape2 d m (call_mat g z t) = true.
Proof.
  intros Hz. destruct (Hg z t Hz) as (A & E & HA).
  unfold call_mat. rewrite E. exact HA.
Qed.

(** The partial derivative has the shape of the value of [G]. *)
Lemma der_shape y i t :
  length y = d -> has_shape2 d m (der g y i t eps) = true.
Proof.
  intros Hy. unfold der. cbv zeta.
  set (y' := alter _ i y).
  assert (Hy' : length y' = d) by (unfold y'; rewrite length_alter; exact Hy).
  pose proof (call_mat_has_shape y' t Hy') as [H1 H2]%has_shape2_spec.
  apply has_shape2_spec. unfold mdivs. rewrite !length_map.
  split; [exact H1|]. do 2 apply List.Forall_map.
  eapply Forall_impl; [exact H2|]. intros r Hr. cbn beta.
  unfold vdivs. now rewrite !length_map.
Qed.

Lemma tensordot00_shape (A : mat R) (DG : ten R) :
  has_shape2 d m A = true -> has_shape3 d d m DG = true ->
  has_shape3 m d m (tensordot00 A DG) = true.
Proof.
  intros HA HDG. unfold tensordot00.
  rewrite (ncols_shape d m A Hd HA).
  pose proof (hd_shape d d m DG Hd HDG) as H0.
  rewrite (ncols_shape d m _ Hd H0).
  apply has_shape2_spec in H0 as [-> _].
  apply has_shape3_spec. unfold range at 3. rewrite length_map, length_seq.
  split; [reflexivity|]. apply List.Forall_map, Forall_forall. intros a _.
  apply (has_shape2_table d m).
Qed.

Lemma swapaxes01_shape (T : ten R) :
  has_shape3 m d m T = true -> has_shape3 d m m (swapaxes01 T) = true.
Proof.
  intros HT. unfold swapaxes01.
  pose proof (hd_shape m d m T Hm HT) as [-> _]%has_shape2_spec.
  apply has_shape3_spec in HT as [HT1 HT2].
  apply has_shape3_spec. unfold range. rewrite length_map, length_seq.
  split; [reflexivity|]. apply List.Forall_map, Forall_forall.
  intros b Hb%elem_of_seq. apply has_shape2_spec. rewrite length_map.
  split; [exact HT1|]. apply List.Forall_map.
  eapply Forall_impl; [exact HT2|]. intros Ta [Ha1 Ha2]%has_shape2_spec.
  cbn beta.
  destruct (lookup_lt_is_Some_2 Ta b ltac:(lia)) as [row Hrow].
  rewrite (nth_lookup_Some _ _ _ _ Hrow).
  exact (Forall_lookup_1 _ _ _ _ Ha2 Hrow).
Qed.

Lemma H_num_shape y t :
  length y = d ->
  exists T, fn_call (gen_H_numerical g eps) (Arr1 y) t = Arr3 T
            /\ has_shape3 d m m T = true.
Proof.
  intros Hy. eexists. split; [reflexivity|].
  apply swapaxes01_shape, tensordot00_shape.
  - now apply call_mat_has_shape.
  - apply has_shape3_spec. unfold range. rewrite length_map, length_seq.
    split; [exact Hy|]. apply List.Forall_map, Forall_forall.
    intros i _. now apply der_shape.
Qed.
End Shapes.

(** X21.  For a diffusion function that returns arrays of shape [(d, m)]
    on the states of shape [(d,)], with [d >= 1] and [m >= 1], the function
    made by [gen_H_numerical] returns an array of shape [(d, m, m)] on
    every such state, each of the [d] partial derivatives taken by [der]
    having the shape [(d, m)]; so it passes the check that the validation
    makes of a tensor function [H]. *)
Theorem numerical_tensor_shape (g : pyfun R) (eps : R) (d m : nat) :
  (0 < d)%nat -> (0 < m)%nat ->
  (forall z t, length z = d ->
     exists A, fn_call g (Arr1 z) t = Arr2 A /\ has_shape2 d m A = true) ->
  forall y t, length y = d ->
    (forall i, (i < d)%nat -> has_shape2 d m (der g y i t eps) = true)
    /\ shape (fn_call (gen_H_numerical g eps) (Arr1 y) t) = Some [d; m; m]
    /\ forall s, check_H d m (Some (HCallable (gen_H_numerical g eps))) y t s
                 = (s, Ok tt).
Proof.
  intros Hd Hm Hg y t Hy.
  destruct (H_num_shape g eps d m Hd Hm Hg y t Hy) as (T & E & HT).
  assert (Hsh : shape (fn_call (gen_H_numerical g eps) (Arr1 y) t)
                = Some [d; m; m]).
  { rewrite E. cbn [shape].
    pose proof (hd_shape d m m T Hd HT) as H0.
    rewrite (ncols_shape m m _ Hm H0).
    apply has_shape2_spec in H0 as [-> _].
    apply has_shape3_spec in HT as [-> _]. reflexivity. }
  split; [intros i _; now apply der_shape|]. split; [exact Hsh|].
  intros s. cbn [check_H]. unfold shape_at. rewrite Hsh.
  cbn [lookup list_lookup]. munfold. cbv iota beta.
  rewrite !Nat.eqb_refl. reflexivity.
Qed.
End NumericalTensor.

Section NumericalTensorRun.
Import Complex128 ComplexExample.

(** The constant diffusion [[[1]]] of the system [dy = dt + dW]. *)
Lemma numerical_tensor_shape_witness :
  shape (fn_call (gen_H_numerical unit_noise (of_float 1e-20))
           (Arr1 [of_float 0]) (of_float 0))
  = Some [1%nat; 1%nat; 1%nat].
Proof.
  apply (numerical_tensor_shape unit_noise (of_float 1e-20) 1 1).
  - lia.
  - lia.
  - intros z t _. eexists. split; reflexivity.
  - reflexivity.
Defined.
End NumericalTensorRun.

(** ** Runs that complete *)

Section Completion.
Context {R : Type} `{SR : Scalar R}.
Variable deltaW : nat -> nat -> R -> mat R.

(** With [1 <= k <= N-1], every step [n < N-1] that is retained is written
    within the [floor((N-1)/k) + 1] rows allocated. *)
Lemma record_in_range {A} N1 k n (a : list A) x s :
  (1 <= k <= N1)%nat -> (n < N1)%nat -> length a = (N1 / k + 1)%nat ->
  exists a', record n k a x s = (s, Ok a') /\ length a' = length a.
Proof.
  intros Hk Hn Hlen. unfold record. destruct (retained n k) eqn:Hr.
  - destruct (Nat.eq_dec k 1%nat) as [->|Hk1].
    + rewrite record_index_default, setitem_in_range
        by (rewrite Hlen, Nat.div_1_r; lia).
      eexists. split; [reflexivity | apply length_insert].
    + destruct (record_index_in_range N1 k n ltac:(lia) Hn Hr)
        as (i & -> & Hi & _).
      rewrite setitem_in_range by lia.
      eexists. split; [reflexivity | apply length_insert].
  - exists a. split; reflexivity.
Qed.

(** A loop whose body completes each step and keeps an invariant completes
    all its steps. *)
Lemma for_each_counted {St} (P : St -> Prop) (b : nat -> St -> M St) len :
  forall a st s,
    (forall n st s, (a <= n < a + len)%nat -> P st ->
       exists st', b n st s = (S s, Ok st') /\ P st') ->
    P st ->
    exists st', for_each (seq a len) b st s = ((s + len)%nat, Ok st') /\ P st'.
Proof.
  induction len as [|len IH]; intros a st s Hb HP.
  - exists st. rewrite Nat.add_0_r. split; [reflexivity | exact HP].
  - cbn [seq for_each]. rewrite bind_unfold.
    destruct (Hb a st s) as (st1 & -> & HP1); [lia | exact HP |].
    destruct (IH (S a) st1 (S s)) as (st' & E & HP'); [|exact HP1|].
    { intros n st2 s2 Hn. apply Hb. lia. }
    exists st'. split; [rewrite E; f_equal; lia | exact HP'].
Qed.

(** The first row of the allocated rows can be set. *)
Lemma set_first_row n d (v : vec R) s :
  setitem (zeros2 (n + 1) d) 0 v s = (s, Ok (v :: replicate n (zeros1 d))).
Proof.
  change (setitem ?a 0 ?x) with (setitem a (Z.of_nat 0) x).
  rewrite setitem_in_range by (unfold zeros2; rewrite length_replicate; lia).
  rewrite Nat.add_1_r. reflexivity.
Qed.

Lemma rows_ok_first n d (v : vec R) :
  length v = d -> rows_ok (n + 1) d (v :: replicate n (zeros1 d)).
Proof.
  intros Hv. split.
  - cbn [length]. rewrite length_replicate. lia.
  - apply Forall_cons. split; [exact Hv | apply Forall_zeros].
Qed.

Lemma rows_ok_record N1 k d n (y : mat R) x s :
  (1 <= k <= N1)%nat -> (n < N1)%nat ->
  rows_ok (N1 / k + 1) d y -> length x = d ->
  exists y', record n k y x s = (s, Ok y') /\ rows_ok (N1 / k + 1) d y'.
Proof.
  intros Hk Hn [Hlen Hy] Hx.
  destruct (record_in_range N1 k n y x s Hk Hn Hlen) as (y' & E & Hlen').
  exists y'. split; [exact E|]. split; [congruence|].
  exact (record_Forall _ _ _ _ _ _ _ _ E Hy Hx).
Qed.

Lemma rows_ok_shape n d (y : mat R) : rows_ok n d y -> has_shape2 n d y = true.
Proof. intros [H1 H2]. now apply has_shape2_spec. Qed.


Section Defaults.
Variable Ikpw : mat R -> R -> mat R * ten R.
Variable Jkpw : mat R -> R -> mat R * ten R.

End Defaults.


Lemma length_unit_vector (v : vec R) : length (unit_vector v) = length v.
Proof. apply length_vdivs. Qed.

(** X24.  On a system of the documented shapes that passes validation with
    a state that is not empty, with increments of the shape [(N-1, m)],
    [itoImplicitEuler] in each of its
    three modes and with [1 <= downsample <= N-1] completes: after [N-1]
    steps it returns a trajectory of shape
    [(floor((N-1)/downsample) + 1, d)] and an array of as many norms. *)
Theorem implicit_Euler_returns md f G (y0 : y0_arg R) tspan dW
    (normalized : bool) k s d m f' g' y0' :
  _check_args f G y0 tspan dW None None s
    = (s, Ok (d, m, f', GCallable g', y0', tspan, dW, None)) ->
  (0 < d)%nat ->
  documented_shapes f' g' d m ->
  has_shape2 (length tspan - 1) m
    (get_dW deltaW dW (length tspan) m (step_size tspan)) = true ->
  (1 <= k <= length tspan - 1)%nat ->
  exists y ns,
    itoImplicitEuler deltaW f G y0 tspan dW normalized k (mode_name md) s
      = ((s + (length tspan - 1))%nat, Ok (Output y (Some ns)))
    /\ has_shape2 ((length tspan - 1) / k + 1) d y = true
    /\ length ns = ((length tspan - 1) / k + 1)%nat.
Proof.
  intros Hc Hpos Hds _ Hk. unfold itoImplicitEuler. rewrite (bind_ok _ _ _ _ _ Hc).
  apply check_args_inv in Hc as (_ & _ & _ & _ & [_ _ Hd _ _ _ _ _]).
  cbv iota beta. rewrite mode_name_accepted.
  rewrite bind_unfold. cbn [mret M_ret ret]. cbv iota beta.
  rewrite (bind_ok _ _ _ _ _
             (n_record_rows (length tspan) k s ltac:(lia) ltac:(lia))).
  rewrite (bind_ok _ _ _ _ _ (first_entry_type_ok y0' s ltac:(lia))).
  rewrite (bind_ok _ _ _ _ _ (set_first_row _ _ _ s)).
  cbn [nth]. set (N1 := (length tspan - 1)%nat) in *. unfold range.
  match goal with
  | |- context [for_each _ ?body ?init] =>
      destruct (for_each_counted
                  (fun st0 : mat R * vec R * vec R =>
                     rows_ok (N1 / k + 1) d (fst (fst st0))
                     /\ length (snd (fst st0)) = (N1 / k + 1)%nat
                     /\ length (snd st0) = d)
                  body N1 0%nat init s)
        as ([[y' ns'] yn'] & E & Hy & Hns & _)
  end.
  - intros n [[y ns] yn] s' Hn (Hy & Hns & Hyn). cbn [fst snd] in Hy, Hns, Hyn.
    rewrite implicit_body_callable. cbv zeta. rewrite bind_unfold.
    match goal with
    | |- context [record n k ns ?x] =>
        destruct (record_in_range N1 k n ns x (S s') Hk ltac:(lia) Hns)
          as (ns1 & -> & Hns1)
    end.
    rewrite bind_unfold.
    set (P := Phi md f' g' (step_size tspan) yn (nth n tspan r0)
                (nth n (get_dW deltaW dW (length tspan) m (step_size tspan)) [])).
    assert (HP : forall z, length z = d ->
              length (if normalized then unit_vector (P z) else P z) = d).
    { intros z Hz. destruct normalized;
        [rewrite length_unit_vector|]; now apply (length_Phi f' g' d m Hds). }
    match goal with
    | |- context [record n k y ?x] =>
        destruct (rows_ok_record N1 k d n y x (S s') Hk ltac:(lia) Hy)
          as (y1 & -> & Hy1)
    end.
    { do 3 apply HP. exact Hyn. }
    eexists. split; [reflexivity|]. cbn [fst snd].
    split; [exact Hy1|]. split; [congruence|]. do 3 apply HP. exact Hyn.
  - cbn [fst snd]. split; [apply rows_ok_first; congruence|].
    split; [|congruence]. unfold zeros1. apply length_replicate.
  - rewrite bind_unfold, E. exists y', ns'. cbn [fst snd] in Hy, Hns.
    split; [reflexivity|]. split; [now apply rows_ok_shape | exact Hns].
Qed.

(** X25.  On a system of the documented shapes, with a tensor function of
    the shape [(d, m, m)], that passes validation with a state that is not
    empty, with increments of the
    shape [(N-1, m)] and repeated integrals of the shape [(N-1, m, m)],
    [itoMilstein] with [1 <= downsample <= N-1] completes: after [N-1]
    steps it returns a trajectory of shape
    [(floor((N-1)/downsample) + 1, d)]. *)
Theorem Milstein_returns f G h (y0 : y0_arg R) tspan Imethod dW I
    (normalized : bool) k s d m f' g' y0' :
  _check_args f G y0 tspan dW I (Some (HCallable h)) s
    = (s, Ok (d, m, f', GCallable g', y0', tspan, dW, I)) ->
  (0 < d)%nat ->
  documented_shapes f' g' d m ->
  documented_tensor h d m ->
  has_shape2 (length tspan - 1) m
    (get_dW deltaW dW (length tspan) m (step_size tspan)) = true ->
  has_shape3 (length tspan - 1) m m
    (get_IJ I Imethod (get_dW deltaW dW (length tspan) m (step_size tspan))
       (step_size tspan)) = true ->
  (1 <= k <= length tspan - 1)%nat ->
  exists out,
    itoMilstein deltaW f G (Some (HCallable h)) y0 tspan Imethod dW I
      normalized k s
      = ((s + (length tspan - 1))%nat, Ok out)
    /\ has_shape2 ((length tspan - 1) / k + 1) d (trajectory out) = true.
Proof.
  intros Hc Hpos Hds Hten _ _ Hk. unfold itoMilstein. rewrite (bind_ok _ _ _ _ _ Hc).
  apply check_args_inv in Hc as (_ & _ & _ & _ & [_ _ Hd _ _ _ _ _]).
  cbv iota beta.
  rewrite (bind_ok _ _ _ _ _
             (n_record_rows (length tspan) k s ltac:(lia) ltac:(lia))).
  rewrite (bind_ok _ _ _ _ _ (first_entry_type_ok y0' s ltac:(lia))).
  rewrite (bind_ok _ _ _ _ _ (set_first_row _ _ _ s)).
  cbn [nth]. set (N1 := (length tspan - 1)%nat) in *. unfold range.
  match goal with
  | |- context [for_each _ ?body ?init] =>
      destruct (for_each_counted
                  (fun st0 : mat R * vec R =>
                     rows_ok (N1 / k + 1) d (fst st0) /\ length (snd st0) = d)
                  body N1 0%nat init s)
        as ([y' yn'] & E & Hy' & _)
  end.
  - intros n [y yn] s' Hn [Hy Hyn]. cbn [fst snd] in Hy, Hyn.
    unfold itoMilstein_body. cbn [call_G call_H].
    rewrite bind_unfold. change (tick s') with (S s', Ok tt). cbv iota beta.
    do 2 (rewrite bind_unfold; cbn [mret M_ret ret]; cbv iota beta).
    rewrite bind_unfold.
    assert (Hten' : length (call_ten h yn (nth n tspan r0)) = d).
    { destruct (Hten yn (nth n tspan r0) Hyn) as (T & ET & HT).
      unfold call_ten. rewrite ET. now apply has_shape3_spec in HT. }
    match goal with
    | |- context [record n k y ?x] =>
        assert (Hx : length x = d);
        [| destruct (rows_ok_record N1 k d n y x (S s') Hk ltac:(lia) Hy Hx)
             as (y1 & -> & Hy1)]
    end.
    { rewrite length_normalize_if, !length_vadd, length_vmuls, !length_mdotv,
        length_map, Hten'.
      rewrite (length_call_vec f' g' d m Hds), (length_call_mat f' g' d m Hds)
        by exact Hyn.
      lia. }
    eexists. split; [reflexivity|]. cbn [fst snd]. split; assumption.
  - cbn [fst snd]. split; [apply rows_ok_first|]; congruence.
  - rewrite bind_unfold, E. eexists. split; [reflexivity|].
    now apply rows_ok_shape.
Qed.
End Completion.

Section CompletionRun.
Import Float64 Example ZeroWiener.



Lemma implicit_Euler_returns_witness :
  exists y ns,
    itoImplicitEuler no_deltaW drift_one (GCallable no_noise)
      (Y0Arr float64 [0%float]) (grid 5) (Some (zero_dW 4)) false 2
      "semi_implicit_drift" 0%nat
    = (4%nat, Ok (Output y (Some ns)))
    /\ has_shape2 3 1 y = true /\ length ns = 3%nat.
Proof.
  apply (implicit_Euler_returns (SR := float_scalar) no_deltaW
           SemiImplicitDrift drift_one (GCallable no_noise)
           (Y0Arr float64 [0%float]) (grid 5) (Some (zero_dW 4)) false 2
           0%nat 1%nat 1%nat drift_one no_noise (Array1 float64 [0%float])).
  - vm_compute. reflexivity.
  - lia.
  - exact constant_system_shapes.
  - reflexivity.
  - simpl. lia.
Defined.
End CompletionRun.

Section CompletionComplexRun.
Import Complex128 ComplexExample ShapeExamples.

(** The system [dy = dt + dW] with the tensor function [[[[0]]]]. *)
Lemma Milstein_returns_witness :
  exists out,
    itoMilstein never_deltaW unit_drift (GCallable unit_noise)
      (Some (HCallable zero_tensor)) (Y0Arr complex128 [of_float 0]) even_grid
      never_IJmethod (Some (Arr2 [[of_float 0]; [of_float 0]]))
      (Some (Arr3 [[[of_float 0]]; [[of_float 0]]])) false 1 0%nat
    = (2%nat, Ok out)
    /\ has_shape2 3 1 (trajectory out) = true.
Proof.
  apply (Milstein_returns (SR := complex_scalar) never_deltaW unit_drift
           (GCallable unit_noise) zero_tensor (Y0Arr complex128 [of_float 0])
           even_grid never_IJmethod (Some (Arr2 [[of_float 0]; [of_float 0]]))
           (Some (Arr3 [[[of_float 0]]; [[of_float 0]]])) false 1 0%nat
           1%nat 1%nat unit_drift unit_noise
           (Array1 complex128 [of_float 0])).
  - vm_compute. reflexivity.
  - lia.
  - exact unit_system_shapes.
  - exact zero_tensor_shape.
  - reflexivity.
  - reflexivity.
  - simpl. lia.
Defined.
End CompletionComplexRun.

(** ** The quasi-implicit scheme on valid ports *)

Section QuasiImplicit.
Context {R : Type} `{SR : Scalar R}.
Variable deltaW : nat -> nat -> R -> mat R.

Lemma take_cols_ok ports (A : mat R) s :
  forallb (fun p => (p <? ncols A)%nat) ports = true ->
  take_cols ports A s = (s, Ok (map (fun r => map (fun p => nth p r r0) ports) A)).
Proof. intros H. unfold take_cols. rewrite H. reflexivity. Qed.

Lemma take_idx_ok ports (v : vec R) s :
  forallb (fun p => (p <? length v)%nat) ports = true ->
  take_idx ports v s = (s, Ok (map (fun p => nth p v r0) ports)).
Proof. intros H. unfold take_idx. rewrite H. reflexivity. Qed.

Lemma length_row (A : mat R) n c i :
  has_shape2 n c A = true -> (i < n)%nat -> length (nth i A []) = c.
Proof.
  intros [H1 H2]%has_shape2_spec Hi.
  destruct (lookup_lt_is_Some_2 A i ltac:(lia)) as [row Hrow].
  rewrite (nth_lookup_Some _ _ _ _ Hrow).
  exact (Forall_lookup_1 _ _ _ _ H2 Hrow).
Qed.

Section Step.
Variables (f g : pyfun R) (d m : nat).
Hypothesis Hds : documented_shapes f g d m.
Hypothesis Hd : (0 < d)%nat.

Lemma ncols_call_mat y t : length y = d -> ncols (call_mat g y t) = m.
Proof.
  intros Hy. destruct (ds_noise _ _ _ _ Hds y t Hy) as (A & E & HA).
  unfold call_mat. rewrite E. cbn [as_mat]. exact (ncols_shape d m A Hd HA).
Qed.

(** One step with ports in range completes and keeps the shapes. *)
Lemma quasi_implicit_body_returns tspan dW h (normalized : bool) k N1
    expl impl n (y : mat R) (norms yn : vec R) s :
  has_shape2 N1 m dW = true ->
  forallb (fun p => (p <? m)%nat) expl = true ->
  forallb (fun p => (p <? m)%nat) impl = true ->
  (1 <= k <= N1)%nat -> (n < N1)%nat ->
  rows_ok (N1 / k + 1) d y -> length norms = (N1 / k + 1)%nat ->
  length yn = d ->
  exists y' norms' yn',
    itoQuasiImplicitEuler_body f (GCallable g) tspan dW h normalized k
      expl impl n (y, norms, yn) s
    = (S s, Ok (y', norms', yn'))
    /\ rows_ok (N1 / k + 1) d y' /\ length norms' = (N1 / k + 1)%nat
    /\ length yn' = d.
Proof.
  intros HdW He Hi Hk Hn Hy Hns Hyn.
  unfold itoQuasiImplicitEuler_body. rewrite bind_unfold.
  change (tick s) with (S s, Ok tt). cbv iota beta.
  cbn [call_G]. rewrite bind_unfold. cbn [mret M_ret ret]. cbv iota beta.
  set (tn := nth n tspan r0). set (dWn := nth n dW []).
  set (Gn := call_mat g yn tn).
  assert (HGn : ncols Gn = m) by now apply ncols_call_mat.
  assert (HGn' : length Gn = d) by now apply (length_call_mat f g d m Hds).
  assert (HdWn : length dWn = m) by (eapply length_row; eassumption).
  rewrite (bind_ok _ _ _ _ _ (take_cols_ok expl Gn (S s)
                                ltac:(rewrite HGn; exact He))).
  rewrite (bind_ok _ _ _ _ _ (take_cols_ok impl Gn (S s)
                                ltac:(rewrite HGn; exact Hi))).
  rewrite (bind_ok _ _ _ _ _ (take_idx_ok expl dWn (S s)
                                ltac:(rewrite HdWn; exact He))).
  rewrite (bind_ok _ _ _ _ _ (take_idx_ok impl dWn (S s)
                                ltac:(rewrite HdWn; exact Hi))).
  cbv zeta.
  set (yen := vadd (vadd yn (vmuls (call_vec f yn tn) h)) (mdotv _ _)).
  assert (Hyen : length yen = d).
  { unfold yen. rewrite !length_vadd, length_vmuls, length_mdotv, length_map.
    rewrite (length_call_vec f g d m Hds), HGn' by exact Hyn.
    lia. }
  set (yt := normalize_if normalized (vadd yen _)).
  assert (Hyt : length yt = d).
  { unfold yt. rewrite length_normalize_if, length_vadd, length_mdotv, length_map.
    rewrite HGn'. lia. }
  rewrite bind_unfold. cbn [mret M_ret ret]. cbv iota beta.
  set (Gt := call_mat g yt (tn + h)%num).
  assert (HGt : ncols Gt = m) by now apply ncols_call_mat.
  assert (HGt' : length Gt = d) by now apply (length_call_mat f g d m Hds).
  rewrite (bind_ok _ _ _ _ _ (take_cols_ok impl Gt (S s)
                                ltac:(rewrite HGt; exact Hi))).
  set (ynext := vadd yen (mdotv _ _)).
  assert (Hynext : length ynext = d).
  { unfold ynext. rewrite length_vadd, length_mdotv, length_map.
    rewrite HGt'. lia. }
  destruct (record_in_range N1 k n norms (norm ynext) (S s) Hk Hn Hns)
    as (norms' & E1 & Hns').
  rewrite (bind_ok _ _ _ _ _ E1).
  set (yfin := if normalized then vdivs ynext (norm ynext) else ynext).
  assert (Hyfin : length yfin = d).
  { unfold yfin. destruct normalized; [rewrite length_vdivs|]; exact Hynext. }
  destruct (rows_ok_record N1 k d n y yfin (S s) Hk Hn Hy Hyfin)
    as (y' & E2 & Hy').
  rewrite (bind_ok _ _ _ _ _ E2).
  exists y', norms', yfin. split; [reflexivity|].
  split; [exact Hy'|]. split; [congruence | exact Hyfin].
Qed.
End Step.

(** X26.  [itoQuasiImplicitEuler] on a system of the documented shapes, of
    dimension [d >= 1], that passes validation, with increments of the
    shape [(N-1, m)], a list [implicit_ports] whose entries are channels
    below [m], and [1 <= downsample <= N-1]: the call completes, and
    returns after [N-1] steps a trajectory of shape
    [(floor((N-1)/downsample) + 1, d)] and an array of as many norms. *)
Theorem quasi_implicit_Euler_returns f G (y0 : y0_arg R) tspan dW
    (normalized : bool) k ps s d m f' g' y0' :
  _check_args f G y0 tspan dW None None s
    = (s, Ok (d, m, f', GCallable g', y0', tspan, dW, None)) ->
  documented_shapes f' g' d m ->
  (0 < d)%nat ->
  has_shape2 (length tspan - 1) m
    (get_dW deltaW dW (length tspan) m (step_size tspan)) = true ->
  forallb (fun p => (p <? m)%nat) ps = true ->
  (1 <= k <= length tspan - 1)%nat ->
  exists y ns,
    itoQuasiImplicitEuler deltaW f G y0 tspan dW normalized k (Some ps) s
      = ((s + (length tspan - 1))%nat, Ok (Output y (Some ns)))
    /\ has_shape2 ((length tspan - 1) / k + 1) d y = true
    /\ length ns = ((length tspan - 1) / k + 1)%nat.
Proof.
  intros Hc Hds Hd HdW Hps Hk. unfold itoQuasiImplicitEuler.
  rewrite (bind_ok _ _ _ _ _ Hc).
  apply check_args_inv in Hc as (_ & _ & _ & _ & [_ _ Hd0 _ _ _ _ _]).
  cbv iota beta.
  rewrite (bind_ok _ _ _ _ _ (ports_not_in_Some (range m) ps s)).
  rewrite (bind_ok _ _ _ _ _
             (n_record_rows (length tspan) k s ltac:(lia) ltac:(lia))).
  rewrite (bind_ok _ _ _ _ _ (first_entry_type_ok y0' s ltac:(lia))).
  rewrite (bind_ok _ _ _ _ _ (set_first_row _ _ _ s)).
  cbn [nth]. set (N1 := (length tspan - 1)%nat) in *.
  change (range N1) with (seq 0 N1).
  match goal with
  | |- context [for_each _ ?body ?init] =>
      destruct (for_each_counted
                  (fun st0 : mat R * vec R * vec R =>
                     rows_ok (N1 / k + 1) d (fst (fst st0))
                     /\ length (snd (fst st0)) = (N1 / k + 1)%nat
                     /\ length (snd st0) = d)
                  body N1 0%nat init s)
        as ([[y' ns'] yn'] & E & Hy & Hns & _)
  end.
  - intros n [[y ns] yn] s' Hn (Hy & Hns & Hyn). cbn [fst snd] in Hy, Hns, Hyn.
    destruct (quasi_implicit_body_returns f' g' d m Hds Hd tspan
                (get_dW deltaW dW (length tspan) m (step_size tspan))
                (step_size tspan) normalized k N1
                (filter (fun i => i ∉ ps) (range m)) ps n y ns yn s')
      as (y1 & ns1 & yn1 & -> & H1 & H2 & H3); try assumption; try lia.
    { apply explicit_ports_in_range. }
    eexists. split; [reflexivity|]. cbn [fst snd]. auto.
  - cbn [fst snd]. split; [apply rows_ok_first; congruence|].
    split; [|congruence]. unfold zeros1. apply length_replicate.
  - rewrite bind_unfold, E. exists y', ns'. cbn [fst snd] in Hy, Hns.
    split; [reflexivity|]. split; [now apply rows_ok_shape | exact Hns].
Qed.
End QuasiImplicit.

Section QuasiImplicitRun.
Import Float64 Example.

(** Four steps of the system [dy = dt] with its one channel implicit and
    [downsample = 2]. *)
Lemma quasi_implicit_Euler_returns_witness :
  exists y ns,
    itoQuasiImplicitEuler no_deltaW drift_one (GCallable no_noise)
      (Y0Arr float64 [0%float]) (grid 5) (Some (zero_dW 4)) false 2
      (Some [0%nat]) 0%nat
    = (4%nat, Ok (Output y (Some ns)))
    /\ has_shape2 3 1 y = true /\ length ns = 3%nat.
Proof.
  apply (quasi_implicit_Euler_returns (SR := float_scalar) no_deltaW drift_one
           (GCallable no_noise) (Y0Arr float64 [0%float]) (grid 5)
           (Some (zero_dW 4)) false 2 [0%nat] 0%nat 1%nat 1%nat drift_one
           no_noise (Array1 float64 [0%float])).
  - vm_compute. reflexivity.
  - exact constant_system_shapes.
  - lia.
  - reflexivity.
  - reflexivity.
  - simpl. lia.
Defined.
End QuasiImplicitRun.

(** ** The two-step scheme with a solver that converges *)

Section TwoStepConverges.
Context {R : Type} `{SR : Scalar R}.
Variable deltaW : nat -> nat -> R -> mat R.
Variable fsolve : (vec R -> vec R) -> vec R -> R -> vec R * Z * string.


Section Step.
Variables (f g : pyfun R) (d m : nat).
Hypothesis Hds : documented_shapes f g d m.
Hypothesis Hsolve : forall F x0 tol,
  exists x msg, fsolve F x0 tol = (x, 1, msg) /\ length x = length x0.

End Step.

End TwoStepConverges.

Section TwoStepConvergesRun.
Import Float64 Example.

End TwoStepConvergesRun.

(** ** The run of the implicit Euler-Maruyama scheme (C7, C10) *)

Section ImplicitEulerRun.
Context {R : Type} `{SR : Scalar R}.
Variable deltaW : nat -> nat -> R -> mat R.

(** A loop whose body completes each step and takes the invariant of step
    [n] to that of step [n+1] completes all its steps. *)
Lemma for_each_indexed {St} (P : nat -> St -> Prop) (b : nat -> St -> M St) len :
  forall a st s,
    (forall n st s, (a <= n < a + len)%nat -> P n st ->
       exists st', b n st s = (S s, Ok st') /\ P (S n) st') ->
    P a st ->
    exists st', for_each (seq a len) b st s = ((s + len)%nat, Ok st')
                /\ P (a + len)%nat st'.
Proof.
  induction len as [|len IH]; intros a st s Hb HP.
  - exists st. rewrite !Nat.add_0_r. split; [reflexivity | exact HP].
  - cbn [seq for_each]. rewrite bind_unfold.
    destruct (Hb a st s) as (st1 & -> & HP1); [lia | exact HP |].
    destruct (IH (S a) st1 (S s)) as (st' & E & HP'); [|exact HP1|].
    { intros n st2 s2 Hn. apply Hb. lia. }
    exists st'. split; [rewrite E; f_equal; lia|].
    replace (a + S len)%nat with (S a + len)%nat by lia. exact HP'.
Qed.

(** With [1 <= k <= N-1], a retained step is written to one of the rows
    allocated. *)
Lemma record_index_row N1 k n :
  (1 <= k <= N1)%nat -> (n < N1)%nat -> retained n k = true ->
  exists i, record_index n k = Z.of_nat i /\ (i <= N1 / k)%nat.
Proof.
  intros Hk Hn Hr. destruct (Nat.eq_dec k 1%nat) as [->|Hk1].
  - exists n. rewrite record_index_default, Nat.div_1_r. split; [reflexivity | lia].
  - destruct (record_index_in_range N1 k n ltac:(lia) Hn Hr) as (i & E & Hi & _).
    exists i. split; [exact E | lia].
Qed.

Lemma record_row {A} N1 k n (a : list A) x s :
  (1 <= k <= N1)%nat -> (n < N1)%nat -> length a = (N1 / k + 1)%nat ->
  record n k a x s
  = (s, Ok (if retained n k then <[row_of n k := x]> a else a)).
Proof.
  intros Hk Hn Hlen. unfold record, row_of. destruct (retained n k) eqn:Hr.
  - destruct (record_index_row N1 k n Hk Hn Hr) as (i & -> & Hi).
    rewrite setitem_in_range, Nat2Z.id by lia. reflexivity.
  - reflexivity.
Qed.

Lemma row_of_lt N1 k n :
  (1 <= k <= N1)%nat -> (n < N1)%nat -> retained n k = true ->
  (row_of n k < N1 / k + 1)%nat.
Proof.
  intros Hk Hn Hr. unfold row_of.
  destruct (record_index_row N1 k n Hk Hn Hr) as (i & -> & Hi).
  rewrite Nat2Z.id. lia.
Qed.

(** Retained steps with different indices are written to different rows. *)
Lemma row_of_inj N1 k n n' :
  (1 <= k <= N1)%nat -> (n < N1)%nat -> (n' < N1)%nat ->
  retained n k = true -> retained n' k = true ->
  record_index n' k <> record_index n k -> row_of n' k <> row_of n k.
Proof.
  intros Hk Hn Hn' Hr Hr' Hne. unfold row_of.
  destruct (record_index_row N1 k n Hk Hn Hr) as (i & Ei & _).
  destruct (record_index_row N1 k n' Hk Hn' Hr') as (i' & Ei' & _).
  rewrite Ei, Ei' in *. rewrite !Nat2Z.id. intros ->. now apply Hne.
Qed.

(** The run of [itoImplicitEuler] on a validated system with a callable
    [G]: all [N-1] steps are taken, each carries on the result of its three
    passes, and a retained step leaves that result and the norm of its last
    pass in its row, where they stay unless a later step is written to the
    same row. *)
Lemma implicit_Euler_run md f G (y0 : y0_arg R) tspan dW (normalized : bool)
    k s d m f' g' y0' (Y : nat -> vec R) :
  _check_args f G y0 tspan dW None None s
    = (s, Ok (d, m, f', GCallable g', y0', tspan, dW, None)) ->
  (0 < d)%nat ->
  (1 <= k <= length tspan - 1)%nat ->
  let dW1 := get_dW deltaW dW (length tspan) m (step_size tspan) in
  let P := fun n => Phi md f' g' (step_size tspan) (Y n) (nth n tspan r0)
                      (nth n dW1 []) in
  let NP := fun n z => if normalized then unit_vector (P n z) else P n z in
  Y 0%nat = arr_data y0' ->
  (forall n, Y (S n) = NP n (NP n (NP n (Y n)))) ->
  exists y ns,
    itoImplicitEuler deltaW f G y0 tspan dW normalized k (mode_name md) s
      = ((s + (length tspan - 1))%nat, Ok (Output y (Some ns)))
    /\ forall n, keeps_row (length tspan - 1) k n ->
         y !! row_of n k = Some (Y (S n))
         /\ ns !! row_of n k = Some (norm (P n (NP n (NP n (Y n))))).
Proof.
  intros Hc Hpos Hk dW1 P NP HY0 HY.
  unfold itoImplicitEuler. rewrite (bind_ok _ _ _ _ _ Hc).
  apply check_args_inv in Hc as (_ & _ & _ & _ & [_ _ Hd _ _ _ _ _]).
  cbv iota beta. rewrite mode_name_accepted.
  rewrite bind_unfold. cbn [mret M_ret ret]. cbv iota beta.
  rewrite (bind_ok _ _ _ _ _
             (n_record_rows (length tspan) k s ltac:(lia) ltac:(lia))).
  rewrite (bind_ok _ _ _ _ _ (first_entry_type_ok y0' s ltac:(lia))).
  rewrite (bind_ok _ _ _ _ _ (set_first_row _ _ _ s)).
  cbn [nth]. fold dW1. set (N1 := (length tspan - 1)%nat) in *. unfold range.
  match goal with
  | |- context [for_each _ ?body ?init] =>
      destruct (for_each_indexed
                  (fun a (st0 : mat R * vec R * vec R) =>
                     length (fst (fst st0)) = (N1 / k + 1)%nat
                     /\ length (snd (fst st0)) = (N1 / k + 1)%nat
                     /\ snd st0 = Y a
                     /\ forall n, (n < a)%nat -> retained n k = true ->
                          (forall n', (n < n' < a)%nat -> retained n' k = true ->
                             record_index n' k <> record_index n k) ->
                          fst (fst st0) !! row_of n k = Some (Y (S n))
                          /\ snd (fst st0) !! row_of n k
                             = Some (norm (P n (NP n (NP n (Y n))))))
                  body N1 0%nat init s)
        as ([[y' ns'] yn'] & E & Hy & Hns & _ & Hrows)
  end.
  - intros a [[y ns] yn] s' Ha (Hy & Hns & Hyn & Hrows).
    cbn [fst snd] in Hy, Hns, Hyn, Hrows. subst yn.
    match goal with
    | |- context [?body a (y, ns, Y a) s'] =>
        assert (Hb : body a (y, ns, Y a) s'
                     = (norms' ← record a k ns (norm (P a (NP a (NP a (Y a)))));
                        y' ← record a k y (Y (S a));
                        mret (y', norms', Y (S a))) (S s'))
          by (rewrite HY;
              apply (implicit_body_callable md f' g' tspan dW1 (step_size tspan)
                       normalized));
        rewrite Hb; clear Hb
    end.
    rewrite bind_unfold, (record_row N1 k a ns _ (S s')) by (lia || exact Hns).
    cbv iota beta.
    rewrite bind_unfold, (record_row N1 k a y _ (S s')) by (lia || exact Hy).
    cbv iota beta.
    eexists. split; [reflexivity|]. cbn [fst snd].
    destruct (retained a k) eqn:Hr.
    + rewrite !length_insert. split; [exact Hy|]. split; [exact Hns|].
      split; [reflexivity|].
      intros n Hn Hrn Hlast. destruct (Nat.eq_dec n a) as [->|Hne].
      * rewrite !list_lookup_insert_eq; [split; reflexivity | |].
        -- rewrite Hns. apply (row_of_lt N1); (lia || assumption).
        -- rewrite Hy. apply (row_of_lt N1); (lia || assumption).
      * assert (Hrow : row_of a k <> row_of n k).
        { apply (row_of_inj N1); try (lia || assumption).
          apply Hlast; [lia | exact Hr]. }
        rewrite !list_lookup_insert_ne by exact Hrow.
        apply Hrows; [lia | exact Hrn |].
        intros n' Hn' Hr'. apply Hlast; [lia | exact Hr'].
    + split; [exact Hy|]. split; [exact Hns|]. split; [reflexivity|].
      intros n Hn Hrn Hlast. assert (n <> a) by congruence.
      apply Hrows; [lia | exact Hrn |].
      intros n' Hn' Hr'. apply Hlast; [lia | exact Hr'].
  - cbn [fst snd]. split; [cbn [length]; rewrite length_replicate; lia|].
    split; [unfold zeros1; apply length_replicate|].
    split; [symmetry; exact HY0|]. intros n Hn. lia.
  - rewrite bind_unfold, E. exists y', ns'. cbn [fst snd] in Hy, Hns, Hrows.
    split; [reflexivity|].
    intros n (Hn & Hr & Hlast). apply Hrows; [lia | exact Hr |].
    intros n' Hn'. apply Hlast. lia.
Qed.

(** C7.  [itoImplicitEuler] with [normalized = False], in each of the three
    modes, on a system of the documented shapes that passes validation with
    a callable [G] and a state that is not empty and has the element type
    of the values, with increments of the shape [(N-1, m)] and
    [1 <= downsample <= N-1].  The call takes all [N-1] steps with the step
    size [h] of the grid, and step [n] takes the state [y_n] it is given
    to [Phi (Phi (Phi y_n))], with [Phi] the step map of the mode at
    [(y_n, t_n, dW_n)]: the first application is the explicit
    Euler-Maruyama estimate and two more follow unconditionally.  The state
    after the step is what the next step starts from and what a retained
    step leaves in its row of the trajectory, with its norm in the same row
    of the norms (a row that a later step is written to as well holds the
    later one). *)
Theorem implicit_euler_three_applications md f G (y0 : y0_arg R) tspan dW
    k s d m f' g' y0' :
  _check_args f G y0 tspan dW None None s
    = (s, Ok (d, m, f', GCallable g', y0', tspan, dW, None)) ->
  (0 < d)%nat ->
  arr_dtype y0' = native ->
  documented_shapes f' g' d m ->
  has_shape2 (length tspan - 1) m
    (get_dW deltaW dW (length tspan) m (step_size tspan)) = true ->
  (1 <= k <= length tspan - 1)%nat ->
  let dW1 := get_dW deltaW dW (length tspan) m (step_size tspan) in
  let h := step_size tspan in
  let Y := three_pass_state md f' g' tspan dW1 h (arr_data y0') in
  let P := fun n => Phi md f' g' h (Y n) (nth n tspan r0) (nth n dW1 []) in
  (forall n, P n (Y n) = euler_update f' g' tspan dW1 h false n (Y n))
  /\ exists y ns,
       itoImplicitEuler deltaW f G y0 tspan dW false k (mode_name md) s
         = ((s + (length tspan - 1))%nat, Ok (Output y (Some ns)))
       /\ forall n, keeps_row (length tspan - 1) k n ->
            y !! row_of n k = Some (P n (P n (P n (Y n))))
            /\ ns !! row_of n k = Some (norm (P n (P n (P n (Y n))))).
Proof.
  intros Hc Hpos _ _ _ Hk dW1 h Y P. split.
  - intros n. destruct md; reflexivity.
  - apply (implicit_Euler_run md f G y0 tspan dW false k s d m f' g' y0' Y
             Hc Hpos Hk); reflexivity.
Qed.

(** C10.  [itoImplicitEuler] with [normalized = True], on the same inputs.
    Every pass ends with the projection on the unit sphere: step [n] takes
    [y_n] to [N (N (N y_n))] with [N z = Phi z / ||Phi z||], so the second
    and the third pass apply [Phi] to projected states, and the iteration
    is that of the normalized step map.  A retained step leaves this state
    in its row of the trajectory and, in the same row of the norms,
    [||Phi (N (N y_n))||]: the norm of the last pass before its
    projection. *)
Theorem implicit_euler_normalizes_every_pass md f G (y0 : y0_arg R) tspan dW
    k s d m f' g' y0' :
  _check_args f G y0 tspan dW None None s
    = (s, Ok (d, m, f', GCallable g', y0', tspan, dW, None)) ->
  (0 < d)%nat ->
  arr_dtype y0' = native ->
  documented_shapes f' g' d m ->
  has_shape2 (length tspan - 1) m
    (get_dW deltaW dW (length tspan) m (step_size tspan)) = true ->
  (1 <= k <= length tspan - 1)%nat ->
  let dW1 := get_dW deltaW dW (length tspan) m (step_size tspan) in
  let h := step_size tspan in
  let Y := projected_state md f' g' tspan dW1 h (arr_data y0') in
  let P := fun n => Phi md f' g' h (Y n) (nth n tspan r0) (nth n dW1 []) in
  let N := fun n z => unit_vector (P n z) in
  exists y ns,
    itoImplicitEuler deltaW f G y0 tspan dW true k (mode_name md) s
      = ((s + (length tspan - 1))%nat, Ok (Output y (Some ns)))
    /\ forall n, keeps_row (length tspan - 1) k n ->
         y !! row_of n k = Some (N n (N n (N n (Y n))))
         /\ ns !! row_of n k = Some (norm (P n (N n (N n (Y n))))).
Proof.
  intros Hc Hpos _ _ _ Hk dW1 h Y P N.
  apply (implicit_Euler_run md f G y0 tspan dW true k s d m f' g' y0' Y
           Hc Hpos Hk); reflexivity.
Qed.
End ImplicitEulerRun.

Section ImplicitEulerExample.
Import Float64 Example.

Lemma linear_system_shapes : documented_shapes linear_drift linear_noise 1 1.
Proof.
  split; intros y t Hy; eexists; (split; [reflexivity|]).
  - cbn. now rewrite length_map.
  - destruct y as [|x [|]]; try discriminate. reflexivity.
Qed.

(** With [downsample = 1] the first of two steps keeps its row. *)
Lemma first_step_keeps_row : keeps_row 2 1 0.
Proof.
  split; [lia|]. split; [reflexivity|].
  intros n' Hn' _ E. assert (n' = 1%nat) as -> by lia. discriminate E.
Qed.

(** [dy = -y dt + 0.5 y dW] from [y0 = 1] on the grid [0, 1, 2] with
    [dW_0 = 1]: the step map of the first step is [Phi z = 1 - 0.5 z], and
    its three applications give [0.5], [0.75] and [0.625]. *)
Lemma implicit_euler_three_applications_witness :
  exists y ns,
    itoImplicitEuler no_deltaW linear_drift (GCallable linear_noise)
      (Y0Arr float64 [1%float]) (grid 3)
      (Some (Arr2 [[1%float]; [0.5%float]])) false 1 "implicit" 0%nat
    = (2%nat, Ok (Output y (Some ns)))
    /\ y !! 0%nat = Some [0.625%float]
    /\ ns !! 0%nat = Some 0.625%float.
Proof.
  destruct (implicit_euler_three_applications (SR := float_scalar) no_deltaW
              Implicit linear_drift (GCallable linear_noise)
              (Y0Arr float64 [1%float]) (grid 3)
              (Some (Arr2 [[1%float]; [0.5%float]])) 1 0%nat 1%nat 1%nat
              linear_drift linear_noise (Array1 float64 [1%float])
              ltac:(vm_compute; reflexivity) ltac:(lia) eq_refl
              linear_system_shapes ltac:(reflexivity) ltac:(simpl; lia))
    as (_ & y & ns & E & Hrows).
  exists y, ns. split; [exact E|].
  exact (Hrows 0%nat first_step_keeps_row).
Defined.

(** The same equation from [y0 = 3]: the passes of the first step give
    [1.5], [2.5] and [2.5] before their projections; the row holds the
    unit state and the norm [2.5] of the last pass. *)
Lemma implicit_euler_normalizes_every_pass_witness :
  exists y ns,
    itoImplicitEuler no_deltaW linear_drift (GCallable linear_noise)
      (Y0Arr float64 [3%float]) (grid 3)
      (Some (Arr2 [[1%float]; [0.5%float]])) true 1 "implicit" 0%nat
    = (2%nat, Ok (Output y (Some ns)))
    /\ y !! 0%nat = Some [1%float]
    /\ ns !! 0%nat = Some 2.5%float.
Proof.
  destruct (implicit_euler_normalizes_every_pass (SR := float_scalar) no_deltaW
              Implicit linear_drift (GCallable linear_noise)
              (Y0Arr float64 [3%float]) (grid 3)
              (Some (Arr2 [[1%float]; [0.5%float]])) 1 0%nat 1%nat 1%nat
              linear_drift linear_noise (Array1 float64 [3%float])
              ltac:(vm_compute; reflexivity) ltac:(lia) eq_refl
              linear_system_shapes ltac:(reflexivity) ltac:(simpl; lia))
    as (y & ns & E & Hrows).
  exists y, ns. split; [exact E|].
  exact (Hrows 0%nat first_step_keeps_row).
Defined.
End ImplicitEulerExample.

